(** * DailyFlow: task list, device registry and backup codec

    A shallow embedding of the state-changing handlers of the DailyFlow
    application (the [App] component together with the data declarations
    of [types.ts]) and the properties of the task store, the reorder
    gesture, the device registry and the JSON import/export.

    The handlers are closures over React state.  Each is embedded as a
    pure function of the state it reads, returning the value it hands to
    the state setter (or the unchanged state when no setter is called).
    Values typed in the source ([Task], [string[]]) are records and lists
    of strings; the value produced by [JSON.parse] has type [any] and is
    kept as a JSON tree. *)

From Stdlib Require Import String Ascii ZArith List Bool Lia DecimalN.
From Stdlib Require DecimalFacts DecimalPos DecimalZ.
From stdpp Require Import base list.
Import ListNotations.

Local Open Scope string_scope.
Local Open Scope list_scope.

(** ** Data model ([types.ts]) *)

Inductive TaskStatus := PENDING | COMPLETED | SKIPPED.

Record Task := mkTask {
  id : string;
  name : string;
  description : string;
  checkInTime : string;
  device : string;
  appOrUrl : string;
  status : TaskStatus;
  createdAt : Z
}.

(** [Omit<Task, 'id' | 'createdAt'>], the value the task form submits. *)
Module TaskData.
Record t := mk {
  name : string;
  description : string;
  checkInTime : string;
  device : string;
  appOrUrl : string;
  status : TaskStatus
}.
End TaskData.

(** ** The JavaScript operations the handlers use *)

(** Truthiness of a string: only the empty string is falsy. *)
Definition truthy_string (s : string) : bool :=
  match s with
  | EmptyString => false
  | String _ _ => true
  end.

Section ArrayOps.
Context {A : Type}.

(** [Array.prototype.findIndex]; the result [-1] is [None]. *)
Fixpoint findIndex (p : A -> bool) (l : list A) : option nat :=
  match l with
  | [] => None
  | x :: l' => if p x then Some 0 else option_map S (findIndex p l')
  end.

(** [Array.prototype.splice(start, deleteCount, ...items)] for a
    non-negative [start]: the deleted elements and the array afterwards.
    A [start] beyond the end is clamped to the length, as are the
    deletions. *)
Definition splice (start deleteCount : nat) (items l : list A)
  : list A * list A :=
  (take deleteCount (drop start l),
   take start l ++ items ++ drop (start + deleteCount) l).

(** [Array.prototype.some] with the index passed to the callback. *)
Fixpoint some_from (i : nat) (p : A -> nat -> bool) (l : list A) : bool :=
  match l with
  | [] => false
  | x :: l' => p x i || some_from (S i) p l'
  end.

Definition some_i (p : A -> nat -> bool) (l : list A) : bool :=
  some_from 0 p l.

(** [Array.prototype.filter] with the index passed to the callback. *)
Fixpoint filter_from (i : nat) (p : A -> nat -> bool) (l : list A) : list A :=
  match l with
  | [] => []
  | x :: l' =>
      if p x i then x :: filter_from (S i) p l' else filter_from (S i) p l'
  end.

Definition filter_i (p : A -> nat -> bool) (l : list A) : list A :=
  filter_from 0 p l.
End ArrayOps.

(** ** Task management *)

(** [t.id === s] *)
Definition has_id (s : string) (t : Task) : bool := String.eqb (id t) s.

(** The object spread [{ ...t, ...taskData }]: every field of [taskData]
    overrides the field of [t]; [id] and [createdAt] are not fields of
    [taskData] and stay. *)
Definition spread (t : Task) (taskData : TaskData.t) : Task :=
  {| id := id t;
     name := TaskData.name taskData;
     description := TaskData.description taskData;
     checkInTime := TaskData.checkInTime taskData;
     device := TaskData.device taskData;
     appOrUrl := TaskData.appOrUrl taskData;
     status := TaskData.status taskData;
     createdAt := createdAt t |}.

(** [handleSaveTask].  [editingTask] is the task the form was opened on
    ([null] when adding); [uuid] and [now] are the results of
    [crypto.randomUUID()] and [Date.now()]. *)
Definition handleSaveTask (editingTask : option Task) (uuid : string) (now : Z)
    (taskData : TaskData.t) (prev : list Task) : list Task :=
  match editingTask with
  | Some editing =>
      map (fun t => if has_id (id editing) t then spread t taskData else t) prev
  | None =>
      let newTask :=
        {| id := uuid;
           name := TaskData.name taskData;
           description := TaskData.description taskData;
           checkInTime := TaskData.checkInTime taskData;
           device := TaskData.device taskData;
           appOrUrl := TaskData.appOrUrl taskData;
           status := TaskData.status taskData;
           createdAt := now |} in
      prev ++ [newTask]
  end.

(** [updateTaskStatus] *)
Definition updateTaskStatus (i : string) (s : TaskStatus) (prev : list Task)
  : list Task :=
  map (fun t =>
         if has_id i t then
           {| id := id t; name := name t; description := description t;
              checkInTime := checkInTime t; device := device t;
              appOrUrl := appOrUrl t; status := s; createdAt := createdAt t |}
         else t) prev.

(** ** Drag and drop *)

(** [handleDragEnter]: the new value of [dragOverTaskId]. *)
Definition handleDragEnter (draggedTaskId dragOverTaskId : option string)
    (i : string) : option string :=
  match draggedTaskId with
  | Some dragged =>
      if truthy_string dragged && negb (String.eqb dragged i)
      then Some i else dragOverTaskId
  | None => dragOverTaskId
  end.

(** [handleDrop]: the task list after the drop.  [setTasks] is called only
    when both indices are found; in every other case the list is the one
    before.  (Afterwards the handler resets [draggedTaskId] and
    [dragOverTaskId] to [null].) *)
Definition handleDrop (draggedTaskId : option string) (targetId : string)
    (tasks : list Task) : list Task :=
  match draggedTaskId with
  | Some dragged =>
      if truthy_string dragged && negb (String.eqb dragged targetId) then
        let copy := tasks in
        match findIndex (has_id dragged) copy,
              findIndex (has_id targetId) copy with
        | Some fromIndex, Some toIndex =>
            let '(removed, copy1) := splice fromIndex 1 [] copy in
            match removed with
            | movedItem :: _ => snd (splice toIndex 0 [movedItem] copy1)
            | [] => tasks (* not reached: [fromIndex] is an index of [copy] *)
            end
        | _, _ => tasks
        end
      else tasks
  | None => tasks
  end.

(** The reorder as the specification words it: the source is taken out and
    put back at the index the target has in the list without the source. *)
Definition reorder_spec (fromId toId : string) (tasks : list Task)
  : list Task :=
  match findIndex (has_id fromId) tasks with
  | Some i =>
      match tasks !! i with
      | Some src =>
          let rest := delete i tasks in
          match findIndex (has_id toId) rest with
          | Some k => take k rest ++ src :: drop k rest
          | None => tasks
          end
      | None => tasks
      end
  | None => tasks
  end.

(** ** Strings

    A JavaScript string is kept as the string of its UTF-8 bytes. *)

(** The code points [String.prototype.trim] strips (ECMAScript WhiteSpace
    and LineTerminator), by their UTF-8 encodings: TAB, LF, VT, FF, CR and
    SPACE; U+00A0; U+1680, U+2000..U+200A, U+2028, U+2029, U+202F, U+205F,
    U+3000 and U+FEFF. *)
Definition space1 (c : ascii) : bool :=
  match N_of_ascii c with
  | 9 | 10 | 11 | 12 | 13 | 32 => true
  | _ => false
  end%N.

Definition space2 (c1 c2 : ascii) : bool :=
  match N_of_ascii c1, N_of_ascii c2 with
  | 194, 160 => true
  | _, _ => false
  end%N.

Definition space3 (c1 c2 c3 : ascii) : bool :=
  match N_of_ascii c1, N_of_ascii c2, N_of_ascii c3 with
  | 225, 154, 128 => true
  | 226, 128, n => (128 <=? n) && (n <=? 138) || (n =? 168) || (n =? 169)
                   || (n =? 175)
  | 226, 129, 159 => true
  | 227, 128, 128 => true
  | 239, 187, 191 => true
  | _, _, _ => false
  end%N.

(** [String.prototype.trimStart] *)
Fixpoint trimStart (s : string) : string :=
  match s with
  | EmptyString => EmptyString
  | String c1 r1 =>
      if space1 c1 then trimStart r1 else
      match r1 with
      | String c2 r2 =>
          if space2 c1 c2 then trimStart r2 else
          match r2 with
          | String c3 r3 => if space3 c1 c2 c3 then trimStart r3 else s
          | EmptyString => s
          end
      | EmptyString => s
      end
  end.

(** [String.prototype.trimEnd]: a suffix made of white space only is cut. *)
Fixpoint trimEnd (s : string) : string :=
  match s with
  | EmptyString => EmptyString
  | String c r =>
      match trimStart s with
      | EmptyString => EmptyString
      | String _ _ => String c (trimEnd r)
      end
  end.

(** [String.prototype.trim] *)
Definition trim (s : string) : string := trimEnd (trimStart s).

(** The double quote character. *)
Definition dquote : ascii := "034"%char.

(** ** Modal dialogs ([showAlert], [showConfirm], [ConfirmModal])

    A dialog over a state of type [S].  The action of a confirmation is
    the callback [onYes]; an alert only closes. *)
Inductive Modal (S : Type) :=
| Alert (title message : string)
| Confirm (title message : string) (onYes : S -> S).
Arguments Alert {S} title message.
Arguments Confirm {S} title message onYes.

(** The two buttons of [ConfirmModal]; an alert shows [OkButton] only. *)
Inductive Button := OkButton | CancelButton.

(** The state after a button of the dialog is pressed. *)
Definition press {S : Type} (b : Button) (m : Modal S) (st : S) : S :=
  match m, b with
  | Confirm _ _ onYes, OkButton => onYes st
  | _, _ => st
  end.

(** ** Device management *)

Definition DEFAULT_DEVICES : list string := ["手机"; "电脑"; "平板"; "其他"].

(** [Array.prototype.includes] on strings *)
Definition includes (x : string) (l : list string) : bool :=
  existsb (String.eqb x) l.

(** [handleAddDevice]: the device list afterwards. *)
Definition handleAddDevice (newDevice : string) (devices : list string)
  : list string :=
  if truthy_string (trim newDevice) && negb (includes (trim newDevice) devices)
  then devices ++ [trim newDevice]
  else devices.

(** [handleDeleteDevice]: the confirmation it opens.  The callback closes
    over the device list of the render the click came from. *)
Definition handleDeleteDevice (index : nat) (devices : list string)
  : Modal (list string) :=
  Confirm "删除设备"
    ("确定要删除 " ++ String dquote (default "undefined" (devices !! index))
       ++ String dquote " 吗？")
    (fun _ => filter_i (fun _ i => negb (Nat.eqb i index)) devices).

(** What [saveEditingDevice] leaves behind: the device list, the row still
    being edited if any, and the alert it raised if any. *)
Record DeviceEdit := mkDeviceEdit {
  edit_devices : list string;
  edit_editingDeviceIndex : option nat;
  edit_alert : option (Modal (list string))
}.

(** The alert of a refused rename. *)
Definition rename_alert : Modal (list string) :=
  Alert "无法保存" "设备名称不能为空或已存在".

(** [saveEditingDevice].  The handler belongs to a rendered row, so
    [index] is an index of [devices]; a write beyond the end would leave
    holes in the array, which a [string[]] cannot hold, and has no result
    here. *)
Definition saveEditingDevice (index : nat) (editingDeviceValue : string)
    (devices : list string) : option DeviceEdit :=
  let value := trim editingDeviceValue in
  if truthy_string value
     && negb (some_i (fun d i => negb (Nat.eqb i index) && String.eqb d value)
                devices)
  then
    if Nat.ltb index (length devices)
    then Some (mkDeviceEdit (<[index := value]> devices) None None)
    else None
  else
    match devices !! index with
    | Some current =>
        if String.eqb value current
        then Some (mkDeviceEdit devices None None)
        else Some (mkDeviceEdit devices (Some index) (Some rename_alert))
    | None => Some (mkDeviceEdit devices (Some index) (Some rename_alert))
    end.

(** The operations of the device registry, as the user performs them:
    adding a label, renaming a row, and removing a row with the
    confirmation accepted. *)
Inductive RegistryOp :=
| Add (label : string)
| Rename (index : nat) (label : string)
| Remove (index : nat).

Definition apply_op (op : RegistryOp) (devices : list string)
  : option (list string) :=
  match op with
  | Add label => Some (handleAddDevice label devices)
  | Rename index label =>
      option_map edit_devices (saveEditingDevice index label devices)
  | Remove index =>
      Some (press OkButton (handleDeleteDevice index devices) devices)
  end.

Fixpoint run_ops (ops : list RegistryOp) (devices : list string)
  : option (list string) :=
  match ops with
  | [] => Some devices
  | op :: ops' =>
      match apply_op op devices with
      | Some devices' => run_ops ops' devices'
      | None => None
      end
  end.

(** ** Numbers

    A JavaScript number is an IEEE 754 double.  A finite double other than
    the two zeros is kept as its sign, an odd mantissa [m] and an exponent
    [e]: it is [m * 2^e]. *)
Inductive number :=
| Zero (negative : bool)
| Finite (negative : bool) (m : positive) (e : Z)
| Infinity (negative : bool)
| NaN.

(** The values of the type that are doubles: the mantissa is odd and has
    53 bits at most, the exponent is that of a subnormal at least, and
    the value is below [2^1024]. *)
Definition is_double (x : number) : bool :=
  match x with
  | Finite _ m e =>
      Z.odd (Zpos m) && (Z.log2 (Zpos m) <? 53)%Z && (-1074 <=? e)%Z
      && (Z.log2 (Zpos m) + e <? 1024)%Z
  | _ => true
  end.

(** A number that JSON keeps: a finite double other than the negative
    zero. *)
Definition kept (x : number) : bool :=
  match x with
  | Zero negative => negb negative
  | Finite _ _ _ => is_double x
  | _ => false
  end.

(** [Number.isFinite] *)
Definition is_finite (x : number) : bool :=
  match x with
  | Zero _ | Finite _ _ _ => true
  | _ => false
  end.

Definition number_eqb (x y : number) : bool :=
  match x, y with
  | Zero s, Zero s' => Bool.eqb s s'
  | Finite s m e, Finite s' m' e' =>
      Bool.eqb s s' && Pos.eqb m m' && Z.eqb e e'
  | Infinity s, Infinity s' => Bool.eqb s s'
  | NaN, NaN => true
  | _, _ => false
  end.

Definition signed (negative : bool) (x : number) : number :=
  match x with
  | Zero _ => Zero negative
  | Finite _ m e => Finite negative m e
  | Infinity _ => Infinity negative
  | _ => x
  end.

(** *** The double nearest to a fraction

    The conversion of a decimal numeral to a number rounds to the nearest
    double, a tie going to the even mantissa. *)

(** The fraction [a / b] divided by [base ^ q], as a numerator and a
    denominator. *)
Definition scale (base a b q : Z) : Z * Z :=
  (if 0 <=? q then (a, b * base ^ q) else (a * base ^ (- q), b))%Z.

(** The exponent [l] with [2^l <= a / b < 2^(l + 1)]. *)
Definition floor_log2 (a b : Z) : Z :=
  (let l := Z.log2 a - Z.log2 b in
   let (n, d) := scale 2 a b l in
   if d <=? n then l else l - 1)%Z.

(** The integer nearest to [n / d], the even one of two. *)
Definition round_even (n d : Z) : Z :=
  (let k := n / d in
   match 2 * (n mod d) ?= d with
   | Lt => k
   | Gt => k + 1
   | Eq => if Z.even k then k else k + 1
   end)%Z.

(** [m * 2^e] with the mantissa made odd. *)
Fixpoint canon (m : positive) (e : Z) : number :=
  match m with
  | xO m' => canon m' (e + 1)
  | _ => Finite false m e
  end.

(** The double [k * 2^q], infinite from [2^1024] on. *)
Definition of_scaled (k q : Z) : number :=
  match k with
  | Zpos m =>
      if (1024 <=? Z.log2 k + q)%Z then Infinity false else canon m q
  | _ => Zero false
  end.

(** The double nearest to [a / b], for positive [a] and [b]: the fraction
    is rounded to a multiple of [2^q], where [q] leaves 53 bits and is
    the exponent of the subnormals at least. *)
Definition round_ratio (a b : Z) : number :=
  let q := Z.max (floor_log2 a b - 52) (-1074) in
  let (n, d) := scale 2 a b q in
  of_scaled (round_even n d) q.

(** The number a decimal numeral denotes: the double nearest to
    [s * 10^p], with its sign. *)
Definition number_of_decimal (negative : bool) (s : N) (p : Z) : number :=
  match s with
  | N0 => Zero negative
  | Npos _ =>
      let (a, b) := scale 10 (Z.of_N s) 1 (- p) in
      signed negative (round_ratio a b)
  end.

(** An integer as a number. *)
Definition number_of_Z (n : Z) : number :=
  match n with
  | Z0 => Zero false
  | Zpos p => round_ratio (Zpos p) 1
  | Zneg p => signed true (round_ratio (Zpos p) 1)
  end.

(** *** [Number::toString]

    The digits printed for a finite number are the shortest decimal
    [s * 10^p] whose nearest double is the number; of two such decimals of
    one length the nearer is taken. *)

(** The number of decimal digits of a positive integer. *)
Definition digits10 (x : Z) : Z :=
  Z.of_nat (Decimal.nb_digits (N.to_uint (Z.to_N x))).

(** The exponent [l] with [10^l <= a / b < 10^(l + 1)]. *)
Definition floor_log10 (a b : Z) : Z :=
  (let l := digits10 a - digits10 b in
   let (n, d) := scale 10 a b l in
   if d <=? n then l else l - 1)%Z.

(** The decimal of [k] digits for [x], the value [a / b] of which lies
    from [10^L] to [10^(L + 1)]: the decimal below or the decimal above,
    if its nearest double is [x]. *)
Definition candidate (x : number) (a b L k : Z) : option (N * Z) :=
  let p := (L + 1 - k)%Z in
  let (n, d) := scale 10 a b p in
  let lo := Z.to_N (n / d) in
  let hi := (lo + 1)%N in
  let ok s := number_eqb (number_of_decimal false s p) x in
  match ok lo, ok hi with
  | true, true =>
      Some (match (2 * (n mod d) ?= d)%Z with
            | Lt => lo
            | Gt => hi
            | Eq => if N.even lo then lo else hi
            end, p)
  | true, false => Some (lo, p)
  | false, true => Some (hi, p)
  | false, false => None
  end.

(** The first length, from [k] on, that has such a decimal. *)
Fixpoint search (fuel : nat) (x : number) (a b L k : Z) : option (N * Z) :=
  match fuel with
  | O => None
  | S fuel' =>
      match candidate x a b L k with
      | Some c => Some c
      | None => search fuel' x a b L (k + 1)
      end
  end.

(** [s * 10^p] without the zeros that end [s]. *)
Fixpoint strip_zeros (fuel : nat) (s : N) (p : Z) : N * Z :=
  match fuel with
  | O => (s, p)
  | S fuel' =>
      if ((s mod 10 =? 0) && negb (s =? 0))%N
      then strip_zeros fuel' (s / 10)%N (p + 1)
      else (s, p)
  end.

(** [m * 2^e] written out in full. *)
Definition exact_decimal (m : positive) (e : Z) : N * Z :=
  if (0 <=? e)%Z then (Z.to_N (Zpos m * 2 ^ e), 0%Z)
  else (Z.to_N (Zpos m * 5 ^ (- e)), e).

(** The digits of [m * 2^e].  Seventeen digits are enough for a double,
    so that the search ends before its fuel does; the expansion in full
    stands for the end that is not reached. *)
Definition shortest (m : positive) (e : Z) : N * Z :=
  let x := Finite false m e in
  let (a, b) := scale 2 (Zpos m) 1 (- e) in
  match search 17 x a b (floor_log10 a b) 1 with
  | Some (s, p) =>
      let (s', p') := strip_zeros (N.size_nat s) s p in
      if number_eqb (number_of_decimal false s' p') x then (s', p')
      else exact_decimal m e
  | None => exact_decimal m e
  end.

Fixpoint uint_chars (u : Decimal.uint) : list ascii :=
  match u with
  | Decimal.Nil => []
  | Decimal.D0 u => "0"%char :: uint_chars u
  | Decimal.D1 u => "1"%char :: uint_chars u
  | Decimal.D2 u => "2"%char :: uint_chars u
  | Decimal.D3 u => "3"%char :: uint_chars u
  | Decimal.D4 u => "4"%char :: uint_chars u
  | Decimal.D5 u => "5"%char :: uint_chars u
  | Decimal.D6 u => "6"%char :: uint_chars u
  | Decimal.D7 u => "7"%char :: uint_chars u
  | Decimal.D8 u => "8"%char :: uint_chars u
  | Decimal.D9 u => "9"%char :: uint_chars u
  end.

(** The fraction and the exponent of a number literal. *)
Definition fraction_text (frac : Decimal.uint) : list ascii :=
  match frac with
  | Decimal.Nil => []
  | _ => "."%char :: uint_chars frac
  end.

Definition exponent_text (exponent : option Z) : list ascii :=
  match exponent with
  | None => []
  | Some x =>
      "e"%char :: (if (0 <=? x)%Z then "+"%char else "-"%char)
      :: uint_chars (N.to_uint (Z.to_N (Z.abs x)))
  end.

(** A number literal: sign, integer digits, fraction digits, exponent. *)
Definition literal (negative : bool) (int_part frac : Decimal.uint)
    (exponent : option Z) : list ascii :=
  (if negative then ["-"%char] else [])
  ++ uint_chars int_part ++ fraction_text frac ++ exponent_text exponent.

(** The text of [s * 10^p], where [s] has [k] digits and [n = p + k]:
    the digits and zeros up to [10^21], the digits around a point when
    the point falls inside them, [0.] and up to five zeros before the
    digits, and the exponent form otherwise. *)
Definition number_text (negative : bool) (s : N) (p : Z) : list ascii :=
  let ds := N.to_uint s in
  let k := Decimal.nb_digits ds in
  let n := (p + Z.of_nat k)%Z in
  if (Z.of_nat k <=? n)%Z && (n <=? 21)%Z then
    literal negative
      (Decimal.app ds (Nat.iter (Z.to_nat p) Decimal.D0 Decimal.Nil))
      Decimal.Nil None
  else if (0 <? n)%Z && (n <=? 21)%Z then
    literal negative (Decimal.del_tail (Z.to_nat (- p)) ds)
      (Decimal.del_head (Z.to_nat n) ds) None
  else if (-6 <? n)%Z && (n <=? 0)%Z then
    literal negative (Decimal.D0 Decimal.Nil)
      (Nat.iter (Z.to_nat (- n)) Decimal.D0 ds) None
  else
    literal negative (Decimal.del_tail (k - 1) ds) (Decimal.del_head 1 ds)
      (Some (n - 1)%Z).

(** A number in a JSON text: [JSON.stringify] writes [0] for either zero
    and [null] for a number that is not finite. *)
Definition print_number (x : number) : list ascii :=
  match x with
  | Zero _ => ["0"%char]
  | Finite negative m e =>
      let (s, p) := shortest m e in number_text negative s p
  | _ => list_ascii_of_string "null"
  end.

(** *** Reading a number literal *)

Definition digit (c : ascii) : option (Decimal.uint -> Decimal.uint) :=
  match N_of_ascii c with
  | 48 => Some Decimal.D0
  | 49 => Some Decimal.D1
  | 50 => Some Decimal.D2
  | 51 => Some Decimal.D3
  | 52 => Some Decimal.D4
  | 53 => Some Decimal.D5
  | 54 => Some Decimal.D6
  | 55 => Some Decimal.D7
  | 56 => Some Decimal.D8
  | 57 => Some Decimal.D9
  | _ => None
  end%N.

(** The longest run of digits at the front of a text. *)
Fixpoint read_digits (s : list ascii) : Decimal.uint * list ascii :=
  match s with
  | [] => (Decimal.Nil, [])
  | c :: r =>
      match digit c with
      | Some d => let (u, r') := read_digits r in (d u, r')
      | None => (Decimal.Nil, s)
      end
  end.

(** The integer part of a JSON number: one digit at least, and no leading
    zero unless it is the only digit. *)
Definition json_int (u : Decimal.uint) : bool :=
  match u with
  | Decimal.Nil => false
  | Decimal.D0 Decimal.Nil => true
  | Decimal.D0 _ => false
  | _ => true
  end.

Definition read_sign (s : list ascii) : bool * list ascii :=
  match s with
  | c :: r => if Ascii.eqb c "-"%char then (true, r) else (false, s)
  | [] => (false, [])
  end.

(** The fraction, if the text goes on with one: a point and one digit at
    least. *)
Definition read_fraction (s : list ascii)
  : option (Decimal.uint * list ascii) :=
  match s with
  | c :: r =>
      if Ascii.eqb c "."%char then
        match read_digits r with
        | (Decimal.Nil, _) => None
        | (u, r') => Some (u, r')
        end
      else Some (Decimal.Nil, s)
  | [] => Some (Decimal.Nil, [])
  end.

(** The exponent, if the text goes on with one: [e] or [E], a sign or
    none, and one digit at least. *)
Definition read_exponent (s : list ascii) : option (Z * list ascii) :=
  match s with
  | c :: r =>
      if Ascii.eqb c "e"%char || Ascii.eqb c "E"%char then
        let (negative, r1) :=
          match r with
          | c' :: r' =>
              if Ascii.eqb c' "+"%char then (false, r')
              else if Ascii.eqb c' "-"%char then (true, r')
              else (false, r)
          | [] => (false, [])
          end in
        match read_digits r1 with
        | (Decimal.Nil, _) => None
        | (u, r2) =>
            Some (if negative : bool then (- Z.of_N (N.of_uint u))%Z
                  else Z.of_N (N.of_uint u), r2)
        end
      else Some (0%Z, s)
  | [] => Some (0%Z, [])
  end.

(** A number literal at the front of a text, and the text after it. *)
Definition read_number (s : list ascii) : option (number * list ascii) :=
  let (negative, s1) := read_sign s in
  let (int_part, s2) := read_digits s1 in
  if json_int int_part then
    match read_fraction s2 with
    | Some (frac, s3) =>
        match read_exponent s3 with
        | Some (x, s4) =>
            Some (number_of_decimal negative
                    (N.of_uint (Decimal.app int_part frac))
                    (x - Z.of_nat (Decimal.nb_digits frac))%Z, s4)
        | None => None
        end
    | None => None
    end
  else None.

(** A character a number literal can go on with. *)
Definition number_char (c : ascii) : bool :=
  match digit c with
  | Some _ => true
  | None =>
      Ascii.eqb c "."%char || Ascii.eqb c "e"%char || Ascii.eqb c "E"%char
  end.

(** A text that does not start with a digit. *)
Definition no_digit (rest : list ascii) : Prop :=
  match rest with
  | [] => True
  | c :: _ => digit c = None
  end.

(** A text after which a number literal ends: nothing, or a character
    that cannot go on the literal. *)
Definition delimited (rest : list ascii) : Prop :=
  match rest with
  | [] => True
  | c :: _ => number_char c = false
  end.

(** ** JSON values

    What [JSON.parse] returns and [JSON.stringify] takes.  An object is
    kept as the list of its members in the order in which the object
    lists its properties. *)
Unset Elimination Schemes.
Inductive json :=
| JNull
| JBool (b : bool)
| JNum (x : number)
| JStr (s : string)
| JArr (elements : list json)
| JObj (members : list (string * json)).
Set Elimination Schemes.

(** *** [JSON.stringify(value, null, 2)] *)

(** A hexadecimal digit, in lower case. *)
Definition hex_digit (n : N) : ascii :=
  ascii_of_N (if n <? 10 then 48 + n else 87 + n)%N.

(** QuoteJSONString, one character: the quote, the backslash and the
    control characters are escaped. *)
Definition quote_char (c : ascii) : list ascii :=
  let n := N_of_ascii c in
  if (n =? 34)%N then ["\"; dquote]%char
  else if (n =? 92)%N then ["\"; "\"]%char
  else if (n =? 8)%N then ["\"; "b"]%char
  else if (n =? 9)%N then ["\"; "t"]%char
  else if (n =? 10)%N then ["\"; "n"]%char
  else if (n =? 12)%N then ["\"; "f"]%char
  else if (n =? 13)%N then ["\"; "r"]%char
  else if (n <? 32)%N then
    ["\"; "u"; "0"; "0"; hex_digit (n / 16); hex_digit (n mod 16)]%char
  else [c].

(** The surrogate that three bytes stand for.  A string is kept as its
    UTF-8 bytes, in which a surrogate that is not part of a pair is three
    bytes, like any code point of its range. *)
Definition surrogate_of (c1 c2 c3 : ascii) : option N :=
  let a := N_of_ascii c2 in
  let b := N_of_ascii c3 in
  if ((N_of_ascii c1 =? 237) && (160 <=? a) && (a <=? 191)
      && (128 <=? b) && (b <=? 191))%N
  then Some (55296 + (a - 160) * 64 + (b - 128))%N
  else None.

(** UnicodeEscape: [\u] and four hexadecimal digits. *)
Definition unicode_escape (cp : N) : list ascii :=
  ["\"%char; "u"%char; hex_digit (cp / 4096); hex_digit ((cp / 256) mod 16);
   hex_digit ((cp / 16) mod 16); hex_digit (cp mod 16)]%N.

(** QuoteJSONString, the characters: a surrogate that is not part of a
    pair is written as an escape, any other character as [quote_char]
    has it.  (A leading surrogate right before a trailing one would be a
    pair, which UTF-8 writes as one code point of four bytes; the six
    bytes, which no string has, are left as they are.) *)
Fixpoint quote_chars (cs : list ascii) : list ascii :=
  match cs with
  | [] => []
  | c1 :: r1 =>
      match r1 with
      | c2 :: c3 :: r3 =>
          match surrogate_of c1 c2 c3 with
          | Some hi =>
              match r3 with
              | c4 :: c5 :: c6 :: r6 =>
                  match surrogate_of c4 c5 c6 with
                  | Some lo =>
                      if ((hi <? 56320) && (56320 <=? lo))%N
                      then c1 :: c2 :: c3 :: c4 :: c5 :: c6 :: quote_chars r6
                      else unicode_escape hi ++ quote_chars r3
                  | None => unicode_escape hi ++ quote_chars r3
                  end
              | _ => unicode_escape hi ++ quote_chars r3
              end
          | None => quote_char c1 ++ quote_chars r1
          end
      | _ => quote_char c1 ++ quote_chars r1
      end
  end.

Definition quote_string (s : string) : list ascii :=
  dquote :: quote_chars (list_ascii_of_string s) ++ [dquote].

(** A line feed and the indentation of a nesting depth, two spaces a
    level. *)
Definition newline_indent (depth : nat) : list ascii :=
  "010"%char :: repeat " "%char (2 * depth).

Fixpoint print_value (depth : nat) (v : json) : list ascii :=
  match v with
  | JNull => list_ascii_of_string "null"
  | JBool true => list_ascii_of_string "true"
  | JBool false => list_ascii_of_string "false"
  | JNum x => print_number x
  | JStr s => quote_string s
  | JArr [] => list_ascii_of_string "[]"
  | JArr (v1 :: vs) =>
      "["%char :: newline_indent (S depth) ++ print_value (S depth) v1
        ++ flat_map (fun v => ","%char :: newline_indent (S depth)
                                ++ print_value (S depth) v) vs
        ++ newline_indent depth ++ ["]"%char]
  | JObj [] => list_ascii_of_string "{}"
  | JObj (m1 :: ms) =>
      "{"%char :: newline_indent (S depth)
        ++ quote_string (fst m1) ++ ":"%char :: " "%char
        :: print_value (S depth) (snd m1)
        ++ flat_map (fun m => ","%char :: newline_indent (S depth)
                                ++ quote_string (fst m) ++ ":"%char :: " "%char
                                :: print_value (S depth) (snd m)) ms
        ++ newline_indent depth ++ ["}"%char]
  end.

Definition JSON_stringify (v : json) : string :=
  string_of_list_ascii (print_value 0 v).

(** *** [JSON.parse] *)

(** JSON white space: TAB, LF, CR and SPACE. *)
Definition json_space (c : ascii) : bool :=
  match N_of_ascii c with
  | 9 | 10 | 13 | 32 => true
  | _ => false
  end%N.

Fixpoint skip_ws (s : list ascii) : list ascii :=
  match s with
  | c :: r => if json_space c then skip_ws r else s
  | [] => []
  end.

Definition hex_value (c : ascii) : option N :=
  let n := N_of_ascii c in
  if (48 <=? n)%N && (n <=? 57)%N then Some (n - 48)%N
  else if (97 <=? n)%N && (n <=? 102)%N then Some (n - 87)%N
  else if (65 <=? n)%N && (n <=? 70)%N then Some (n - 55)%N
  else None.

Definition hex4 (c1 c2 c3 c4 : ascii) : option N :=
  match hex_value c1, hex_value c2, hex_value c3, hex_value c4 with
  | Some a, Some b, Some c, Some d => Some (((a * 16 + b) * 16 + c) * 16 + d)%N
  | _, _, _, _ => None
  end.

(** The UTF-8 bytes of a code point (a lone surrogate is encoded like any
    other three-byte code point). *)
Definition utf8_encode (cp : N) : list ascii :=
  (if cp <? 128 then [ascii_of_N cp]
   else if cp <? 2048 then
     [ascii_of_N (192 + cp / 64); ascii_of_N (128 + cp mod 64)]
   else if cp <? 65536 then
     [ascii_of_N (224 + cp / 4096); ascii_of_N (128 + (cp / 64) mod 64);
      ascii_of_N (128 + cp mod 64)]
   else
     [ascii_of_N (240 + cp / 262144); ascii_of_N (128 + (cp / 4096) mod 64);
      ascii_of_N (128 + (cp / 64) mod 64); ascii_of_N (128 + cp mod 64)])%N.

(** The code point of a [\uXXXX\uXXXX] surrogate pair whose first escape
    gave [hi], if the six characters that follow are its second half. *)
Definition surrogate_pair (hi : N) (b u l1 l2 l3 l4 : ascii) : option N :=
  if (55296 <=? hi)%N && (hi <=? 56319)%N
     && Ascii.eqb b "\"%char && Ascii.eqb u "u"%char
  then
    match hex4 l1 l2 l3 l4 with
    | Some lo =>
        if (56320 <=? lo)%N && (lo <=? 57343)%N
        then Some (65536 + (hi - 55296) * 1024 + (lo - 56320))%N
        else None
    | None => None
    end
  else None.

(** The character a one-letter escape stands for. *)
Definition escape_char (e : ascii) : option ascii :=
  if Ascii.eqb e dquote then Some dquote
  else if Ascii.eqb e "\"%char then Some "\"%char
  else if Ascii.eqb e "/"%char then Some "/"%char
  else if Ascii.eqb e "b"%char then Some "008"%char
  else if Ascii.eqb e "f"%char then Some "012"%char
  else if Ascii.eqb e "n"%char then Some "010"%char
  else if Ascii.eqb e "r"%char then Some "013"%char
  else if Ascii.eqb e "t"%char then Some "009"%char
  else None.

Definition prepend {A B : Type} (l : list A) (r : option (list A * B))
  : option (list A * B) :=
  match r with
  | Some (l', b) => Some (l ++ l', b)
  | None => None
  end.

(** The characters of a string literal after its opening quote, and the
    text after its closing quote. *)
Fixpoint parse_chars (s : list ascii) : option (list ascii * list ascii) :=
  match s with
  | [] => None
  | c :: r =>
      if Ascii.eqb c dquote then Some ([], r)
      else if Ascii.eqb c "\"%char then
        match r with
        | [] => None
        | e :: r1 =>
            match escape_char e with
            | Some ch => prepend [ch] (parse_chars r1)
            | None =>
                if Ascii.eqb e "u"%char then
                  match r1 with
                  | h1 :: h2 :: h3 :: h4 :: r2 =>
                      match hex4 h1 h2 h3 h4 with
                      | Some hi =>
                          match r2 with
                          | b :: u :: l1 :: l2 :: l3 :: l4 :: r3 =>
                              match surrogate_pair hi b u l1 l2 l3 l4 with
                              | Some cp =>
                                  prepend (utf8_encode cp) (parse_chars r3)
                              | None =>
                                  prepend (utf8_encode hi) (parse_chars r2)
                              end
                          | _ => prepend (utf8_encode hi) (parse_chars r2)
                          end
                      | None => None
                      end
                  | _ => None
                  end
                else None
            end
        end
      else if (N_of_ascii c <? 32)%N then None
      else prepend [c] (parse_chars r)
  end.

Definition parse_number (s : list ascii) : option (json * list ascii) :=
  match read_number s with
  | Some (x, r) => Some (JNum x, r)
  | None => None
  end.

(** A keyword, character by character. *)
Fixpoint expect (word s : list ascii) : option (list ascii) :=
  match word, s with
  | [], _ => Some s
  | w :: word', c :: r => if Ascii.eqb w c then expect word' r else None
  | _ :: _, [] => None
  end.

(** *** Objects

    [JSON.parse] builds an object by defining its members one after the
    other, and an object lists its properties with the array indices
    first, in ascending order, and the other names after them, in the
    order of their creation. *)

(** An array index: the decimal numeral, without a leading zero, of an
    integer below [2^32 - 1]. *)
Definition array_index (k : string) : option N :=
  let (u, r) := read_digits (list_ascii_of_string k) in
  match r with
  | [] =>
      if json_int u && (N.of_uint u <? 4294967295)%N
      then Some (N.of_uint u) else None
  | _ :: _ => None
  end.

Definition is_named (k : string) : bool :=
  match array_index k with
  | Some _ => false
  | None => true
  end.

(** CreateDataProperty: a member of the same name takes the new value
    where it is, a new name comes last. *)
Fixpoint define_member (k : string) (v : json) (ms : list (string * json))
  : list (string * json) :=
  match ms with
  | [] => [(k, v)]
  | m :: ms' =>
      if String.eqb (fst m) k then (k, v) :: ms'
      else m :: define_member k v ms'
  end.

Definition created (ms : list (string * json)) : list (string * json) :=
  fold_left (fun acc m => define_member (fst m) (snd m) acc) ms [].

Fixpoint insert_index (n : N) (m : string * json)
    (l : list (N * (string * json))) : list (N * (string * json)) :=
  match l with
  | [] => [(n, m)]
  | x :: l' =>
      if (n <? fst x)%N then (n, m) :: l else x :: insert_index n m l'
  end.

(** The members whose name is an array index, in ascending order. *)
Fixpoint indexed (ms : list (string * json)) : list (N * (string * json)) :=
  match ms with
  | [] => []
  | m :: ms' =>
      match array_index (fst m) with
      | Some n => insert_index n m (indexed ms')
      | None => indexed ms'
      end
  end.

(** OrdinaryOwnPropertyKeys *)
Definition own_properties (ms : list (string * json))
  : list (string * json) :=
  map snd (indexed ms) ++ List.filter (fun m => is_named (fst m)) ms.

(** The object that the members of a JSON text make. *)
Definition object_of (ms : list (string * json)) : list (string * json) :=
  own_properties (created ms).

(** The names of an object as an object lists them: each once, the array
    indices first and ascending. *)
Fixpoint distinct (ks : list string) : bool :=
  match ks with
  | [] => true
  | k :: ks' => negb (existsb (String.eqb k) ks') && distinct ks'
  end.

Fixpoint ascending (lo : option N) (ks : list string) : bool :=
  match ks with
  | [] => true
  | k :: ks' =>
      match array_index k with
      | Some n =>
          match lo with
          | Some l => (l <? n)%N
          | None => true
          end && ascending (Some n) ks'
      | None => forallb is_named ks'
      end
  end.

Definition property_order (ms : list (string * json)) : bool :=
  distinct (map fst ms) && ascending None (map fst ms).

(** The recursive-descent reader.  [fuel] bounds the number of nested
    calls; [JSON_parse] gives it more than a text can use. *)
Fixpoint parse_value (fuel : nat) (s : list ascii)
  : option (json * list ascii) :=
  match fuel with
  | O => None
  | S fuel' =>
      match skip_ws s with
      | [] => None
      | c :: r =>
          if Ascii.eqb c "["%char then
            match skip_ws r with
            | c' :: r' =>
                if Ascii.eqb c' "]"%char then Some (JArr [], r')
                else
                  match parse_elements fuel' r with
                  | Some (vs, r'') => Some (JArr vs, r'')
                  | None => None
                  end
            | [] => None
            end
          else if Ascii.eqb c "{"%char then
            match skip_ws r with
            | c' :: r' =>
                if Ascii.eqb c' "}"%char then Some (JObj [], r')
                else
                  match parse_members fuel' r with
                  | Some (ms, r'') => Some (JObj (object_of ms), r'')
                  | None => None
                  end
            | [] => None
            end
          else if Ascii.eqb c dquote then
            match parse_chars r with
            | Some (cs, r') => Some (JStr (string_of_list_ascii cs), r')
            | None => None
            end
          else if Ascii.eqb c "t"%char then
            option_map (pair (JBool true))
              (expect (list_ascii_of_string "rue") r)
          else if Ascii.eqb c "f"%char then
            option_map (pair (JBool false))
              (expect (list_ascii_of_string "alse") r)
          else if Ascii.eqb c "n"%char then
            option_map (pair JNull) (expect (list_ascii_of_string "ull") r)
          else parse_number (c :: r)
      end
  end
with parse_elements (fuel : nat) (s : list ascii)
  : option (list json * list ascii) :=
  match fuel with
  | O => None
  | S fuel' =>
      match parse_value fuel' s with
      | Some (v, r) =>
          match skip_ws r with
          | c :: r' =>
              if Ascii.eqb c ","%char then
                match parse_elements fuel' r' with
                | Some (vs, r'') => Some (v :: vs, r'')
                | None => None
                end
              else if Ascii.eqb c "]"%char then Some ([v], r')
              else None
          | [] => None
          end
      | None => None
      end
  end
with parse_members (fuel : nat) (s : list ascii)
  : option (list (string * json) * list ascii) :=
  match fuel with
  | O => None
  | S fuel' =>
      match skip_ws s with
      | q :: r =>
          if Ascii.eqb q dquote then
            match parse_chars r with
            | Some (k, r1) =>
                match skip_ws r1 with
                | colon :: r2 =>
                    if Ascii.eqb colon ":"%char then
                      match parse_value fuel' r2 with
                      | Some (v, r3) =>
                          match skip_ws r3 with
                          | c :: r4 =>
                              if Ascii.eqb c ","%char then
                                match parse_members fuel' r4 with
                                | Some (ms, r5) =>
                                    Some ((string_of_list_ascii k, v) :: ms, r5)
                                | None => None
                                end
                              else if Ascii.eqb c "}"%char then
                                Some ([(string_of_list_ascii k, v)], r4)
                              else None
                          | [] => None
                          end
                      | None => None
                      end
                    else None
                | [] => None
                end
            | None => None
            end
          else None
      | [] => None
      end
  end.

(** [JSON.parse]: [None] stands for the [SyntaxError] it throws. *)
Definition JSON_parse (text : string) : option json :=
  let s := list_ascii_of_string text in
  match parse_value (2 * length s + 2) s with
  | Some (v, r) =>
      match skip_ws r with
      | [] => Some v
      | _ :: _ => None
      end
  | None => None
  end.

(** The number of nested calls the reader makes on the text of a value:
    one for the value and one more for each element or member. *)
Fixpoint json_size (v : json) : nat :=
  match v with
  | JArr vs => S (list_sum (map (fun v => S (json_size v)) vs))
  | JObj ms => S (list_sum (map (fun m => S (json_size (snd m))) ms))
  | _ => 1
  end.

(** A text that does not go on with the escape of a trailing surrogate
    after the escape of the surrogate [hi]. *)
Definition no_trail (hi : N) (tail : list ascii) : Prop :=
  match tail with
  | b :: u :: l1 :: l2 :: l3 :: l4 :: _ =>
      surrogate_pair hi b u l1 l2 l3 l4 = None
  | _ => True
  end.

(** The value [JSON.parse] gives for the text [JSON.stringify] writes: a
    number that is not finite comes back as [null], the negative zero as
    zero, and any other number as the number its digits denote; the
    members of an object make the object anew. *)
Definition reparsed_number (x : number) : json :=
  match x with
  | Finite negative m e =>
      JNum (number_of_decimal negative (fst (shortest m e))
              (snd (shortest m e)))
  | Zero _ => JNum (Zero false)
  | _ => JNull
  end.

Fixpoint reparsed (v : json) : json :=
  match v with
  | JNum x => reparsed_number x
  | JArr vs => JArr (map reparsed vs)
  | JObj ms => JObj (object_of (map (fun m => (fst m, reparsed (snd m))) ms))
  | _ => v
  end.

(** Every number in a value is a double. *)
Fixpoint json_double (v : json) : bool :=
  match v with
  | JNum x => is_double x
  | JArr vs => forallb json_double vs
  | JObj ms => forallb (fun m => json_double (snd m)) ms
  | _ => true
  end.

(** A value that JSON keeps: every number in it is one that JSON keeps,
    and every object in it has its members in property order, as every
    object of the program has. *)
Fixpoint json_kept (v : json) : bool :=
  match v with
  | JNum x => kept x
  | JArr vs => forallb json_kept vs
  | JObj ms => property_order ms && forallb (fun m => json_kept (snd m)) ms
  | _ => true
  end.

(** A value is read back from its text, at any depth and before any
    delimited rest, by a reader with fuel for it. *)
Definition reads_back (v : json) : Prop :=
  forall (depth fuel : nat) (rest : list ascii),
    json_size v <= fuel -> delimited rest ->
    parse_value fuel (print_value depth v ++ rest) = Some (reparsed v, rest).

(** ** Reading parsed data

    The handler reads [data], of type [any].  A read can throw a
    [TypeError]; [completion] is the outcome of an evaluation inside the
    [try] block. *)
Inductive completion (A : Type) :=
| Normal (a : A)
| Throw.
Arguments Normal {A} a.
Arguments Throw {A}.

#[global] Instance completion_bind : MBind completion :=
  fun A B (k : A -> completion B) (c : completion A) =>
    match c with
    | Normal a => k a
    | Throw => Throw
    end.

(** The member an object has under a name: a later member of the same
    name overrides an earlier one. *)
Fixpoint member (k : string) (ms : list (string * json)) : option json :=
  match ms with
  | [] => None
  | m :: ms' =>
      match member k ms' with
      | Some v => Some v
      | None => if String.eqb (fst m) k then Some (snd m) else None
      end
  end.

(** The property read [v.k] for the names the program reads ([tasks],
    [devices], [id], [name], [checkInTime], [status]), none of which is a
    built-in property of an array, a string, a number or a boolean: the
    result is a value or [undefined] ([None]); reading a property of
    [null] throws. *)
Definition prop (k : string) (v : json) : completion (option json) :=
  match v with
  | JNull => Throw
  | JObj ms => Normal (member k ms)
  | _ => Normal None
  end.

(** Truthiness of a value or [undefined]. *)
Definition truthy (v : option json) : bool :=
  match v with
  | None => false
  | Some JNull => false
  | Some (JBool b) => b
  | Some (JNum (Zero _)) | Some (JNum NaN) => false
  | Some (JNum _) => true
  | Some (JStr s) => truthy_string s
  | Some (JArr _) => true
  | Some (JObj _) => true
  end.

(** [Array.isArray] *)
Definition isArray (v : option json) : bool :=
  match v with
  | Some (JArr _) => true
  | _ => false
  end.

(** [v.length === 0] for a truthy [v]. *)
Definition length_is_zero (v : option json) : bool :=
  match v with
  | Some (JArr l) => Nat.eqb (length l) 0
  | Some (JStr s) => Nat.eqb (String.length s) 0
  | Some (JObj ms) =>
      match member "length" ms with
      | Some (JNum (Zero _)) => true
      | _ => false
      end
  | _ => false
  end.

(** The elements of an array. *)
Definition elements_of (v : option json) : list json :=
  match v with
  | Some (JArr l) => l
  | _ => []
  end.

(** [Array.prototype.every] with a callback that can throw: it stops at
    the first element the callback rejects. *)
Fixpoint every {A : Type} (p : A -> completion bool) (l : list A)
  : completion bool :=
  match l with
  | [] => Normal true
  | x :: l' => b ← p x; if b : bool then every p l' else Normal false
  end.

(** The validation callback [t => t.id && t.name && t.checkInTime], taken
    to a boolean as [every] does. *)
Definition valid_task (t : json) : completion bool :=
  i ← prop "id" t;
  if truthy i then
    n ← prop "name" t;
    if truthy n then
      c ← prop "checkInTime" t;
      Normal (truthy c)
    else Normal false
  else Normal false.

(** ** Data export and import *)

(** The task list and the device list as they are at run time. *)
Record Store := mkStore {
  tasks : list json;
  devices : list json
}.

(** A task as the object it is at run time; the members are in the order
    [handleSaveTask] creates them. *)
Definition TaskStatus_json (s : TaskStatus) : json :=
  match s with
  | PENDING => JStr "PENDING"
  | COMPLETED => JStr "COMPLETED"
  | SKIPPED => JStr "SKIPPED"
  end.

Definition Task_json (t : Task) : json :=
  JObj [("name", JStr (name t));
        ("description", JStr (description t));
        ("checkInTime", JStr (checkInTime t));
        ("device", JStr (device t));
        ("appOrUrl", JStr (appOrUrl t));
        ("status", TaskStatus_json (status t));
        ("id", JStr (id t));
        ("createdAt", JNum (number_of_Z (createdAt t)))].

Definition store_of (ts : list Task) (ds : list string) : Store :=
  {| tasks := map Task_json ts; devices := map JStr ds |}.

(** Every value in the store is one that JSON keeps: its numbers are
    finite doubles other than the negative zero. *)
Definition store_kept (st : Store) : bool :=
  forallb json_kept (tasks st) && forallb json_kept (devices st).

(** [handleExport]: the text [dataStr] of the backup file. *)
Definition handleExport (st : Store) : string :=
  let backupData :=
    JObj [("tasks", JArr (tasks st));
          ("devices", JArr (devices st));
          ("version", JNum (number_of_Z 1))] in
  JSON_stringify backupData.

Definition import_alert (message : string) : Modal Store :=
  Alert "导入失败" message.

(** The confirmation an accepted import opens.  Its callback replaces the
    task list and, when the file carried one, the device list.  (It also
    closes the settings and clears the import text.) *)
Definition import_confirm (importedTasks : list json)
    (importedDevices : option (list json)) : Modal Store :=
  Confirm "恢复数据" "确定要恢复数据吗？这将覆盖当前数据且无法撤销。"
    (fun st =>
       {| tasks := importedTasks;
          devices := match importedDevices with
                     | Some ds => ds
                     | None => devices st
                     end |}).

(** The validation of the resolved task sequence, the second half of the
    [try] block. *)
Definition import_validate (data : json) (importedTasks : list json)
    (importedDevices : option (list json)) : completion (Modal Store) :=
  nonempty ←
    (if Nat.ltb 0 (length importedTasks) then Normal true
     else
       t ← prop "tasks" data;
       Normal (truthy t && length_is_zero t));
  if nonempty : bool then
    isValid ← every valid_task importedTasks;
    if isValid : bool
    then Normal (import_confirm importedTasks importedDevices)
    else Normal (import_alert "任务数据格式不正确")
  else Normal (import_alert "未找到有效的任务数据").

(** The [try] block of [handleImportConfirm]: parse, tell the legacy array
    from the versioned object, validate. *)
Definition import_try (importText : string) : completion (Modal Store) :=
  match JSON_parse importText with
  | None => Throw
  | Some data =>
      if isArray (Some data) then
        import_validate data (elements_of (Some data)) None
      else
        t ← prop "tasks" data;
        if truthy t && isArray t then
          d ← prop "devices" data;
          let importedDevices :=
            if truthy d && isArray d then Some (elements_of d) else None in
          import_validate data (elements_of t) importedDevices
        else Normal (import_alert "数据格式无法识别")
  end.

(** [handleImportConfirm]: the dialog it opens, none for a blank text. *)
Definition handleImportConfirm (importText : string) : option (Modal Store) :=
  if negb (truthy_string (trim importText)) then None
  else
    match import_try importText with
    | Normal m => Some m
    | Throw => Some (import_alert "JSON 格式错误")
    end.

(** The store after an import attempt and the user's answer to the dialog
    it opened. *)
Definition import (importText : string) (answer : Button) (st : Store)
  : Store :=
  match handleImportConfirm importText with
  | Some m => press answer m st
  | None => st
  end.

(** *** The failures of an import

    The three the specification names (malformed JSON, an unrecognized
    shape, a task element that lacks a field) and the bare empty array. *)

(** A task element with a non-empty (truthy) field of a given name. *)
Definition has_field (k : string) (t : json) : Prop :=
  exists ms v, t = JObj ms /\ member k ms = Some v /\ truthy (Some v) = true.

Definition complete_task (t : json) : Prop :=
  has_field "id" t /\ has_field "name" t /\ has_field "checkInTime" t.

(** The task sequence of a recognized document: a bare array, or the
    array under [tasks] of an object. *)
Definition resolved_tasks (data : json) : option (list json) :=
  match data with
  | JArr l => Some l
  | JObj ms =>
      match member "tasks" ms with
      | Some (JArr l) => Some l
      | _ => None
      end
  | _ => None
  end.

(** The device sequence of a document: the array under [devices] of an
    object, if it has one. *)
Definition resolved_devices (data : json) : option (list json) :=
  match data with
  | JObj ms =>
      match member "devices" ms with
      | Some (JArr l) => Some l
      | _ => None
      end
  | _ => None
  end.

Inductive import_fails (importText : string) : Prop :=
| malformed_json :
    JSON_parse importText = None -> import_fails importText
| unrecognized_shape data :
    JSON_parse importText = Some data ->
    resolved_tasks data = None -> import_fails importText
| incomplete_task data ts t :
    JSON_parse importText = Some data ->
    resolved_tasks data = Some ts ->
    In t ts -> ~ complete_task t -> import_fails importText
| no_task_data :
    JSON_parse importText = Some (JArr []) -> import_fails importText.

(** The initial device list: the stored one when [localStorage] has one
    that parses, the built-in one otherwise.  [saved] is the result of
    [localStorage.getItem]. *)
Definition load_devices (saved : option string) : json :=
  match saved with
  | Some s =>
      if truthy_string s then
        match JSON_parse s with
        | Some v => v
        | None => JArr (map JStr DEFAULT_DEVICES)
        end
      else JArr (map JStr DEFAULT_DEVICES)
  | None => JArr (map JStr DEFAULT_DEVICES)
  end.

(** ** Sample data for the examples *)

Definition sample_task (i : string) (at_ : Z) : Task :=
  {| id := i; name := "task " ++ i; description := EmptyString;
     checkInTime := "09:00"; device := "PC"; appOrUrl := EmptyString;
     status := PENDING; createdAt := at_ |}.

Definition task_A : Task := sample_task "A" 1700000000001.
Definition task_B : Task := sample_task "B" 1700000000002.
Definition task_C : Task := sample_task "C" 1700000000003.
Definition task_D : Task := sample_task "D" 1700000000004.

(** The texts [[]] and [{"tasks": []}]. *)
Definition text_empty_array : string := "[]".
Definition text_empty_tasks : string :=
  "{" ++ String dquote ("tasks" ++ String dquote ": []}").

Definition sample_store : Store :=
  store_of [task_A; task_B] ["PC"; "Phone"].

(** A document whose [devices] array holds a number, an empty string, a
    label twice, [null] and an array, next to one valid task. *)
Definition text_odd_devices : string :=
  JSON_stringify
    (JObj [("tasks", JArr [Task_json task_A]);
           ("devices", JArr [JNum (number_of_Z 7); JStr EmptyString;
                             JStr "PC"; JStr "PC"; JNull; JArr []])]).

(** A document with no task whose [devices] array holds a label and the
    same label between blanks. *)
Definition text_padded_devices : string :=
  JSON_stringify
    (JObj [("tasks", JArr []);
           ("devices", JArr [JStr "PC"; JStr " PC "])]).

(** A word between quotes. *)
Definition quoted (s : string) : string :=
  String dquote (s ++ String dquote EmptyString).

(** The legacy backup
    [[{"id":"1","name":"x","checkInTime":"09:00","createdAt":1e999}]],
    whose creation time is beyond the doubles, and the store its import
    installs next to a device list. *)
Definition text_huge_createdAt : string :=
  "[{" ++ quoted "id" ++ ":" ++ quoted "1" ++ ","
  ++ quoted "name" ++ ":" ++ quoted "x" ++ ","
  ++ quoted "checkInTime" ++ ":" ++ quoted "09:00" ++ ","
  ++ quoted "createdAt" ++ ":1e999}]".

Definition store_infinite : Store :=
  {| tasks := [JObj [("id", JStr "1"); ("name", JStr "x");
                     ("checkInTime", JStr "09:00");
                     ("createdAt", JNum (Infinity false))]];
     devices := [JStr "PC"] |}.

(** The legacy backup
    [[{"id":"1","name":"x","checkInTime":"09:00","createdAt":-0}]], whose
    creation time is the negative zero, and the store its import
    installs next to a device list. *)
Definition text_negative_zero_createdAt : string :=
  "[{" ++ quoted "id" ++ ":" ++ quoted "1" ++ ","
  ++ quoted "name" ++ ":" ++ quoted "x" ++ ","
  ++ quoted "checkInTime" ++ ":" ++ quoted "09:00" ++ ","
  ++ quoted "createdAt" ++ ":-0}]".

Definition store_negative_zero : Store :=
  {| tasks := [JObj [("id", JStr "1"); ("name", JStr "x");
                     ("checkInTime", JStr "09:00");
                     ("createdAt", JNum (Zero true))]];
     devices := [JStr "PC"] |}.

(** ** Deleting a task, the views and the statistics *)

(** [deleteTask]: the confirmation it opens.  The callback filters the
    task list of the moment it runs. *)
Definition deleteTask (i : string) : Modal (list Task) :=
  Confirm "删除任务" "确定要删除这个任务吗？此操作无法撤销。"
    (fun prev => List.filter (fun t => negb (has_id i t)) prev).

(** [a === b] on [TaskStatus] *)
Definition status_eqb (a b : TaskStatus) : bool :=
  match a, b with
  | PENDING, PENDING | COMPLETED, COMPLETED | SKIPPED, SKIPPED => true
  | _, _ => false
  end.

(** The state [filter], ['all' | 'pending']. *)
Inductive Filter := FilterAll | FilterPending.

(** [filteredTasks] *)
Definition filteredTasks (filter : Filter) (tasks : list Task) : list Task :=
  match filter with
  | FilterAll => tasks
  | FilterPending =>
      List.filter (fun t => status_eqb (status t) PENDING) tasks
  end.

(** *** [StatsChart]

    The chart receives the task list as it is at run time: an import
    checks the [id], the [name] and the [checkInTime] of a task only, so
    the [status] of a task can be any value or be missing. *)

(** The strings of the enumeration [TaskStatus]. *)
Definition status_text (s : TaskStatus) : string :=
  match s with
  | PENDING => "PENDING"
  | COMPLETED => "COMPLETED"
  | SKIPPED => "SKIPPED"
  end.

(** [v === s] for a string [s]. *)
Definition is_string (s : string) (v : option json) : bool :=
  match v with
  | Some (JStr x) => String.eqb x s
  | _ => false
  end.

(** The callback [t => t.status === s] of the three filters. *)
Definition has_status (s : TaskStatus) (t : json) : completion bool :=
  v ← prop "status" t;
  Normal (is_string (status_text s) v).

(** [Array.prototype.filter] with a callback that can throw. *)
Fixpoint filter_by {A : Type} (p : A -> completion bool) (l : list A)
  : completion (list A) :=
  match l with
  | [] => Normal []
  | x :: l' =>
      b ← p x;
      r ← filter_by p l';
      Normal (if b : bool then x :: r else r)
  end.

(** The three counts of [StatsChart]. *)
Definition pendingCount (tasks : list json) : completion nat :=
  l ← filter_by (has_status PENDING) tasks; Normal (length l).

Definition completedCount (tasks : list json) : completion nat :=
  l ← filter_by (has_status COMPLETED) tasks; Normal (length l).

Definition skippedCount (tasks : list json) : completion nat :=
  l ← filter_by (has_status SKIPPED) tasks; Normal (length l).

(** ** The task form ([TaskForm]) *)

(** The five text fields of the form. *)
Module TaskForm.
Record state := mk {
  name : string;
  description : string;
  checkInTime : string;
  device : string;
  appOrUrl : string
}.
End TaskForm.

(** [TaskSuggestion], what [generateTaskSuggestion] resolves to. *)
Module TaskSuggestion.
Record t := mk {
  name : string;
  description : string;
  checkInTime : string;
  device : string;
  appOrUrl : string
}.
End TaskSuggestion.

(** [availableDevices[0] || fallback] *)
Definition first_device_or (availableDevices : list string)
    (fallback : string) : string :=
  match availableDevices !! 0 with
  | Some d => if truthy_string d then d else fallback
  | None => fallback
  end.

(** The form once mounted: the initial values of the [useState] hooks,
    then the effect that copies [initialTask] into the fields (or, with no
    task, sets the device to the first available one). *)
Definition TaskForm_init (initialTask : option Task)
    (availableDevices : list string) : TaskForm.state :=
  match initialTask with
  | Some t =>
      TaskForm.mk (name t) (description t) (checkInTime t) (device t)
        (appOrUrl t)
  | None =>
      TaskForm.mk EmptyString EmptyString "09:00"
        (first_device_or availableDevices EmptyString) EmptyString
  end.

(** [handleSubmit]: the value handed to [onSave]. *)
Definition handleSubmit (form : TaskForm.state) (initialTask : option Task)
    (availableDevices : list string) : TaskData.t :=
  TaskData.mk
    (TaskForm.name form)
    (TaskForm.description form)
    (TaskForm.checkInTime form)
    (if truthy_string (TaskForm.device form) then TaskForm.device form
     else first_device_or availableDevices "Unknown")
    (TaskForm.appOrUrl form)
    (match initialTask with
     | Some t => status t
     | None => PENDING
     end).

(** [handleSmartFill]: the fields afterwards.  [generated] is what the
    awaited [generateTaskSuggestion(name)] gives, [None] when it throws
    (the form then shows an error and keeps its fields). *)
Definition handleSmartFill (generated : option TaskSuggestion.t)
    (availableDevices : list string) (form : TaskForm.state)
  : TaskForm.state :=
  if negb (truthy_string (trim (TaskForm.name form))) then form
  else
    match generated with
    | Some suggestion =>
        TaskForm.mk
          (TaskSuggestion.name suggestion)
          (TaskSuggestion.description suggestion)
          (TaskSuggestion.checkInTime suggestion)
          (if includes (TaskSuggestion.device suggestion) availableDevices
           then TaskSuggestion.device suggestion
           else
             match availableDevices with
             | d :: _ => d
             | [] => TaskForm.device form
             end)
          (TaskSuggestion.appOrUrl suggestion)
    | None => form
    end.

(** ** Local persistence *)

(** [JSON.stringify(value)], without indentation. *)
Fixpoint print_compact (v : json) : list ascii :=
  match v with
  | JNull => list_ascii_of_string "null"
  | JBool true => list_ascii_of_string "true"
  | JBool false => list_ascii_of_string "false"
  | JNum x => print_number x
  | JStr s => quote_string s
  | JArr [] => list_ascii_of_string "[]"
  | JArr (v1 :: vs) =>
      "["%char :: print_compact v1
        ++ flat_map (fun v => ","%char :: print_compact v) vs
        ++ ["]"%char]
  | JObj [] => list_ascii_of_string "{}"
  | JObj (m1 :: ms) =>
      "{"%char :: quote_string (fst m1) ++ ":"%char :: print_compact (snd m1)
        ++ flat_map (fun m => ","%char :: quote_string (fst m)
                                ++ ":"%char :: print_compact (snd m)) ms
        ++ ["}"%char]
  end.

Definition JSON_stringify_compact (v : json) : string :=
  string_of_list_ascii (print_compact v).

(** What the two synchronising effects write to [localStorage] for a task
    list or a device list. *)
Definition stored (l : list json) : string :=
  JSON_stringify_compact (JArr l).

(** The initial task list; [saved] is the result of
    [localStorage.getItem]. *)
Definition load_tasks (saved : option string) : json :=
  match saved with
  | Some s =>
      if truthy_string s then
        match JSON_parse s with
        | Some v => v
        | None => JArr []
        end
      else JArr []
  | None => JArr []
  end.

(** A value is read back from its compact text. *)
Definition reads_back_compact (v : json) : Prop :=
  forall (fuel : nat) (rest : list ascii),
    json_size v <= fuel -> delimited rest ->
    parse_value fuel (print_compact v ++ rest) = Some (reparsed v, rest).

(** A device registry in order: the labels are pairwise distinct and none
    is empty. *)
Definition registry_ok (devices : list string) : Prop :=
  NoDup devices /\ Forall (fun d => d <> EmptyString) devices.

(** * Properties *)

(** ** Facts about the array operations *)

Section ArrayFacts.
Context {A : Type}.
Implicit Types (p : A -> bool) (l : list A).

Lemma findIndex_Some p l i :
  findIndex p l = Some i ->
  exists x, l !! i = Some x /\ p x = true /\
    forall j y, j < i -> l !! j = Some y -> p y = false.
Proof.
  revert i. induction l as [|a l IH]; intros i; simpl; [discriminate|].
  destruct (p a) eqn:Hpa.
  - intros [= <-]. exists a. repeat split; auto. intros j y Hj. lia.
  - destruct (findIndex p l) as [k|] eqn:Hk; simpl; [|discriminate].
    intros [= <-]. destruct (IH k eq_refl) as (x & Hx & Hpx & Hmin).
    exists x. repeat split; auto.
    intros [|j] y Hj; simpl.
    + intros [= <-]. exact Hpa.
    + apply Hmin. lia.
Qed.

Lemma findIndex_None p l :
  findIndex p l = None -> forall x, In x l -> p x = false.
Proof.
  induction l as [|a l IH]; simpl; [intros _ x []|].
  destruct (p a) eqn:Hpa; [discriminate|].
  destruct (findIndex p l); simpl; [discriminate|].
  intros _ x [<-|Hx]; auto.
Qed.

Lemma findIndex_first p l i x :
  l !! i = Some x -> p x = true ->
  (forall j y, j < i -> l !! j = Some y -> p y = false) ->
  findIndex p l = Some i.
Proof.
  revert i. induction l as [|a l IH]; intros i; [discriminate|].
  destruct i as [|i]; simpl.
  - intros [= ->] -> _. reflexivity.
  - intros Hx Hpx Hmin.
    rewrite (Hmin 0 a); [|lia|reflexivity].
    rewrite (IH i); auto.
    intros j y Hj Hy. apply (Hmin (S j)); [lia|exact Hy].
Qed.

Lemma findIndex_In p l x :
  In x l -> p x = true -> exists i, findIndex p l = Some i.
Proof.
  intros Hin Hpx. destruct (findIndex p l) as [i|] eqn:Hf; eauto.
  rewrite (findIndex_None _ _ Hf x Hin) in Hpx. discriminate.
Qed.

(** Deleting behind the first match does not move it. *)
Lemma findIndex_delete_behind p l i j :
  findIndex p l = Some j -> j < i -> findIndex p (delete i l) = Some j.
Proof.
  intros Hf Hlt. destruct (findIndex_Some _ _ _ Hf) as (x & Hx & Hpx & Hmin).
  apply findIndex_first with x; auto.
  - rewrite list_lookup_delete_lt; auto.
  - intros k y Hk. rewrite list_lookup_delete_lt by lia. apply Hmin, Hk.
Qed.

(** Deleting a non-matching element in front of the first match moves
    the match one place forward. *)
Lemma findIndex_delete_before p l i j :
  findIndex p l = Some j -> i < j -> findIndex p (delete i l) = Some (j - 1).
Proof.
  intros Hf Hlt. destruct (findIndex_Some _ _ _ Hf) as (x & Hx & Hpx & Hmin).
  apply findIndex_first with x; auto.
  - rewrite list_lookup_delete_ge by lia.
    replace (S (j - 1)) with j by lia. exact Hx.
  - intros k y Hk. rewrite list_lookup_delete. case_decide.
    + apply Hmin. lia.
    + apply Hmin. lia.
Qed.

Lemma splice_remove_one l i x :
  l !! i = Some x -> splice i 1 [] l = ([x], delete i l).
Proof.
  intros Hx. unfold splice. rewrite (drop_S _ _ _ Hx). simpl.
  rewrite take_0, delete_take_drop. do 3 f_equal. lia.
Qed.

Lemma splice_insert_one l j x :
  snd (splice j 0 [x] l) = take j l ++ x :: drop j l.
Proof. unfold splice. simpl. do 3 f_equal. lia. Qed.

(** Taking an element out and putting it back anywhere permutes. *)
Lemma delete_insert_Permutation l i j x :
  l !! i = Some x ->
  Permutation (take j (delete i l) ++ x :: drop j (delete i l)) l.
Proof.
  intros Hx.
  rewrite <- Permutation_middle, take_drop, delete_take_drop.
  rewrite Permutation_middle, <- (drop_S _ _ _ Hx), take_drop.
  reflexivity.
Qed.
End ArrayFacts.

(** ** The reorder gesture *)

Lemma truthy_string_true (s : string) :
  s <> EmptyString -> truthy_string s = true.
Proof. destruct s; [congruence|reflexivity]. Qed.

Lemma has_id_In (s : string) (tasks : list Task) :
  In s (map id tasks) -> exists t, In t tasks /\ has_id s t = true.
Proof.
  rewrite in_map_iff. intros (t & <- & Hin). exists t. split; auto.
  apply String.eqb_refl.
Qed.

Lemma has_id_not_In (s : string) (tasks : list Task) :
  ~ In s (map id tasks) -> findIndex (has_id s) tasks = None.
Proof.
  intros Hnot. destruct (findIndex (has_id s) tasks) as [i|] eqn:Hf; auto.
  destruct (findIndex_Some _ _ _ Hf) as (x & Hx & Hpx & _).
  exfalso. apply Hnot. apply in_map_iff. exists x. split.
  - apply String.eqb_eq, Hpx.
  - apply list_elem_of_In, list_elem_of_lookup. eauto.
Qed.

(** What a drop does when both tasks are found. *)
Lemma handleDrop_found (dragged targetId : string) (tasks : list Task)
    (i j : nat) (s : Task) :
  dragged <> EmptyString -> dragged <> targetId ->
  findIndex (has_id dragged) tasks = Some i ->
  findIndex (has_id targetId) tasks = Some j ->
  tasks !! i = Some s ->
  handleDrop (Some dragged) targetId tasks
  = take j (delete i tasks) ++ s :: drop j (delete i tasks).
Proof.
  intros Hne Hdiff Hi Hj Hs. unfold handleDrop.
  rewrite (truthy_string_true _ Hne).
  apply String.eqb_neq in Hdiff. rewrite Hdiff. cbn [andb negb]. cbv zeta.
  rewrite Hi, Hj, (splice_remove_one _ _ _ Hs).
  apply splice_insert_one.
Qed.

(** A drop either leaves the list alone or is a move of one found task. *)
Lemma handleDrop_cases (draggedTaskId : option string) (targetId : string)
    (tasks : list Task) :
  handleDrop draggedTaskId targetId tasks = tasks \/
  exists i j s, tasks !! i = Some s /\
    handleDrop draggedTaskId targetId tasks
    = take j (delete i tasks) ++ s :: drop j (delete i tasks).
Proof.
  unfold handleDrop. cbv zeta. destruct draggedTaskId as [dragged|]; auto.
  destruct (truthy_string dragged && negb (dragged =? targetId)); auto.
  destruct (findIndex (has_id dragged) tasks) as [i|] eqn:Hi; auto.
  destruct (findIndex (has_id targetId) tasks) as [j|] eqn:Hj; auto.
  destruct (findIndex_Some _ _ _ Hi) as (s & Hs & _).
  right. exists i, j, s. split; auto.
  rewrite (splice_remove_one _ _ _ Hs). apply splice_insert_one.
Qed.

(** C1 (as stated, refuted): on [[A,B,C,D]] with source [A] and target [C]
    both ids are present and distinct, yet the drop yields [[B,C,A,D]],
    where removing the source and reinserting it at the index the target
    has after the removal would yield [[B,A,C,D]]. *)
Lemma reorder_source_before_target_counterexample :
  In "A" (map id [task_A; task_B; task_C; task_D]) /\
  In "C" (map id [task_A; task_B; task_C; task_D]) /\
  "A" <> "C" /\
  handleDrop (Some "A") "C" [task_A; task_B; task_C; task_D]
    = [task_B; task_C; task_A; task_D] /\
  reorder_spec "A" "C" [task_A; task_B; task_C; task_D]
    = [task_B; task_A; task_C; task_D] /\
  handleDrop (Some "A") "C" [task_A; task_B; task_C; task_D]
    <> reorder_spec "A" "C" [task_A; task_B; task_C; task_D].
Proof.
  repeat split; try (simpl; tauto); discriminate.
Qed.

(** C1 (amended): for every task list containing a non-empty source id and
    a distinct target id, the drop removes the first task [s] carrying the
    source id (index [i]) and reinserts it at the index [j] the target [t]
    had before the removal.  The source therefore ends at index [j]; it
    lands immediately before the target (as reinsertion at the target's
    index after the removal would) when it originally followed the target,
    and immediately after the target when it originally preceded it. *)
Theorem handleDrop_moves_to_target_index
    (tasks : list Task) (src tgt : string) :
  src <> EmptyString ->
  In src (map id tasks) -> In tgt (map id tasks) -> src <> tgt ->
  exists i j s t,
    findIndex (has_id src) tasks = Some i /\ tasks !! i = Some s /\
    findIndex (has_id tgt) tasks = Some j /\ tasks !! j = Some t /\
    i <> j /\
    let result := handleDrop (Some src) tgt tasks in
    result = take j (delete i tasks) ++ s :: drop j (delete i tasks) /\
    result !! j = Some s /\
    (j < i -> result !! S j = Some t /\ result = reorder_spec src tgt tasks) /\
    (i < j -> result !! (j - 1) = Some t).
Proof.
  intros Hne Hsrc Htgt Hdiff.
  destruct (has_id_In _ _ Hsrc) as (s0 & Hs0 & Hps0).
  destruct (has_id_In _ _ Htgt) as (t0 & Ht0 & Hpt0).
  destruct (findIndex_In _ _ _ Hs0 Hps0) as [i Hi].
  destruct (findIndex_In _ _ _ Ht0 Hpt0) as [j Hj].
  destruct (findIndex_Some _ _ _ Hi) as (s & Hs & Hps & _).
  destruct (findIndex_Some _ _ _ Hj) as (t & Ht & Hpt & _).
  assert (Hij : i <> j).
  { intros ->. rewrite Hs in Ht. injection Ht as ->.
    apply String.eqb_eq in Hps, Hpt. congruence. }
  exists i, j, s, t. repeat (split; [assumption|]).
  cbv zeta. rewrite (handleDrop_found src tgt tasks i j s) by assumption.
  assert (Hlen : length (delete i tasks) = length tasks - 1)
    by (apply length_delete; eauto).
  assert (Hi' : i < length tasks) by (apply lookup_lt_is_Some; eauto).
  assert (Hj' : j < length tasks) by (apply lookup_lt_is_Some; eauto).
  assert (Htake : length (take j (delete i tasks)) = j)
    by (rewrite length_take; lia).
  split; [reflexivity|]. split; [|split].
  - apply list_lookup_middle. auto.
  - intros Hlt. split.
    + rewrite lookup_app_r by lia. rewrite Htake.
      replace (S j - j) with 1 by lia. simpl.
      rewrite lookup_drop, Nat.add_0_r, list_lookup_delete_lt by lia.
      exact Ht.
    + unfold reorder_spec.
      rewrite Hi, Hs, (findIndex_delete_behind _ _ _ _ Hj Hlt). reflexivity.
  - intros Hlt. rewrite lookup_app_l by lia.
    rewrite lookup_take_lt, list_lookup_delete_ge by lia.
    replace (S (j - 1)) with j by lia. exact Ht.
Qed.

Lemma handleDrop_moves_to_target_index_witness :
  exists i j s t,
    findIndex (has_id "C") [task_A; task_B; task_C; task_D] = Some i /\
    [task_A; task_B; task_C; task_D] !! i = Some s /\
    findIndex (has_id "B") [task_A; task_B; task_C; task_D] = Some j /\
    [task_A; task_B; task_C; task_D] !! j = Some t /\
    i <> j /\
    let result := handleDrop (Some "C") "B" [task_A; task_B; task_C; task_D] in
    result = take j (delete i [task_A; task_B; task_C; task_D])
               ++ s :: drop j (delete i [task_A; task_B; task_C; task_D]) /\
    result !! j = Some s /\
    (j < i -> result !! S j = Some t /\
              result = reorder_spec "C" "B" [task_A; task_B; task_C; task_D]) /\
    (i < j -> result !! (j - 1) = Some t).
Proof.
  apply (handleDrop_moves_to_target_index
           [task_A; task_B; task_C; task_D] "C" "B").
  - discriminate.
  - simpl; tauto.
  - simpl; tauto.
  - discriminate.
Defined.

(** C5: on [[A,B,C,D]], source [C] and target [B] give [[A,C,B,D]]; a drop
    of a task on itself changes nothing; a drop whose source or target id
    is not in the list changes nothing. *)
Theorem handleDrop_examples :
  (forall A B C D : Task,
      id C <> EmptyString ->
      id A <> id B -> id A <> id C -> id B <> id C ->
      handleDrop (Some (id C)) (id B) [A; B; C; D] = [A; C; B; D]) /\
  (forall (tasks : list Task) (a : string),
      handleDrop (Some a) a tasks = tasks) /\
  (forall (tasks : list Task) (src tgt : string),
      ~ In src (map id tasks) \/ ~ In tgt (map id tasks) ->
      handleDrop (Some src) tgt tasks = tasks).
Proof.
  split; [|split].
  - intros A B C D Hne Hab Hac Hbc.
    rewrite (handleDrop_found (id C) (id B) [A; B; C; D] 2 1 C); auto.
    + unfold findIndex, has_id.
      apply String.eqb_neq in Hac, Hbc. rewrite Hac, Hbc, String.eqb_refl.
      reflexivity.
    + unfold findIndex, has_id.
      apply String.eqb_neq in Hab. rewrite Hab, String.eqb_refl.
      reflexivity.
  - intros tasks a. unfold handleDrop.
    rewrite String.eqb_refl, andb_false_r. reflexivity.
  - intros tasks src tgt Hmiss. unfold handleDrop. cbv zeta.
    destruct (truthy_string src && negb (src =? tgt)); auto.
    destruct Hmiss as [H|H]; rewrite (has_id_not_In _ _ H); auto.
    destruct (findIndex (has_id src) tasks); auto.
Qed.

Lemma handleDrop_examples_witness :
  handleDrop (Some "C") "B" [task_A; task_B; task_C; task_D]
    = [task_A; task_C; task_B; task_D] /\
  handleDrop (Some "A") "A" [task_A; task_B; task_C; task_D]
    = [task_A; task_B; task_C; task_D] /\
  handleDrop (Some "E") "B" [task_A; task_B; task_C; task_D]
    = [task_A; task_B; task_C; task_D] /\
  handleDrop (Some "C") "E" [task_A; task_B; task_C; task_D]
    = [task_A; task_B; task_C; task_D].
Proof.
  destruct handleDrop_examples as (Hmove & Hself & Hmiss).
  split; [|split; [|split]].
  - apply (Hmove task_A task_B task_C task_D); discriminate.
  - apply Hself.
  - apply Hmiss. left. simpl. intuition discriminate.
  - apply Hmiss. right. simpl. intuition discriminate.
Defined.

(** C10: a drop permutes the task list: no task is added, removed,
    duplicated or altered, whatever the ids are. *)
Theorem handleDrop_Permutation
    (draggedTaskId : option string) (targetId : string) (tasks : list Task) :
  Permutation (handleDrop draggedTaskId targetId tasks) tasks.
Proof.
  destruct (handleDrop_cases draggedTaskId targetId tasks)
    as [->|(i & j & s & Hs & ->)].
  - reflexivity.
  - apply delete_insert_Permutation, Hs.
Qed.

(** ** Saving an edited task *)

Lemma handleSaveTask_lookup (editing : Task) (uuid : string) (now : Z)
    (taskData : TaskData.t) (prev : list Task) (i : nat) :
  handleSaveTask (Some editing) uuid now taskData prev !! i
  = (fun t => if has_id (id editing) t then spread t taskData else t)
      <$> prev !! i.
Proof. unfold handleSaveTask. apply list_lookup_fmap. Qed.

(** C7: saving an edit keeps the length and the order of the list; a task
    carrying the edited id keeps its [id] and [createdAt] and takes every
    other field from the submitted data; every other task is unchanged; if
    no task carries the id the list is unchanged. *)
Theorem handleSaveTask_update (editing : Task) (uuid : string) (now : Z)
    (taskData : TaskData.t) (prev : list Task) :
  let next := handleSaveTask (Some editing) uuid now taskData prev in
  length next = length prev /\
  (forall i t, prev !! i = Some t -> id t = id editing ->
     exists t', next !! i = Some t' /\
       id t' = id t /\ createdAt t' = createdAt t /\
       name t' = TaskData.name taskData /\
       description t' = TaskData.description taskData /\
       checkInTime t' = TaskData.checkInTime taskData /\
       device t' = TaskData.device taskData /\
       appOrUrl t' = TaskData.appOrUrl taskData /\
       status t' = TaskData.status taskData) /\
  (forall i t, prev !! i = Some t -> id t <> id editing ->
     next !! i = Some t) /\
  (~ In (id editing) (map id prev) -> next = prev).
Proof.
  cbv zeta. split; [|split; [|split]].
  - unfold handleSaveTask. apply length_map.
  - intros i t Ht Hid. exists (spread t taskData).
    rewrite handleSaveTask_lookup, Ht. simpl. unfold has_id.
    rewrite Hid, String.eqb_refl. repeat split; reflexivity.
  - intros i t Ht Hid.
    rewrite handleSaveTask_lookup, Ht. simpl. unfold has_id.
    apply String.eqb_neq in Hid. rewrite Hid. reflexivity.
  - intros Hnot. unfold handleSaveTask.
    induction prev as [|t prev IH]; [reflexivity|]. simpl in *.
    assert (Hid : id t <> id editing) by (intros E; apply Hnot; auto).
    apply String.eqb_neq in Hid. unfold has_id at 1. rewrite Hid.
    f_equal. apply IH. intros Hin. apply Hnot. auto.
Qed.

Lemma handleSaveTask_update_witness :
  let taskData := TaskData.mk "read" "a chapter" "21:30" "PC" "reader" COMPLETED in
  let next :=
    handleSaveTask (Some task_B) "unused" 0 taskData [task_A; task_B; task_C] in
  (exists t', next !! 1 = Some t' /\
       id t' = id task_B /\ createdAt t' = createdAt task_B /\
       name t' = TaskData.name taskData /\
       description t' = TaskData.description taskData /\
       checkInTime t' = TaskData.checkInTime taskData /\
       device t' = TaskData.device taskData /\
       appOrUrl t' = TaskData.appOrUrl taskData /\
       status t' = TaskData.status taskData) /\
  next !! 0 = Some task_A /\
  handleSaveTask (Some task_D) "unused" 0 taskData [task_A; task_B; task_C]
  = [task_A; task_B; task_C].
Proof.
  cbv zeta.
  pose proof (handleSaveTask_update task_B "unused" 0
    (TaskData.mk "read" "a chapter" "21:30" "PC" "reader" COMPLETED)
    [task_A; task_B; task_C]) as (_ & Hhit & Hmiss & _).
  pose proof (handleSaveTask_update task_D "unused" 0
    (TaskData.mk "read" "a chapter" "21:30" "PC" "reader" COMPLETED)
    [task_A; task_B; task_C]) as (_ & _ & _ & Habsent).
  split; [|split].
  - apply (Hhit 1 task_B); reflexivity.
  - apply (Hmiss 0 task_A); [reflexivity|discriminate].
  - apply Habsent. simpl. intuition discriminate.
Defined.

(** ** The device registry *)

Lemma includes_In (x : string) (l : list string) :
  includes x l = true <-> In x l.
Proof.
  unfold includes. rewrite existsb_exists. split.
  - intros (y & Hy & Heq). apply String.eqb_eq in Heq. congruence.
  - intros Hx. exists x. split; [exact Hx|apply String.eqb_refl].
Qed.

Lemma some_from_spec {A : Type} (p : A -> nat -> bool) (l : list A) (n : nat) :
  some_from n p l = true <-> exists k x, l !! k = Some x /\ p x (n + k) = true.
Proof.
  revert n. induction l as [|a l IH]; intros n; simpl.
  - split; [discriminate|]. intros (k & x & Hk & _). discriminate.
  - rewrite orb_true_iff, IH. split.
    + intros [Ha|(k & x & Hk & Hp)].
      * exists 0, a. rewrite Nat.add_0_r. auto.
      * exists (S k), x. split; [exact Hk|].
        replace (n + S k) with (S n + k) by lia. exact Hp.
    + intros ([|k] & x & Hk & Hp).
      * injection Hk as ->. rewrite Nat.add_0_r in Hp. auto.
      * right. exists k, x. split; [exact Hk|].
        replace (S n + k) with (n + S k) by lia. exact Hp.
Qed.

(** The duplicate test of [saveEditingDevice]: some other row already
    holds the value. *)
Lemma other_row_holds (index : nat) (value : string) (devices : list string) :
  some_i (fun d i => negb (Nat.eqb i index) && String.eqb d value) devices
    = true
  <-> exists k, k <> index /\ devices !! k = Some value.
Proof.
  unfold some_i. rewrite some_from_spec. split.
  - intros (k & x & Hk & Hp). simpl in Hp.
    apply andb_true_iff in Hp as [Hne Heq].
    apply negb_true_iff, Nat.eqb_neq in Hne. apply String.eqb_eq in Heq.
    subst x. eauto.
  - intros (k & Hne & Hk). exists k, value. split; [exact Hk|]. simpl.
    apply Nat.eqb_neq in Hne. rewrite Hne, String.eqb_refl. reflexivity.
Qed.

(** C8 (as stated, refuted): the label that is tested and stored is the
    trimmed one, so on a registry whose labels carry surrounding blanks
    (an import installs any device array as it is) the typed label does
    not decide.  Renaming row 1 of [["PC"; " PC "]] to its own current
    value is refused with the alert; renaming the only row of [[" PC "]]
    to its own current value changes the label; and [" PC "], already
    present under exact match, is not refused by the add: its trimmed
    form is appended. *)
Lemma registry_self_rename_counterexample :
  devices (import text_padded_devices OkButton (mkStore [] []))
    = map JStr ["PC"; " PC "] /\
  ["PC"; " PC "] !! 1 = Some " PC " /\
  saveEditingDevice 1 " PC " ["PC"; " PC "]
    = Some (mkDeviceEdit ["PC"; " PC "] (Some 1) (Some rename_alert)) /\
  saveEditingDevice 0 " PC " [" PC "] = Some (mkDeviceEdit ["PC"] None None) /\
  ["PC"] <> [" PC "] /\
  In " PC " [" PC "] /\
  handleAddDevice " PC " [" PC "] = [" PC "; "PC"].
Proof.
  split; [vm_compute; reflexivity|]. split; [reflexivity|].
  split; [vm_compute; reflexivity|]. split; [vm_compute; reflexivity|].
  split; [discriminate|]. split; [left; reflexivity|].
  vm_compute; reflexivity.
Qed.

(** C8 (amended): adding is refused, the registry staying as it is, when
    the trimmed label is empty or the trimmed label is already an entry
    (compared exactly, case included); renaming is refused with an alert,
    the registry staying as it is, when the trimmed value is empty or is
    held by another row, except that a rename whose trimmed value is the
    label the row already holds succeeds and changes nothing. *)
Theorem registry_rejects_empty_and_duplicate :
  (forall newDevice devices,
      trim newDevice = EmptyString ->
      handleAddDevice newDevice devices = devices) /\
  (forall newDevice devices,
      In (trim newDevice) devices ->
      handleAddDevice newDevice devices = devices) /\
  (forall index value devices,
      trim value = EmptyString ->
      devices !! index <> Some EmptyString ->
      saveEditingDevice index value devices
      = Some (mkDeviceEdit devices (Some index) (Some rename_alert))) /\
  (forall index value devices k,
      k <> index -> devices !! k = Some (trim value) ->
      devices !! index <> Some (trim value) ->
      saveEditingDevice index value devices
      = Some (mkDeviceEdit devices (Some index) (Some rename_alert))) /\
  (forall index value devices,
      devices !! index = Some (trim value) ->
      saveEditingDevice index value devices
      = Some (mkDeviceEdit devices None None)).
Proof.
  repeat split.
  - intros newDevice devices Hempty. unfold handleAddDevice.
    rewrite Hempty. reflexivity.
  - intros newDevice devices Hin. unfold handleAddDevice.
    apply includes_In in Hin. rewrite Hin, andb_false_r. reflexivity.
  - intros index value devices Hempty Hcur. unfold saveEditingDevice.
    cbv zeta. rewrite Hempty. simpl.
    destruct (devices !! index) as [current|] eqn:Hc; [|reflexivity].
    destruct current; [congruence|reflexivity].
  - intros index value devices k Hk Hdup Hcur. unfold saveEditingDevice.
    cbv zeta.
    assert (Hsome : some_i (fun d i => negb (Nat.eqb i index)
                                       && String.eqb d (trim value)) devices
                    = true) by (apply other_row_holds; eauto).
    rewrite Hsome, andb_false_r.
    destruct (devices !! index) as [current|] eqn:Hc; [|reflexivity].
    destruct (String.eqb_spec (trim value) current); [congruence|reflexivity].
  - intros index value devices Hcur. unfold saveEditingDevice. cbv zeta.
    rewrite Hcur, String.eqb_refl.
    destruct (truthy_string (trim value) && _); [|reflexivity].
    assert (Hlt : index < length devices) by (apply lookup_lt_is_Some; eauto).
    apply Nat.ltb_lt in Hlt. rewrite Hlt, list_insert_id by exact Hcur.
    reflexivity.
Qed.

Lemma registry_rejects_empty_and_duplicate_witness :
  handleAddDevice "   " ["PC"; "Phone"] = ["PC"; "Phone"] /\
  handleAddDevice " PC " ["PC"; "Phone"] = ["PC"; "Phone"] /\
  saveEditingDevice 0 "  " ["PC"; "Phone"]
    = Some (mkDeviceEdit ["PC"; "Phone"] (Some 0) (Some rename_alert)) /\
  saveEditingDevice 0 "Phone" ["PC"; "Phone"]
    = Some (mkDeviceEdit ["PC"; "Phone"] (Some 0) (Some rename_alert)) /\
  saveEditingDevice 0 "PC" ["PC"; "Phone"]
    = Some (mkDeviceEdit ["PC"; "Phone"] None None).
Proof.
  destruct registry_rejects_empty_and_duplicate
    as (Hadd1 & Hadd2 & Hren1 & Hren2 & Hself).
  split; [|split; [|split; [|split]]].
  - apply Hadd1. reflexivity.
  - apply Hadd2. simpl. tauto.
  - apply Hren1; [reflexivity|discriminate].
  - apply (Hren2 0 "Phone" ["PC"; "Phone"] 1); [lia|reflexivity|discriminate].
  - apply Hself. reflexivity.
Defined.

(** The comparison is exact: a label that differs in case only is added. *)
Example handleAddDevice_case_sensitive :
  handleAddDevice "pc" ["PC"; "Phone"] = ["PC"; "Phone"; "pc"].
Proof. reflexivity. Qed.

(** Removing a row by its index is the deletion of that row. *)
Lemma filter_from_beyond {A : Type} (l : list A) (n m : nat) :
  n < m -> filter_from m (fun _ i => negb (Nat.eqb i n)) l = l.
Proof.
  revert m. induction l as [|a l IH]; intros m Hm; [reflexivity|].
  cbn [filter_from]. destruct (Nat.eqb_spec m n) as [E|_]; [lia|].
  cbn [negb]. f_equal. apply IH. lia.
Qed.

Lemma filter_from_delete {A : Type} (l : list A) (n k : nat) :
  filter_from n (fun _ i => negb (Nat.eqb i (n + k))) l = delete k l.
Proof.
  revert n k. induction l as [|a l IH]; intros n k; [reflexivity|].
  cbn [filter_from]. destruct k as [|k].
  - rewrite Nat.add_0_r, Nat.eqb_refl. cbn [negb].
    apply filter_from_beyond. lia.
  - destruct (Nat.eqb_spec n (n + S k)) as [E|_]; [lia|]. cbn [negb].
    replace (n + S k) with (S n + k) by lia. rewrite IH. reflexivity.
Qed.

Lemma handleDeleteDevice_delete (index : nat) (devices st : list string) :
  press OkButton (handleDeleteDevice index devices) st = delete index devices.
Proof. apply (filter_from_delete devices 0 index). Qed.

(** C6 (as stated, refuted): starting from the built-in default list, four
    confirmed removals leave the registry empty. *)
Lemma registry_emptied_counterexample :
  DEFAULT_DEVICES <> [] /\
  run_ops [Remove 0; Remove 0; Remove 0; Remove 0] DEFAULT_DEVICES = Some [].
Proof. split; [discriminate|reflexivity]. Qed.

(** C6 (amended): at load the registry is the built-in default list, which
    has four labels, when persistent storage holds none; adding and
    renaming never shorten the registry, so they keep a non-empty registry
    non-empty; a confirmed removal deletes the row unconditionally, so the
    registry gets one shorter and a registry of one label becomes empty. *)
Theorem registry_nonempty_except_remove :
  (load_devices None = JArr (map JStr DEFAULT_DEVICES) /\
   length DEFAULT_DEVICES = 4) /\
  (forall label devices,
      length devices <= length (handleAddDevice label devices)) /\
  (forall index label devices e,
      saveEditingDevice index label devices = Some e ->
      length (edit_devices e) = length devices) /\
  (forall index devices,
      index < length devices ->
      length (press OkButton (handleDeleteDevice index devices) devices)
      = length devices - 1).
Proof.
  split; [split; reflexivity|]. split; [|split].
  - intros label devices. unfold handleAddDevice.
    destruct (_ && _); [rewrite length_app; simpl; lia|lia].
  - intros index label devices e. unfold saveEditingDevice. cbv zeta.
    destruct (_ && _).
    + destruct (Nat.ltb index (length devices)); [|discriminate].
      intros [= <-]. simpl. apply length_insert.
    + destruct (devices !! index) as [current|].
      * destruct (String.eqb _ current); intros [= <-]; reflexivity.
      * intros [= <-]. reflexivity.
  - intros index devices Hlt. rewrite handleDeleteDevice_delete.
    apply length_delete, lookup_lt_is_Some. exact Hlt.
Qed.

Lemma registry_nonempty_except_remove_witness :
  length (edit_devices (mkDeviceEdit ["PC"; "Tablet"] None None))
    = length ["Phone"; "Tablet"] /\
  length (press OkButton (handleDeleteDevice 0 ["Phone"]) ["Phone"])
    = length ["Phone"] - 1.
Proof.
  destruct registry_nonempty_except_remove as (_ & _ & Hrename & Hremove).
  split.
  - apply (Hrename 0 " PC " ["Phone"; "Tablet"]). reflexivity.
  - apply (Hremove 0 ["Phone"]). simpl. lia.
Defined.

(** ** Numbers *)

Local Open Scope Z_scope.

Lemma number_eqb_eq (x y : number) : number_eqb x y = true -> x = y.
Proof.
  destruct x as [z|s m e|s|], y as [z'|s' m' e'|s'|]; simpl;
    try discriminate; try reflexivity.
  - intros Hs. apply Bool.eqb_prop in Hs. congruence.
  - intros H. apply andb_true_iff in H as [H He].
    apply andb_true_iff in H as [Hs Hm].
    apply Bool.eqb_prop in Hs. apply Pos.eqb_eq in Hm. apply Z.eqb_eq in He.
    congruence.
  - intros Hs. apply Bool.eqb_prop in Hs. congruence.
Qed.

(** The two members of a scaled fraction are positive. *)
Lemma scale_pos (base a b q : Z) :
  0 < base -> 0 < a -> 0 < b ->
  0 < fst (scale base a b q) /\ 0 < snd (scale base a b q).
Proof.
  intros Hbase Ha Hb. unfold scale. destruct (Z.leb_spec 0 q); cbn [fst snd].
  - split; [exact Ha|]. apply Z.mul_pos_pos; [exact Hb|].
    apply Z.pow_pos_nonneg; lia.
  - split; [|exact Hb]. apply Z.mul_pos_pos; [exact Ha|].
    apply Z.pow_pos_nonneg; lia.
Qed.

(** Scaling by [2^q] and by [2^e], [q <= e], differ by [2^(e - q)]. *)
Lemma scale_diff (a b q e : Z) :
  q <= e ->
  fst (scale 2 a b q) * snd (scale 2 a b e)
  = fst (scale 2 a b e) * snd (scale 2 a b q) * 2 ^ (e - q).
Proof.
  intros Hqe. unfold scale.
  destruct (Z.leb_spec 0 q), (Z.leb_spec 0 e); cbn [fst snd]; try lia.
  - replace e with (q + (e - q)) at 1 by lia.
    rewrite Z.pow_add_r by lia. ring.
  - replace (e - q) with (- q + e) by lia.
    rewrite Z.pow_add_r by lia. ring.
  - replace (- q) with (- e + (e - q)) at 1 by lia.
    rewrite Z.pow_add_r by lia. ring.
Qed.

(** [2 ^ floor_log2 a b <= a / b] *)
Lemma floor_log2_lower (a b : Z) :
  0 < a -> 0 < b ->
  snd (scale 2 a b (floor_log2 a b)) <= fst (scale 2 a b (floor_log2 a b)).
Proof.
  intros Ha Hb. unfold floor_log2. cbv zeta.
  destruct (scale 2 a b (Z.log2 a - Z.log2 b)) as [n d] eqn:Hs.
  destruct (Z.leb_spec d n) as [Hle|Hlt].
  - rewrite Hs. exact Hle.
  - clear Hs Hlt n d.
    pose proof (Z.log2_spec a Ha) as [Ha1 Ha2].
    pose proof (Z.log2_spec b Hb) as [Hb1 Hb2].
    pose proof (Z.log2_nonneg a) as Hla. pose proof (Z.log2_nonneg b) as Hlb.
    set (la := Z.log2 a) in *. set (lb := Z.log2 b) in *.
    unfold scale. destruct (Z.leb_spec 0 (la - lb - 1)); cbn [fst snd].
    + apply Z.le_trans with (2 ^ la); [|exact Ha1].
      replace la with (Z.succ lb + (la - lb - 1)) at 2 by lia.
      rewrite Z.pow_add_r by lia.
      apply Z.mul_le_mono_nonneg_r; [apply Z.pow_nonneg; lia|lia].
    + apply Z.le_trans with (2 ^ Z.succ lb); [lia|].
      replace (Z.succ lb) with (la + - (la - lb - 1)) by lia.
      rewrite Z.pow_add_r by lia.
      apply Z.mul_le_mono_nonneg_r; [apply Z.pow_nonneg; lia|exact Ha1].
Qed.

Lemma round_even_exact (d k : Z) : 0 < d -> round_even (d * k) d = k.
Proof.
  intros Hd. unfold round_even. cbv zeta.
  rewrite (Z.mul_comm d k), Z.mod_mul, Z.div_mul by lia.
  simpl. destruct d; [lia|reflexivity|lia].
Qed.

Lemma canon_odd (m : positive) (e : Z) :
  Z.odd (Zpos m) = true -> canon m e = Finite false m e.
Proof. destruct m; [reflexivity|discriminate|reflexivity]. Qed.

Lemma canon_shift (m : positive) (e : Z) (t : nat) :
  canon (Pos.shiftl_nat m t) e = canon m (e + Z.of_nat t).
Proof.
  revert e. induction t as [|t IH]; intros e.
  - simpl. rewrite Z.add_0_r. reflexivity.
  - cbn [Pos.shiftl_nat nat_rect canon]. fold (Pos.shiftl_nat m t).
    rewrite IH. f_equal. lia.
Qed.

Lemma shiftl_nat_pow (m : positive) (t : nat) :
  Zpos (Pos.shiftl_nat m t) = Zpos m * 2 ^ Z.of_nat t.
Proof.
  induction t as [|t IH]; [simpl; lia|].
  cbn [Pos.shiftl_nat nat_rect]. fold (Pos.shiftl_nat m t).
  rewrite Pos2Z.inj_xO, IH, Nat2Z.inj_succ, Z.pow_succ_r by lia. ring.
Qed.

(** Rounding a fraction whose value is the double [m * 2^e] gives that
    double. *)
Lemma round_ratio_exact (a b : Z) (m : positive) (e : Z) :
  0 < a -> 0 < b ->
  is_double (Finite false m e) = true ->
  fst (scale 2 a b e) = Zpos m * snd (scale 2 a b e) ->
  round_ratio a b = Finite false m e.
Proof.
  intros Ha Hb Hdouble Hvalue. cbn [is_double] in Hdouble.
  apply andb_true_iff in Hdouble as [Hdouble Hmax].
  apply andb_true_iff in Hdouble as [Hdouble Hmin].
  apply andb_true_iff in Hdouble as [Hodd Hprec].
  apply Z.ltb_lt in Hprec, Hmax. apply Z.leb_le in Hmin.
  assert (Hm : Zpos m < 2 ^ 53).
  { apply Z.log2_lt_pow2; lia. }
  destruct (scale_pos 2 a b e) as [_ Hde]; [lia..|].
  set (E := floor_log2 a b).
  destruct (scale_pos 2 a b E) as [HnE HdE]; [lia..|].
  pose proof (floor_log2_lower a b Ha Hb) as Hlow. fold E in Hlow.
  assert (HE : E <= e + 52).
  { destruct (Z.le_gt_cases E (e + 52)) as [|Hbig]; [assumption|exfalso].
    pose proof (scale_diff a b e E ltac:(lia)) as Hdiff.
    rewrite Hvalue in Hdiff.
    assert (Hpow : 2 ^ 53 <= 2 ^ (E - e))
      by (apply Z.pow_le_mono_r; lia).
    assert (H1 : snd (scale 2 a b e) * snd (scale 2 a b E) * 2 ^ (E - e)
                 <= fst (scale 2 a b E) * snd (scale 2 a b e) * 2 ^ (E - e)).
    { apply Z.mul_le_mono_nonneg_r; [apply Z.pow_nonneg; lia|].
      rewrite (Z.mul_comm (fst _)).
      apply Z.mul_le_mono_nonneg_l; [lia|exact Hlow]. }
    rewrite <- Hdiff in H1.
    assert (H2 : 2 ^ (E - e) <= Zpos m).
    { apply Z.mul_le_mono_pos_l
        with (p := snd (scale 2 a b e) * snd (scale 2 a b E)).
      - apply Z.mul_pos_pos; assumption.
      - lia. }
    lia. }
  unfold round_ratio. cbv zeta. fold E.
  set (q := Z.max (E - 52) (-1074)).
  assert (Hq : q <= e) by (unfold q; lia).
  destruct (scale_pos 2 a b q) as [_ Hdq]; [lia..|].
  pose proof (scale_diff a b q e Hq) as Hdiff. rewrite Hvalue in Hdiff.
  destruct (scale 2 a b q) as [n d] eqn:Hs. cbn [fst snd] in Hdiff, Hdq.
  assert (Hn : n = d * (Zpos m * 2 ^ (e - q))).
  { apply Z.mul_cancel_r with (p := snd (scale 2 a b e)); [lia|].
    rewrite Hdiff. ring. }
  rewrite Hn, round_even_exact by exact Hdq.
  replace (e - q) with (Z.of_nat (Z.to_nat (e - q))) by lia.
  rewrite <- shiftl_nat_pow. cbn [of_scaled].
  rewrite shiftl_nat_pow, Z.log2_mul_pow2 by lia.
  destruct (Z.leb_spec 1024 (Z.of_nat (Z.to_nat (e - q)) + Z.log2 (Zpos m) + q));
    [lia|].
  rewrite canon_shift, canon_odd by exact Hodd. f_equal. lia.
Qed.

Lemma signed_signed (s s' : bool) (x : number) :
  signed s (signed s' x) = signed s x.
Proof. destruct x; reflexivity. Qed.

Lemma number_of_decimal_signed (negative : bool) (s : N) (p : Z) :
  number_of_decimal negative s p
  = signed negative (number_of_decimal false s p).
Proof.
  unfold number_of_decimal. destruct s; [reflexivity|].
  destruct (scale 10 _ 1 (- p)) as [a b]. rewrite signed_signed. reflexivity.
Qed.

(** The exact decimal expansion of a double is read as that double. *)
Lemma exact_decimal_round (m : positive) (e : Z) :
  is_double (Finite false m e) = true ->
  number_of_decimal false (fst (exact_decimal m e)) (snd (exact_decimal m e))
  = Finite false m e.
Proof.
  intros Hdouble. unfold exact_decimal.
  destruct (Z.leb_spec 0 e) as [He|He]; cbn [fst snd].
  - assert (Hpos : 0 < Zpos m * 2 ^ e)
      by (apply Z.mul_pos_pos; [lia|apply Z.pow_pos_nonneg; lia]).
    unfold number_of_decimal.
    destruct (Z.to_N (Zpos m * 2 ^ e)) as [|s] eqn:Hs; [lia|].
    rewrite <- Hs, Z2N.id by lia. unfold scale at 1.
    change (0 <=? - 0) with true. cbv iota.
    rewrite (round_ratio_exact _ _ m e); [reflexivity| | |exact Hdouble|].
    + exact Hpos.
    + reflexivity.
    + change (1 * 10 ^ (- 0)) with 1. unfold scale.
      destruct (Z.leb_spec 0 e); [|lia]. cbn [fst snd]. ring.
  - assert (Hpos : 0 < Zpos m * 5 ^ (- e))
      by (apply Z.mul_pos_pos; [lia|apply Z.pow_pos_nonneg; lia]).
    unfold number_of_decimal.
    destruct (Z.to_N (Zpos m * 5 ^ (- e))) as [|s] eqn:Hs; [lia|].
    rewrite <- Hs, Z2N.id by lia. unfold scale at 1.
    destruct (Z.leb_spec 0 (- e)); [|lia]. rewrite Z.mul_1_l.
    rewrite (round_ratio_exact _ _ m e); [reflexivity| | |exact Hdouble|].
    + exact Hpos.
    + apply Z.pow_pos_nonneg; lia.
    + unfold scale. destruct (Z.leb_spec 0 e); [lia|]. cbn [fst snd].
      change 10 with (2 * 5). rewrite Z.pow_mul_l. ring.
Qed.

Lemma exact_decimal_pos (m : positive) (e : Z) :
  (0 < fst (exact_decimal m e))%N.
Proof.
  unfold exact_decimal. destruct (Z.leb_spec 0 e); cbn [fst].
  - assert (0 < Zpos m * 2 ^ e)
      by (apply Z.mul_pos_pos; [lia|apply Z.pow_pos_nonneg; lia]). lia.
  - assert (0 < Zpos m * 5 ^ (- e))
      by (apply Z.mul_pos_pos; [lia|apply Z.pow_pos_nonneg; lia]). lia.
Qed.

(** The digits chosen for a double are read as that double. *)
Lemma shortest_round (m : positive) (e : Z) :
  is_double (Finite false m e) = true ->
  number_of_decimal false (fst (shortest m e)) (snd (shortest m e))
  = Finite false m e.
Proof.
  intros Hdouble. unfold shortest. cbv zeta.
  destruct (scale 2 (Zpos m) 1 (- e)) as [a b].
  destruct (search 17 _ a b _ 1) as [[s p]|];
    [|apply exact_decimal_round, Hdouble].
  destruct (strip_zeros _ s p) as [s' p'].
  destruct (number_eqb _ _) eqn:Hcheck;
    [|apply exact_decimal_round, Hdouble].
  apply number_eqb_eq, Hcheck.
Qed.

Lemma shortest_pos (m : positive) (e : Z) : (0 < fst (shortest m e))%N.
Proof.
  unfold shortest. cbv zeta.
  destruct (scale 2 (Zpos m) 1 (- e)) as [a b].
  destruct (search 17 _ a b _ 1) as [[s p]|]; [|apply exact_decimal_pos].
  destruct (strip_zeros _ s p) as [s' p'].
  destruct (number_eqb _ _) eqn:Hcheck; [|apply exact_decimal_pos].
  cbn [fst]. destruct s'; [discriminate Hcheck|lia].
Qed.

(** *** Reading a number literal *)

Lemma delimited_no_digit (rest : list ascii) : delimited rest -> no_digit rest.
Proof.
  destruct rest as [|c rest]; [trivial|]. unfold delimited, number_char.
  cbn [no_digit]. destruct (digit c); [discriminate|reflexivity].
Qed.

Lemma read_digits_uint (u : Decimal.uint) (rest : list ascii) :
  no_digit rest -> read_digits (uint_chars u ++ rest) = (u, rest).
Proof.
  intros Hrest.
  induction u as [|u IH|u IH|u IH|u IH|u IH|u IH|u IH|u IH|u IH|u IH];
    cbn [uint_chars app];
    [|cbn [read_digits]; rewrite IH; reflexivity..].
  destruct rest as [|c rest]; [reflexivity|].
  cbn [read_digits]. cbn [no_digit] in Hrest. rewrite Hrest. reflexivity.
Qed.

Lemma nzhead_shape (u : Decimal.uint) :
  match Decimal.nzhead u with
  | Decimal.D0 _ => False
  | _ => True
  end.
Proof. induction u; simpl; auto. Qed.

Lemma json_int_unorm (u : Decimal.uint) : json_int (Decimal.unorm u) = true.
Proof.
  unfold Decimal.unorm. pose proof (nzhead_shape u) as H.
  destruct (Decimal.nzhead u); try reflexivity. destruct H.
Qed.

(** The decimal numeral of a natural number is a JSON integer. *)
Lemma json_int_to_uint (n : N) : json_int (N.to_uint n) = true.
Proof.
  rewrite <- (DecimalN.Unsigned.of_to n) at 1.
  rewrite DecimalN.Unsigned.to_of. apply json_int_unorm.
Qed.

Lemma uint_chars_head (u : Decimal.uint) :
  json_int u = true ->
  exists c r, uint_chars u = c :: r /\ digit c <> None.
Proof.
  destruct u; simpl; try discriminate; intros _;
    eexists _, _; (split; [reflexivity|discriminate]).
Qed.

Lemma to_uint_nonnil (n : N) : N.to_uint n <> Decimal.Nil.
Proof.
  destruct n as [|p]; [discriminate|].
  apply DecimalPos.Unsigned.to_uint_nonnil.
Qed.

Lemma read_fraction_text (frac : Decimal.uint) (rest : list ascii) :
  no_digit rest ->
  match rest with
  | c :: _ => Ascii.eqb c "."%char = false
  | [] => True
  end ->
  read_fraction (fraction_text frac ++ rest) = Some (frac, rest).
Proof.
  intros Hdigit Hpoint.
  destruct frac eqn:Hfrac;
    [destruct rest as [|c rest]; [reflexivity|];
     cbn [fraction_text app read_fraction]; rewrite Hpoint; reflexivity|..];
    rewrite <- Hfrac;
    (replace (fraction_text frac) with ("."%char :: uint_chars frac)
       by (rewrite Hfrac; reflexivity));
    cbn [app read_fraction]; rewrite Ascii.eqb_refl;
    rewrite read_digits_uint by exact Hdigit; rewrite Hfrac; reflexivity.
Qed.

Lemma read_exponent_text (exponent : option Z) (rest : list ascii) :
  delimited rest ->
  read_exponent (exponent_text exponent ++ rest)
  = Some (match exponent with Some x => x | None => 0 end, rest).
Proof.
  intros Hrest. destruct exponent as [x|].
  - cbn [exponent_text app read_exponent].
    change (Ascii.eqb "e" "e" || Ascii.eqb "e" "E")%char with true. cbv iota.
    assert (Hread :
      read_digits (uint_chars (N.to_uint (Z.to_N (Z.abs x))) ++ rest)
      = (N.to_uint (Z.to_N (Z.abs x)), rest))
      by (apply read_digits_uint, delimited_no_digit, Hrest).
    pose proof (to_uint_nonnil (Z.to_N (Z.abs x))) as Hnil.
    pose proof (DecimalN.Unsigned.of_to (Z.to_N (Z.abs x))) as Hvalue.
    destruct (Z.leb_spec 0 x) as [Hx|Hx].
    + change (Ascii.eqb "+" "+")%char with true. cbv iota.
      rewrite Hread.
      destruct (N.to_uint (Z.to_N (Z.abs x))); try contradiction;
        rewrite Hvalue; (do 2 f_equal); lia.
    + change (Ascii.eqb "-" "+")%char with false.
      change (Ascii.eqb "-" "-")%char with true. cbv iota.
      rewrite Hread.
      destruct (N.to_uint (Z.to_N (Z.abs x))); try contradiction;
        rewrite Hvalue; (do 2 f_equal); lia.
  - cbn [exponent_text app]. destruct rest as [|c rest]; [reflexivity|].
    cbn [read_exponent]. unfold delimited, number_char in Hrest.
    destruct (digit c); [discriminate|].
    apply orb_false_iff in Hrest as [Hrest HE].
    apply orb_false_iff in Hrest as [_ He].
    rewrite He, HE. reflexivity.
Qed.

(** A literal is read as the number its digits denote. *)
Lemma read_number_literal (negative : bool) (int_part frac : Decimal.uint)
    (exponent : option Z) (rest : list ascii) :
  json_int int_part = true -> delimited rest ->
  read_number (literal negative int_part frac exponent ++ rest)
  = Some (number_of_decimal negative
            (N.of_uint (Decimal.app int_part frac))
            (match exponent with Some x => x | None => 0 end
             - Z.of_nat (Decimal.nb_digits frac)), rest).
Proof.
  intros Hint Hrest. unfold literal, read_number.
  rewrite <- !app_assoc.
  set (tail := fraction_text frac ++ exponent_text exponent ++ rest).
  assert (Hsign :
    read_sign ((if negative then ["-"%char] else []) ++ uint_chars int_part
               ++ tail)
    = (negative, uint_chars int_part ++ tail)).
  { destruct negative; [reflexivity|]. cbn [app].
    destruct (uint_chars_head int_part Hint) as (c & r & -> & Hc).
    cbn [app read_sign].
    destruct (Ascii.eqb_spec c "-"%char) as [->|_]; [|reflexivity].
    contradiction Hc. reflexivity. }
  rewrite Hsign.
  assert (Htail : no_digit tail).
  { unfold tail. destruct frac; try reflexivity.
    cbn [fraction_text app]. destruct exponent; [reflexivity|].
    cbn [exponent_text app]. apply delimited_no_digit, Hrest. }
  rewrite (read_digits_uint int_part tail Htail), Hint. unfold tail.
  rewrite read_fraction_text.
  - rewrite read_exponent_text by exact Hrest. reflexivity.
  - destruct exponent; [reflexivity|]. cbn [exponent_text app].
    apply delimited_no_digit, Hrest.
  - destruct exponent; [reflexivity|]. cbn [exponent_text app].
    destruct rest as [|c rest]; [exact I|].
    unfold delimited, number_char in Hrest.
    destruct (digit c); [discriminate|].
    apply orb_false_iff in Hrest as [Hrest _].
    apply orb_false_iff in Hrest as [Hpoint _]. exact Hpoint.
Qed.

(** *** The text of a number *)

Lemma to_uint_head (s : N) :
  (0 < s)%N ->
  exists h t, DecimalFacts.to_list (N.to_uint s) = h :: t
              /\ h <> DecimalFacts.d0.
Proof.
  intros Hs. pose proof (json_int_to_uint s) as Hint.
  destruct (N.to_uint s) as [|u| | | | | | | | |] eqn:Hu;
    try discriminate Hint;
    try (eexists _, _; split; [reflexivity|discriminate]).
  destruct u; try discriminate Hint.
  change (Decimal.D0 Decimal.Nil) with (N.to_uint 0) in Hu.
  apply DecimalN.Unsigned.to_uint_inj in Hu. lia.
Qed.

Lemma json_int_head (u : Decimal.uint) (h : DecimalFacts.digits)
    (t : list DecimalFacts.digits) :
  DecimalFacts.to_list u = h :: t -> h <> DecimalFacts.d0 -> json_int u = true.
Proof.
  destruct u; cbn [DecimalFacts.to_list]; intros [= <- _] Hh;
    try reflexivity; try discriminate.
  contradiction Hh. reflexivity.
Qed.

Lemma to_list_del_tail (j : nat) (d : Decimal.uint) :
  (j <= Decimal.nb_digits d)%nat ->
  DecimalFacts.to_list (Decimal.del_tail j d)
  = firstn (Decimal.nb_digits d - j) (DecimalFacts.to_list d).
Proof.
  intros Hj. unfold Decimal.del_tail.
  rewrite DecimalFacts.rev_spec, DecimalFacts.del_head_spec_small.
  - rewrite DecimalFacts.rev_spec, List.skipn_rev, List.rev_involutive.
    rewrite <- DecimalFacts.nb_digits_spec. reflexivity.
  - rewrite DecimalFacts.rev_spec, List.length_rev.
    rewrite <- DecimalFacts.nb_digits_spec. exact Hj.
Qed.

(** The first digits of the numeral of a positive number are a JSON
    integer. *)
Lemma json_int_del_tail (s : N) (j : nat) :
  (0 < s)%N -> (j < Decimal.nb_digits (N.to_uint s))%nat ->
  json_int (Decimal.del_tail j (N.to_uint s)) = true.
Proof.
  intros Hs Hj. destruct (to_uint_head s Hs) as (h & t & Hl & Hh).
  apply (json_int_head _ h (firstn (Decimal.nb_digits (N.to_uint s) - j - 1) t));
    [|exact Hh].
  rewrite to_list_del_tail, Hl by lia.
  destruct (Decimal.nb_digits (N.to_uint s) - j)%nat as [|i] eqn:Hi; [lia|].
  cbn [firstn]. do 2 f_equal. lia.
Qed.

Lemma json_int_app (s : N) (d : Decimal.uint) :
  (0 < s)%N -> json_int (Decimal.app (N.to_uint s) d) = true.
Proof.
  intros Hs. destruct (to_uint_head s Hs) as (h & t & Hl & Hh).
  apply (json_int_head _ h (t ++ DecimalFacts.to_list d)); [|exact Hh].
  rewrite DecimalFacts.app_spec, Hl. reflexivity.
Qed.

Lemma iter_mul_10 (n : nat) (x : Z) :
  Nat.iter n (Z.mul 10) x = x * 10 ^ Z.of_nat n.
Proof.
  induction n as [|n IH]; [simpl; lia|].
  cbn [Nat.iter nat_rect]. fold (Nat.iter n (Z.mul 10) x).
  rewrite IH, Nat2Z.inj_succ, Z.pow_succ_r by lia. ring.
Qed.

Lemma of_uint_zeros (d : Decimal.uint) (n : nat) :
  Z.of_N (N.of_uint (Decimal.app d (Nat.iter n Decimal.D0 Decimal.Nil)))
  = Z.of_N (N.of_uint d) * 10 ^ Z.of_nat n.
Proof.
  pose proof (DecimalZ.of_uint_iter_D0 d n) as H.
  unfold Z.of_uint in H. unfold N.of_uint. rewrite H. apply iter_mul_10.
Qed.

Lemma of_uint_leading_zeros (d : Decimal.uint) (n : nat) :
  N.of_uint (Decimal.D0 (Nat.iter n Decimal.D0 d)) = N.of_uint d.
Proof. induction n as [|n IH]; [reflexivity|exact IH]. Qed.

(** Zeros after the digits count as a decimal exponent. *)
Lemma number_of_decimal_zeros (negative : bool) (s s' : N) (p : Z) :
  0 <= p -> Z.of_N s' = Z.of_N s * 10 ^ p ->
  number_of_decimal negative s' 0 = number_of_decimal negative s p.
Proof.
  intros Hp Hs'. unfold number_of_decimal.
  assert (Hpow : 0 < 10 ^ p) by (apply Z.pow_pos_nonneg; lia).
  destruct s as [|s]; [destruct s'; [reflexivity|lia]|].
  destruct s' as [|s']; [lia|].
  assert (Heq : scale 10 (Z.of_N (Npos s')) 1 (- 0)
                = scale 10 (Z.of_N (Npos s)) 1 (- p)).
  { rewrite Hs'. unfold scale. change (0 <=? - 0) with true. cbv iota.
    change (1 * 10 ^ (- 0)) with 1.
    destruct (Z.leb_spec 0 (- p)).
    - replace p with 0 by lia. f_equal. simpl. lia.
    - rewrite Z.opp_involutive. reflexivity. }
  rewrite Heq. reflexivity.
Qed.

(** The text of [s * 10^p] is a literal whose digits denote [s * 10^p]. *)
Lemma number_text_literal (negative : bool) (s : N) (p : Z) :
  (0 < s)%N ->
  exists int_part frac exponent,
    number_text negative s p = literal negative int_part frac exponent /\
    json_int int_part = true /\
    number_of_decimal negative
      (N.of_uint (Decimal.app int_part frac))
      (match exponent with Some x => x | None => 0 end
       - Z.of_nat (Decimal.nb_digits frac))
    = number_of_decimal negative s p.
Proof.
  intros Hs. unfold number_text. cbv zeta.
  pose proof (DecimalN.Unsigned.of_to s) as Hvalue.
  pose proof (to_uint_nonnil s) as Hnil.
  set (ds := N.to_uint s) in *. set (k := Decimal.nb_digits ds).
  assert (Hk : (0 < k)%nat).
  { unfold k. destruct ds; [contradiction|simpl; lia..]. }
  destruct ((Z.of_nat k <=? p + Z.of_nat k) && (p + Z.of_nat k <=? 21))
    eqn:Hplain.
  { apply andb_true_iff in Hplain as [Hp _]. apply Z.leb_le in Hp.
    eexists _, _, _. split; [reflexivity|].
    split; [apply json_int_app, Hs|].
    rewrite DecimalFacts.app_nil_r. cbn [Decimal.nb_digits].
    apply number_of_decimal_zeros; [lia|].
    rewrite of_uint_zeros, Hvalue, Z2Nat.id by lia. reflexivity. }
  destruct ((0 <? p + Z.of_nat k) && (p + Z.of_nat k <=? 21)) eqn:Hpoint.
  { apply andb_false_iff in Hplain.
    apply andb_true_iff in Hpoint as [Hn Hn21].
    apply Z.ltb_lt in Hn. apply Z.leb_le in Hn21.
    assert (Hp : p < 0).
    { destruct Hplain as [H|H]; [apply Z.leb_gt in H|apply Z.leb_gt in H];
        lia. }
    assert (Hsplit : Z.to_nat (p + Z.of_nat k) = (k - Z.to_nat (- p))%nat)
      by lia.
    rewrite Hsplit. eexists _, _, _. split; [reflexivity|].
    split; [apply json_int_del_tail; [exact Hs|fold ds; fold k; lia]|].
    unfold k at 1 2. rewrite DecimalFacts.app_del_tail_head by (fold k; lia).
    rewrite DecimalFacts.nb_digits_del_head_sub by (fold k; lia).
    rewrite Hvalue. f_equal. lia. }
  destruct ((-6 <? p + Z.of_nat k) && (p + Z.of_nat k <=? 0)) eqn:Hsmall.
  { apply andb_true_iff in Hsmall as [Hn6 Hn0].
    apply Z.ltb_lt in Hn6. apply Z.leb_le in Hn0.
    eexists _, _, _. split; [reflexivity|]. split; [reflexivity|].
    change (Decimal.app (Decimal.D0 Decimal.Nil) ?d) with (Decimal.D0 d).
    rewrite of_uint_leading_zeros, Hvalue, DecimalFacts.nb_digits_iter_D0.
    fold k. f_equal. lia. }
  eexists _, _, _. split; [reflexivity|].
  split; [apply json_int_del_tail; [exact Hs|fold ds; fold k; lia]|].
  assert (Hone : (k - (k - 1))%nat = 1%nat) by lia.
  pose proof (DecimalFacts.app_del_tail_head (k - 1) ds) as Happ.
  pose proof (DecimalFacts.nb_digits_del_head_sub ds (k - 1)) as Hnb.
  fold k in Happ, Hnb. rewrite Hone in Happ, Hnb.
  rewrite Happ, Hnb, Hvalue by lia. f_equal. lia.
Qed.

(** The text of [s * 10^p] is read as the number nearest to it. *)
Lemma read_number_text (negative : bool) (s : N) (p : Z) (rest : list ascii) :
  (0 < s)%N -> delimited rest ->
  read_number (number_text negative s p ++ rest)
  = Some (number_of_decimal negative s p, rest).
Proof.
  intros Hs Hrest.
  destruct (number_text_literal negative s p Hs)
    as (int_part & frac & exponent & -> & Hint & <-).
  apply read_number_literal; assumption.
Qed.

(** What the text of a number is read as. *)
Lemma read_print_number (x : number) (rest : list ascii) :
  is_finite x = true -> delimited rest ->
  read_number (print_number x ++ rest)
  = Some (match x with
          | Zero _ => Zero false
          | Finite negative m e =>
              number_of_decimal negative (fst (shortest m e))
                (snd (shortest m e))
          | _ => x
          end, rest).
Proof.
  intros Hfinite Hrest. destruct x as [z|negative m e| |]; try discriminate.
  - exact (read_number_literal false (Decimal.D0 Decimal.Nil) Decimal.Nil None
             rest eq_refl Hrest).
  - cbn [print_number]. pose proof (shortest_pos m e) as Hpos.
    destruct (shortest m e) as [s p]. apply read_number_text; assumption.
Qed.

(** A number that JSON keeps is finite. *)
Lemma kept_finite (x : number) : kept x = true -> is_finite x = true.
Proof. destruct x; simpl; congruence. Qed.

(** A double that JSON keeps is read back from its text. *)
Lemma read_print_double (x : number) (rest : list ascii) :
  kept x = true -> delimited rest ->
  read_number (print_number x ++ rest) = Some (x, rest).
Proof.
  intros Hkept Hrest.
  rewrite read_print_number by (try apply kept_finite; assumption).
  destruct x as [[]|negative m e| |]; try discriminate; try reflexivity.
  rewrite number_of_decimal_signed, shortest_round by exact Hkept.
  reflexivity.
Qed.

(** The negative zero is read back as zero. *)
Lemma read_print_negative_zero (rest : list ascii) :
  delimited rest ->
  read_number (print_number (Zero true) ++ rest) = Some (Zero false, rest).
Proof. intros Hrest. apply (read_print_number (Zero true)); auto. Qed.

(** The text of a finite number starts with a digit or a minus sign. *)
Lemma print_number_head_finite (x : number) :
  is_finite x = true ->
  exists c r, print_number x = c :: r /\ (digit c <> None \/ c = "-"%char).
Proof.
  intros Hfinite. destruct x as [z|negative m e| |]; try discriminate.
  - eexists _, _. split; [reflexivity|left; discriminate].
  - cbn [print_number]. pose proof (shortest_pos m e) as Hpos.
    destruct (shortest m e) as [s p].
    destruct (number_text_literal negative s p Hpos)
      as (int_part & frac & exponent & -> & Hint & _).
    unfold literal. destruct negative.
    + eexists _, _. split; [reflexivity|auto].
    + destruct (uint_chars_head int_part Hint) as (c & r & -> & Hc).
      eexists _, _. split; [reflexivity|auto].
Qed.

Lemma print_number_head (x : number) :
  exists c r, print_number x = c :: r /\
              (digit c <> None \/ c = "-"%char \/ c = "n"%char).
Proof.
  destruct (is_finite x) eqn:Hfinite.
  - destruct (print_number_head_finite x Hfinite) as (c & r & Hc & [H|H]);
      eauto 6.
  - destruct x; try discriminate; eexists _, _; (split; [reflexivity|auto]).
Qed.

(** *** Every number that is read is a double *)

(** [a / b < 2 ^ (floor_log2 a b + 1)] *)
Lemma floor_log2_upper (a b : Z) :
  0 < a -> 0 < b ->
  fst (scale 2 a b (floor_log2 a b)) < 2 * snd (scale 2 a b (floor_log2 a b)).
Proof.
  intros Ha Hb. unfold floor_log2. cbv zeta.
  destruct (scale 2 a b (Z.log2 a - Z.log2 b)) as [n d] eqn:Hs.
  destruct (Z.leb_spec d n) as [Hle|Hlt].
  - rewrite Hs. cbn [fst snd]. clear Hle.
    pose proof (Z.log2_spec a Ha) as [Ha1 Ha2].
    pose proof (Z.log2_spec b Hb) as [Hb1 Hb2].
    pose proof (Z.log2_nonneg a) as Hla. pose proof (Z.log2_nonneg b) as Hlb.
    set (la := Z.log2 a) in *. set (lb := Z.log2 b) in *.
    unfold scale in Hs. destruct (Z.leb_spec 0 (la - lb));
      injection Hs as <- <-.
    + apply Z.lt_le_trans with (2 ^ Z.succ la); [exact Ha2|].
      replace (Z.succ la) with (1 + (lb + (la - lb))) by lia.
      rewrite !Z.pow_add_r by lia. change (2 ^ 1) with 2.
      apply Z.mul_le_mono_nonneg_l; [lia|].
      apply Z.mul_le_mono_nonneg_r; [apply Z.pow_nonneg; lia|exact Hb1].
    + apply Z.lt_le_trans with (2 ^ Z.succ la * 2 ^ (- (la - lb))).
      * apply Z.mul_lt_mono_pos_r; [apply Z.pow_pos_nonneg; lia|exact Ha2].
      * rewrite <- Z.pow_add_r by lia.
        replace (Z.succ la + - (la - lb)) with (1 + lb) by lia.
        rewrite Z.pow_add_r by lia. change (2 ^ 1) with 2. lia.
  - pose proof (scale_diff a b (Z.log2 a - Z.log2 b - 1)
                  (Z.log2 a - Z.log2 b) ltac:(lia)) as Hdiff.
    rewrite Hs in Hdiff. cbn [fst snd] in Hdiff.
    replace (Z.log2 a - Z.log2 b - (Z.log2 a - Z.log2 b - 1)) with 1
      in Hdiff by lia.
    change (2 ^ 1) with 2 in Hdiff.
    destruct (scale_pos 2 a b (Z.log2 a - Z.log2 b)) as [Hn Hd]; [lia..|].
    rewrite Hs in Hn, Hd. cbn [fst snd] in Hn, Hd.
    destruct (scale_pos 2 a b (Z.log2 a - Z.log2 b - 1)) as [Hn' Hd'];
      [lia..|].
    apply Z.mul_lt_mono_pos_r with (p := d); [exact Hd|]. nia.
Qed.

Lemma round_even_bounds (n d : Z) :
  0 <= n -> 0 < d -> 0 <= round_even n d <= n / d + 1.
Proof.
  intros Hn Hd. unfold round_even. cbv zeta.
  pose proof (Z.div_pos n d Hn Hd).
  destruct (2 * (n mod d) ?= d); [destruct (Z.even (n / d))|..]; lia.
Qed.

(** The shape of [canon]: the odd mantissa and the zeros taken off. *)
Lemma canon_spec (m : positive) (e : Z) :
  exists (m' : positive) (t : nat),
    canon m e = Finite false m' (e + Z.of_nat t) /\
    Zpos m = Zpos m' * 2 ^ Z.of_nat t /\ Z.odd (Zpos m') = true.
Proof.
  revert e. induction m as [m IH|m IH|]; intros e.
  - exists (xI m), 0%nat. cbn [canon]. rewrite Z.add_0_r.
    split; [reflexivity|]. split; [simpl; lia|reflexivity].
  - destruct (IH (e + 1)) as (m' & t & Hc & Hm & Hodd).
    exists m', (S t). cbn [canon]. rewrite Hc. split; [f_equal; lia|].
    split; [|exact Hodd].
    rewrite Pos2Z.inj_xO, Hm, Nat2Z.inj_succ, Z.pow_succ_r by lia. ring.
  - exists xH, 0%nat. cbn [canon]. rewrite Z.add_0_r.
    split; [reflexivity|]. split; reflexivity.
Qed.

Lemma of_scaled_double (k q : Z) :
  0 <= k <= 2 ^ 53 -> -1074 <= q -> is_double (of_scaled k q) = true.
Proof.
  intros Hk Hq. unfold of_scaled. destruct k as [|m|m]; try reflexivity.
  destruct (Z.leb_spec 1024 (Z.log2 (Zpos m) + q)) as [|Hmax]; [reflexivity|].
  destruct (canon_spec m q) as (m' & t & -> & Hm & Hodd).
  cbn [is_double]. rewrite Hodd. cbn [andb].
  assert (Hlog : Z.log2 (Zpos m) = Z.of_nat t + Z.log2 (Zpos m'))
    by (rewrite Hm; apply Z.log2_mul_pow2; lia).
  assert (Hprec : Z.log2 (Zpos m') < 53).
  { apply Z.log2_lt_pow2; [lia|].
    destruct (Z.lt_ge_cases (Zpos m') (2 ^ 53)) as [|Hbig]; [assumption|].
    exfalso.
    assert (Hpow : 1 <= 2 ^ Z.of_nat t) by (apply Z.pow_le_mono_r with (b := 0); lia).
    assert (Zpos m' = 2 ^ 53) by nia.
    rewrite H in Hodd. discriminate Hodd. }
  apply andb_true_iff. split; [apply andb_true_iff; split|].
  - apply Z.ltb_lt, Hprec.
  - apply Z.leb_le. lia.
  - apply Z.ltb_lt. lia.
Qed.

(** The nearest double is a double. *)
Lemma round_ratio_double (a b : Z) :
  0 < a -> 0 < b -> is_double (round_ratio a b) = true.
Proof.
  intros Ha Hb. unfold round_ratio. cbv zeta.
  set (E := floor_log2 a b). set (q := Z.max (E - 52) (-1074)).
  pose proof (floor_log2_upper a b Ha Hb) as Hup. fold E in Hup.
  destruct (scale_pos 2 a b E) as [HnE HdE]; [lia..|].
  destruct (scale_pos 2 a b q) as [Hnq Hdq]; [lia..|].
  destruct (scale 2 a b q) as [n d] eqn:Hs. cbn [fst snd] in Hnq, Hdq.
  apply of_scaled_double; [|unfold q; lia].
  pose proof (round_even_bounds n d ltac:(lia) Hdq) as [Hlow Hhigh].
  split; [exact Hlow|].
  assert (Hdiv : n / d < 2 ^ 53); [|lia].
  apply Z.div_lt_upper_bound; [exact Hdq|].
  destruct (Z.le_gt_cases q E) as [HqE|HqE].
  - pose proof (scale_diff a b q E HqE) as Hdiff.
    rewrite Hs in Hdiff. cbn [fst snd] in Hdiff.
    assert (Hpow : 0 < 2 ^ (E - q) /\ 2 * 2 ^ (E - q) <= 2 ^ 53).
    { split; [apply Z.pow_pos_nonneg; lia|].
      rewrite <- Z.pow_succ_r by lia. apply Z.pow_le_mono_r; unfold q; lia. }
    destruct Hpow as [Hpos Hpow].
    set (X := 2 ^ (E - q)) in *. set (nE := fst (scale 2 a b E)) in *.
    set (dE := snd (scale 2 a b E)) in *.
    assert (H1 : nE * X < 2 * dE * X)
      by (apply Z.mul_lt_mono_pos_r; assumption).
    assert (H2 : 2 * dE * X <= dE * 2 ^ 53).
    { replace (2 * dE * X) with (dE * (2 * X)) by ring.
      apply Z.mul_le_mono_nonneg_l; lia. }
    apply Z.mul_lt_mono_pos_r with (p := dE); [exact HdE|].
    rewrite Hdiff.
    replace (nE * d * X) with (nE * X * d) by ring.
    replace (d * 2 ^ 53 * dE) with (dE * 2 ^ 53 * d) by ring.
    apply Z.mul_lt_mono_pos_r; [exact Hdq|lia].
  - pose proof (scale_diff a b E q ltac:(lia)) as Hdiff.
    rewrite Hs in Hdiff. cbn [fst snd] in Hdiff.
    assert (Hpow : 2 ^ 1 <= 2 ^ (q - E)) by (apply Z.pow_le_mono_r; lia).
    change (2 ^ 1) with 2 in Hpow.
    assert (H53 : 1 <= 2 ^ 53) by (apply Z.pow_le_mono_r with (b := 0); lia).
    set (X := 2 ^ (q - E)) in *. set (nE := fst (scale 2 a b E)) in *.
    set (dE := snd (scale 2 a b E)) in *.
    assert (H1 : n * dE * X < 2 * dE * d) by (rewrite <- Hdiff; nia).
    assert (H2 : n * dE * 2 <= n * dE * X)
      by (apply Z.mul_le_mono_nonneg_l; nia).
    assert (H3 : n * dE < dE * d) by lia.
    assert (H4 : n < d) by nia.
    nia.
Qed.

Lemma is_double_signed (negative : bool) (x : number) :
  is_double (signed negative x) = is_double x.
Proof. destruct x; reflexivity. Qed.

(** The number a decimal numeral denotes is a double. *)
Lemma number_of_decimal_double (negative : bool) (s : N) (p : Z) :
  is_double (number_of_decimal negative s p) = true.
Proof.
  unfold number_of_decimal. destruct s as [|s]; [reflexivity|].
  destruct (scale_pos 10 (Z.of_N (Npos s)) 1 (- p)) as [Ha Hb]; [lia..|].
  destruct (scale 10 _ 1 (- p)) as [a b]. rewrite is_double_signed.
  apply round_ratio_double; assumption.
Qed.

Lemma read_number_double (s : list ascii) (x : number) (r : list ascii) :
  read_number s = Some (x, r) -> is_double x = true.
Proof.
  unfold read_number. destruct (read_sign s) as [negative s1].
  destruct (read_digits s1) as [int_part s2].
  destruct (json_int int_part); [|discriminate].
  destruct (read_fraction s2) as [[frac s3]|]; [|discriminate].
  destruct (read_exponent s3) as [[e s4]|]; [|discriminate].
  intros [= <- _]. apply number_of_decimal_double.
Qed.

(** An integer that 53 bits hold is rounded to itself. *)
Lemma round_ratio_integer (p : positive) :
  Zpos p < 2 ^ 53 ->
  exists m e, round_ratio (Zpos p) 1 = Finite false m e
              /\ is_double (Finite false m e) = true.
Proof.
  intros Hp. destruct (canon_spec p 0) as (m & t & _ & Hm & Hodd).
  exists m, (Z.of_nat t).
  assert (Hdouble : is_double (Finite false m (Z.of_nat t)) = true).
  { cbn [is_double]. rewrite Hodd. cbn [andb].
    assert (Hlog : Z.log2 (Zpos p) = Z.of_nat t + Z.log2 (Zpos m))
      by (rewrite Hm; apply Z.log2_mul_pow2; lia).
    assert (Z.log2 (Zpos p) < 53) by (apply Z.log2_lt_pow2; lia).
    apply andb_true_iff. split; [apply andb_true_iff; split|].
    - apply Z.ltb_lt. lia.
    - apply Z.leb_le. lia.
    - apply Z.ltb_lt. lia. }
  split; [|exact Hdouble].
  apply round_ratio_exact; [lia|lia|exact Hdouble|].
  unfold scale. destruct (Z.leb_spec 0 (Z.of_nat t)); [|lia].
  cbn [fst snd]. rewrite Hm. ring.
Qed.

(** An integer below [2^53] in size is a double, and one that JSON
    keeps. *)
Lemma number_of_Z_double (n : Z) :
  Z.abs n < 2 ^ 53 ->
  is_finite (number_of_Z n) = true /\ is_double (number_of_Z n) = true.
Proof.
  intros Hn. destruct n as [|p|p]; [split; reflexivity|..];
    cbn [number_of_Z].
  - destruct (round_ratio_integer p Hn) as (m & e & -> & Hd).
    split; [reflexivity|exact Hd].
  - destruct (round_ratio_integer p Hn) as (m & e & -> & Hd).
    split; [reflexivity|exact Hd].
Qed.

Lemma number_of_Z_kept (n : Z) :
  Z.abs n < 2 ^ 53 -> kept (number_of_Z n) = true.
Proof.
  intros Hn. destruct n as [|p|p]; [reflexivity|..]; cbn [number_of_Z].
  - destruct (round_ratio_integer p Hn) as (m & e & -> & Hd). exact Hd.
  - destruct (round_ratio_integer p Hn) as (m & e & -> & Hd). exact Hd.
Qed.

Local Close Scope Z_scope.

(** ** Facts about the JSON reader *)

Lemma skip_ws_head (s : list ascii) (c : ascii) (r : list ascii) :
  skip_ws s = c :: r -> json_space c = false.
Proof.
  induction s as [|a s IH]; simpl; [discriminate|].
  destruct (json_space a) eqn:Ha; [exact IH|].
  intros [= <- _]. exact Ha.
Qed.

(** A value starts, after white space, with an ASCII character that
    [trim] does not strip. *)
Lemma parse_value_start (fuel : nat) (s : list ascii) (v : json)
    (r : list ascii) :
  parse_value fuel s = Some (v, r) ->
  exists c r0, skip_ws s = c :: r0 /\
    space1 c = false /\ (N_of_ascii c <? 128)%N = true.
Proof.
  destruct fuel as [|fuel]; [discriminate|]. simpl.
  destruct (skip_ws s) as [|c r0] eqn:Hs; [discriminate|].
  intros H. exists c, r0. split; [reflexivity|].
  apply skip_ws_head in Hs.
  destruct c as [[] [] [] [] [] [] [] []];
    first [ split; reflexivity
          | discriminate Hs
          | exfalso; vm_compute in H; discriminate H ].
Qed.

Lemma json_space_space1 (c : ascii) : json_space c = true -> space1 c = true.
Proof.
  destruct c as [[] [] [] [] [] [] [] []]; first [reflexivity|discriminate].
Qed.

Lemma trimStart_stop (c : ascii) (r : string) :
  space1 c = false -> (N_of_ascii c <? 128)%N = true ->
  trimStart (String c r) = String c r.
Proof.
  intros Hs Hlt.
  destruct c as [[] [] [] [] [] [] [] []]; try discriminate Hs;
    try discriminate Hlt;
    destruct r as [|c2 [|c3 r3]]; reflexivity.
Qed.

Lemma trimStart_skip_ws (s : list ascii) :
  trimStart (string_of_list_ascii s)
  = trimStart (string_of_list_ascii (skip_ws s)).
Proof.
  induction s as [|c s IH]; [reflexivity|].
  cbn [skip_ws]. destruct (json_space c) eqn:Hc; [|reflexivity].
  cbn [string_of_list_ascii trimStart].
  rewrite (json_space_space1 _ Hc). exact IH.
Qed.

(** A text that parses is not blank. *)
Lemma JSON_parse_not_blank (text : string) (v : json) :
  JSON_parse text = Some v -> truthy_string (trim text) = true.
Proof.
  unfold JSON_parse. cbv zeta.
  destruct (parse_value _ _) as [[v0 r]|] eqn:Hp; [|discriminate].
  intros _. destruct (parse_value_start _ _ _ _ Hp) as (c & r0 & Hs & Hc & Hlt).
  unfold trim.
  rewrite <- (string_of_list_ascii_of_string text), trimStart_skip_ws, Hs.
  cbn [string_of_list_ascii]. rewrite (trimStart_stop _ _ Hc Hlt).
  cbn [trimEnd]. rewrite (trimStart_stop _ _ Hc Hlt). reflexivity.
Qed.

(** ** [JSON.parse] inverts [JSON.stringify] *)

Lemma json_ind (P : json -> Prop) :
  P JNull ->
  (forall b, P (JBool b)) ->
  (forall n, P (JNum n)) ->
  (forall s, P (JStr s)) ->
  (forall vs, Forall P vs -> P (JArr vs)) ->
  (forall ms, Forall (fun m => P (snd m)) ms -> P (JObj ms)) ->
  forall v, P v.
Proof.
  intros Hnull Hbool Hnum Hstr Harr Hobj.
  fix IH 1.
  intros [| b | n | s | vs | ms];
    [exact Hnull|apply Hbool|apply Hnum|apply Hstr| |].
  - apply Harr. induction vs as [|v vs IHvs]; constructor; [apply IH|exact IHvs].
  - apply Hobj. induction ms as [|m ms IHms]; constructor; [apply IH|exact IHms].
Qed.

(** *** White space *)

Lemma skip_ws_spaces (n : nat) (s : list ascii) :
  skip_ws (repeat " "%char n ++ s) = skip_ws s.
Proof. induction n as [|n IH]; [reflexivity|exact IH]. Qed.

Lemma skip_ws_indent (depth : nat) (s : list ascii) :
  skip_ws (newline_indent depth ++ s) = skip_ws s.
Proof. unfold newline_indent. cbn [app skip_ws]. apply skip_ws_spaces. Qed.

Lemma skip_ws_stop (c : ascii) (r : list ascii) :
  json_space c = false -> skip_ws (c :: r) = c :: r.
Proof. intros H. cbn [skip_ws]. rewrite H. reflexivity. Qed.

(** The reader looks at a text only after its leading white space. *)
Lemma parse_value_skip (fuel : nat) (s s' : list ascii) :
  skip_ws s = skip_ws s' -> parse_value fuel s = parse_value fuel s'.
Proof. intros H. destruct fuel; [reflexivity|]. simpl. rewrite H. reflexivity. Qed.

(** *** Strings *)

Lemma parse_chars_quote_char (c : ascii) (rest : list ascii) :
  parse_chars (quote_char c ++ rest) = prepend [c] (parse_chars rest).
Proof.
  destruct c as [[] [] [] [] [] [] [] []]; try reflexivity;
    destruct rest as [|b [|u [|l1 [|l2 [|l3 [|l4 r3]]]]]]; reflexivity.
Qed.

(** A byte that is not ASCII stands for itself. *)
Lemma parse_chars_byte (c : ascii) (rest : list ascii) :
  (128 <=? N_of_ascii c)%N = true ->
  parse_chars (c :: rest) = prepend [c] (parse_chars rest).
Proof.
  destruct c as [[] [] [] [] [] [] [] []]; first [discriminate|reflexivity].
Qed.

(** The escape of a surrogate is read as its code, and the code is
    written as the three bytes it came from. *)
Lemma surrogate_table :
  forallb (fun a =>
    forallb (fun b =>
      let cp := (55296 + (a - 160) * 64 + (b - 128))%N in
      match hex4 (hex_digit (cp / 4096)) (hex_digit ((cp / 256) mod 16))
              (hex_digit ((cp / 16) mod 16)) (hex_digit (cp mod 16)) with
      | Some x => (x =? cp)%N
      | None => false
      end
      && match utf8_encode cp with
         | [x; y; z] =>
             (N_of_ascii x =? 237)%N && (N_of_ascii y =? a)%N
             && (N_of_ascii z =? b)%N
         | _ => false
         end)
      (map N.of_nat (seq 128 64)))
    (map N.of_nat (seq 160 32)) = true.
Proof. vm_compute. reflexivity. Qed.

Lemma surrogate_of_spec (c1 c2 c3 : ascii) (cp : N) :
  surrogate_of c1 c2 c3 = Some cp ->
  hex4 (hex_digit (cp / 4096)) (hex_digit ((cp / 256) mod 16))
    (hex_digit ((cp / 16) mod 16)) (hex_digit (cp mod 16)) = Some cp /\
  utf8_encode cp = [c1; c2; c3] /\
  (128 <=? N_of_ascii c1)%N = true /\
  (128 <=? N_of_ascii c2)%N = true /\
  (128 <=? N_of_ascii c3)%N = true.
Proof.
  unfold surrogate_of. cbv zeta.
  destruct (_ && _) eqn:Hrange; [|discriminate]. intros [= <-].
  apply andb_true_iff in Hrange as [Hrange Hb2].
  apply andb_true_iff in Hrange as [Hrange Hb1].
  apply andb_true_iff in Hrange as [Hrange Ha2].
  apply andb_true_iff in Hrange as [Hc1 Ha1].
  apply N.eqb_eq in Hc1. apply N.leb_le in Ha1, Ha2, Hb1, Hb2.
  set (a := N_of_ascii c2) in *. set (b := N_of_ascii c3) in *.
  pose proof surrogate_table as Htable.
  rewrite forallb_forall in Htable.
  specialize (Htable a). rewrite forallb_forall in Htable.
  assert (Hina : In a (map N.of_nat (seq 160 32))).
  { apply in_map_iff. exists (N.to_nat a). split; [lia|].
    apply in_seq. lia. }
  assert (Hinb : In b (map N.of_nat (seq 128 64))).
  { apply in_map_iff. exists (N.to_nat b). split; [lia|].
    apply in_seq. lia. }
  specialize (Htable Hina b Hinb). cbv zeta in Htable.
  apply andb_true_iff in Htable as [Hhex Hutf].
  split; [|split; [|repeat split]].
  - destruct (hex4 _ _ _ _) as [x|]; [|discriminate].
    apply N.eqb_eq in Hhex. congruence.
  - destruct (utf8_encode _) as [|x [|y [|z [|]]]]; try discriminate.
    apply andb_true_iff in Hutf as [Hutf Hz].
    apply andb_true_iff in Hutf as [Hx Hy].
    apply N.eqb_eq in Hx, Hy, Hz.
    rewrite <- (ascii_N_embedding x), <- (ascii_N_embedding y),
      <- (ascii_N_embedding z), Hx, Hy, Hz.
    unfold a, b. rewrite <- Hc1, !ascii_N_embedding. reflexivity.
  - apply N.leb_le. lia.
  - apply N.leb_le. fold a. lia.
  - apply N.leb_le. fold b. lia.
Qed.

Lemma surrogate_pair_first (hi : N) (b u l1 l2 l3 l4 : ascii) :
  Ascii.eqb b "\"%char = false -> surrogate_pair hi b u l1 l2 l3 l4 = None.
Proof.
  intros Hb. unfold surrogate_pair. rewrite Hb, andb_false_r. reflexivity.
Qed.

Lemma surrogate_pair_not_high (hi : N) (b u l1 l2 l3 l4 : ascii) :
  (hi <? 56320)%N = false -> surrogate_pair hi b u l1 l2 l3 l4 = None.
Proof.
  intros Hhi. unfold surrogate_pair. apply N.ltb_ge in Hhi.
  destruct (N.leb_spec hi 56319) as [|_]; [lia|].
  rewrite andb_false_r. reflexivity.
Qed.

Lemma parse_chars_escape (c1 c2 c3 : ascii) (cp : N) (tail : list ascii) :
  surrogate_of c1 c2 c3 = Some cp -> no_trail cp tail ->
  parse_chars (unicode_escape cp ++ tail)
  = prepend [c1; c2; c3] (parse_chars tail).
Proof.
  intros Hs Htail. destruct (surrogate_of_spec _ _ _ _ Hs) as (Hhex & Hutf & _).
  unfold unicode_escape. cbn [app parse_chars].
  change (Ascii.eqb "\" dquote) with false.
  change (Ascii.eqb "\" "\")%char with true.
  change (escape_char "u") with (@None ascii).
  change (Ascii.eqb "u" "u")%char with true. cbv iota.
  rewrite Hhex, Hutf.
  destruct tail as [|b [|u [|l1 [|l2 [|l3 [|l4 r]]]]]]; try reflexivity.
  cbn [no_trail] in Htail. rewrite Htail. reflexivity.
Qed.

Lemma no_trail_quote_char (hi : N) (c : ascii) (rest : list ascii) :
  no_trail hi (quote_char c ++ rest).
Proof.
  unfold no_trail.
  destruct c as [[] [] [] [] [] [] [] []];
    destruct rest as [|x1 [|x2 [|x3 [|x4 [|x5 r]]]]]; cbn [quote_char app];
    try exact I;
    unfold surrogate_pair;
    destruct ((55296 <=? hi)%N && (hi <=? 56319)%N); reflexivity.
Qed.

Lemma no_trail_escape (hi cp : N) (c1 c2 c3 : ascii) (rest : list ascii) :
  surrogate_of c1 c2 c3 = Some cp -> (56320 <=? cp)%N = false ->
  no_trail hi (unicode_escape cp ++ rest).
Proof.
  intros Hs Hlow. destruct (surrogate_of_spec _ _ _ _ Hs) as (Hhex & _).
  unfold unicode_escape, no_trail. cbn [app]. unfold surrogate_pair.
  rewrite Hhex, Hlow. destruct (_ && _); reflexivity.
Qed.

Lemma no_trail_byte (hi : N) (c : ascii) (rest : list ascii) :
  (128 <=? N_of_ascii c)%N = true -> no_trail hi (c :: rest).
Proof.
  intros Hc. unfold no_trail.
  destruct rest as [|x1 [|x2 [|x3 [|x4 [|x5 r]]]]]; try exact I.
  apply surrogate_pair_first.
  destruct c as [[] [] [] [] [] [] [] []]; first [discriminate|reflexivity].
Qed.

(** The case of a character that [quote_char] writes. *)
Ltac quote_char_case IH :=
  rewrite <- app_assoc, parse_chars_quote_char, IH
    by (cbn [length] in *; lia);
  reflexivity.

(** A string is read back from what [JSON.stringify] writes for it. *)
Lemma parse_chars_quoted (cs rest : list ascii) :
  parse_chars (quote_chars cs ++ dquote :: rest) = Some (cs, rest).
Proof.
  remember (length cs) as n eqn:Hn.
  assert (Hle : length cs <= n) by lia. clear Hn. revert cs Hle.
  induction n as [|n IH]; intros cs Hle.
  { destruct cs; [reflexivity|cbn [length] in Hle; lia]. }
  assert (Hstart : forall (hi : N) (r3 : list ascii),
             length r3 <= n ->
             match r3 with
             | c4 :: c5 :: c6 :: _ =>
                 match surrogate_of c4 c5 c6 with
                 | Some lo => ((hi <? 56320) && (56320 <=? lo))%N = false
                 | None => True
                 end
             | _ => True
             end ->
             no_trail hi (quote_chars r3 ++ dquote :: rest)).
  { intros hi r3 Hlen Hr3.
    destruct (hi <? 56320)%N eqn:Hhi.
    2:{ unfold no_trail.
        destruct (quote_chars r3 ++ dquote :: rest)
          as [|b [|u [|l1 [|l2 [|l3 [|l4 r]]]]]]; try exact I.
        apply surrogate_pair_not_high, Hhi. }
    destruct r3 as [|c4 r4].
    { unfold no_trail. cbn [quote_chars app].
      destruct rest as [|x1 [|x2 [|x3 [|x4 [|x5 r]]]]]; try exact I.
      apply surrogate_pair_first. reflexivity. }
    cbn [quote_chars].
    destruct r4 as [|c5 [|c6 r6]];
      try (rewrite <- app_assoc; apply no_trail_quote_char).
    destruct (surrogate_of c4 c5 c6) as [lo|] eqn:Hlo;
      [|rewrite <- app_assoc; apply no_trail_quote_char].
    cbn [andb] in Hr3.
    destruct r6 as [|c7 [|c8 [|c9 r9]]];
      try (rewrite <- app_assoc; apply (no_trail_escape _ _ _ _ _ _ Hlo Hr3)).
    destruct (surrogate_of c7 c8 c9) as [lo'|];
      [|rewrite <- app_assoc; apply (no_trail_escape _ _ _ _ _ _ Hlo Hr3)].
    destruct ((lo <? 56320)%N && (56320 <=? lo')%N);
      [|rewrite <- app_assoc; apply (no_trail_escape _ _ _ _ _ _ Hlo Hr3)].
    cbn [app]. apply no_trail_byte.
    destruct (surrogate_of_spec _ _ _ _ Hlo) as (_ & _ & H & _). exact H. }
  destruct cs as [|c1 r1]; [reflexivity|]. cbn [length] in Hle.
  cbn [quote_chars].
  destruct r1 as [|c2 [|c3 r3]]; try quote_char_case IH.
  destruct (surrogate_of c1 c2 c3) as [hi|] eqn:Hhi; [|quote_char_case IH].
  cbn [length] in Hle.
  assert (Hescape :
    (match r3 with
     | c4 :: c5 :: c6 :: _ =>
         match surrogate_of c4 c5 c6 with
         | Some lo => ((hi <? 56320) && (56320 <=? lo))%N = false
         | None => True
         end
     | _ => True
     end) ->
    parse_chars ((unicode_escape hi ++ quote_chars r3) ++ dquote :: rest)
    = Some (c1 :: c2 :: c3 :: r3, rest)).
  { intros Hr3. rewrite <- app_assoc.
    rewrite (parse_chars_escape c1 c2 c3 hi _ Hhi)
      by (apply Hstart; [lia|exact Hr3]).
    rewrite IH by lia. reflexivity. }
  destruct r3 as [|c4 [|c5 [|c6 r6]]]; try (apply Hescape; exact I).
  destruct (surrogate_of c4 c5 c6) as [lo|] eqn:Hlo;
    [|apply Hescape; exact I].
  destruct ((hi <? 56320)%N && (56320 <=? lo)%N) eqn:Hpair;
    [|apply Hescape; reflexivity].
  destruct (surrogate_of_spec _ _ _ _ Hhi) as (_ & _ & H1 & H2 & H3).
  destruct (surrogate_of_spec _ _ _ _ Hlo) as (_ & _ & H4 & H5 & H6).
  cbn [app length] in *.
  rewrite !parse_chars_byte by assumption.
  rewrite IH by lia. reflexivity.
Qed.

Lemma quote_string_app (s : string) (rest : list ascii) :
  quote_string s ++ rest
  = dquote :: quote_chars (list_ascii_of_string s) ++ dquote :: rest.
Proof.
  unfold quote_string. cbn [app]. rewrite <- app_assoc. reflexivity.
Qed.

(** *** Numbers *)

(** A text that starts with a digit or a minus sign is read as a number. *)
Lemma parse_value_number (fuel : nat) (c : ascii) (r : list ascii) :
  digit c <> None \/ c = "-"%char ->
  parse_value (S fuel) (c :: r) = parse_number (c :: r).
Proof.
  intros H.
  destruct c as [[] [] [] [] [] [] [] []];
    first [ reflexivity
          | exfalso; destruct H as [H|H]; [apply H; reflexivity|discriminate H] ].
Qed.

Lemma number_head_plain (c : ascii) :
  digit c <> None \/ c = "-"%char \/ c = "n"%char ->
  json_space c = false /\ Ascii.eqb c "]"%char = false
  /\ Ascii.eqb c "}"%char = false.
Proof.
  intros H.
  destruct c as [[] [] [] [] [] [] [] []];
    first [ repeat split; reflexivity
          | exfalso; destruct H as [H|[H|H]];
            [apply H; reflexivity|discriminate H|discriminate H] ].
Qed.

(** The text of a number is read as the number its digits denote: as
    zero for either zero, and as [null] when the number is not finite. *)
Lemma parse_value_JNum (fuel : nat) (x : number) (rest : list ascii) :
  delimited rest ->
  parse_value (S fuel) (print_number x ++ rest)
  = Some (reparsed_number x, rest).
Proof.
  intros Hrest. destruct (is_finite x) eqn:Hfinite.
  - pose proof (read_print_number x rest Hfinite Hrest) as Hread.
    destruct (print_number_head_finite x Hfinite) as (c & r & Hc & Hd).
    rewrite Hc in *. cbn [app] in *.
    rewrite parse_value_number by exact Hd. unfold parse_number.
    rewrite Hread. destruct x; try discriminate; reflexivity.
  - destruct x; try discriminate; reflexivity.
Qed.

(** *** Objects *)

Lemma member_absent (k : string) (ms : list (string * json)) :
  existsb (String.eqb k) (map fst ms) = false -> member k ms = None.
Proof.
  induction ms as [|m ms IH]; [reflexivity|]. cbn [map existsb member].
  intros H. apply orb_false_iff in H as [Hm Hms]. rewrite (IH Hms).
  rewrite String.eqb_sym, Hm. reflexivity.
Qed.

Lemma member_app (k : string) (l1 l2 : list (string * json)) :
  member k (l1 ++ l2)
  = match member k l2 with
    | Some v => Some v
    | None => member k l1
    end.
Proof.
  induction l1 as [|m l1 IH]; cbn [app member].
  - destruct (member k l2); reflexivity.
  - rewrite IH. destruct (member k l2); reflexivity.
Qed.

(** *** Defining a member *)

Lemma define_member_keys (k : string) (v : json) (ms : list (string * json)) :
  map fst (define_member k v ms)
  = if existsb (String.eqb k) (map fst ms) then map fst ms
    else map fst ms ++ [k].
Proof.
  induction ms as [|m ms IH]; [reflexivity|].
  cbn [define_member map existsb]. rewrite (String.eqb_sym k).
  destruct (String.eqb_spec (fst m) k) as [->|Hne]; [reflexivity|].
  cbn [map orb]. rewrite IH.
  destruct (existsb (String.eqb k) (map fst ms)); reflexivity.
Qed.

Lemma existsb_app_one (k k' : string) (ks : list string) :
  existsb (String.eqb k) (ks ++ [k'])
  = existsb (String.eqb k) ks || String.eqb k k'.
Proof.
  rewrite existsb_app. cbn [existsb]. rewrite orb_false_r. reflexivity.
Qed.

Lemma distinct_app_one (k : string) (ks : list string) :
  distinct ks = true -> existsb (String.eqb k) ks = false ->
  distinct (ks ++ [k]) = true.
Proof.
  induction ks as [|k' ks IH]; [reflexivity|]. cbn [distinct existsb app].
  intros Hd Hk. apply andb_true_iff in Hd as [Hk' Hd].
  apply orb_false_iff in Hk as [Hkk' Hk].
  rewrite existsb_app_one, (IH Hd Hk), andb_true_r.
  apply negb_true_iff in Hk'. rewrite Hk', String.eqb_sym, Hkk'. reflexivity.
Qed.

Lemma define_member_distinct (k : string) (v : json)
    (ms : list (string * json)) :
  distinct (map fst ms) = true ->
  distinct (map fst (define_member k v ms)) = true.
Proof.
  intros Hd. rewrite define_member_keys.
  destruct (existsb (String.eqb k) (map fst ms)) eqn:Hk; [exact Hd|].
  apply distinct_app_one; assumption.
Qed.

Lemma member_define_member (k k' : string) (v : json)
    (ms : list (string * json)) :
  distinct (map fst ms) = true ->
  member k (define_member k' v ms)
  = if String.eqb k' k then Some v else member k ms.
Proof.
  induction ms as [|m ms IH]; cbn [define_member member map distinct fst].
  - intros _. reflexivity.
  - intros Hd. apply andb_true_iff in Hd as [Hm Hd].
    apply negb_true_iff in Hm.
    destruct (String.eqb_spec (fst m) k') as [Hmk|Hne].
    + cbn [member fst snd]. subst k'.
      destruct (String.eqb_spec (fst m) k) as [<-|Hne].
      * rewrite (member_absent _ _ Hm). reflexivity.
      * reflexivity.
    + cbn [member]. rewrite (IH Hd).
      destruct (String.eqb_spec k' k) as [->|Hne']; [reflexivity|].
      reflexivity.
Qed.

Lemma created_from (acc ms : list (string * json)) :
  distinct (map fst acc) = true ->
  let l := fold_left (fun acc m => define_member (fst m) (snd m) acc) ms acc in
  distinct (map fst l) = true /\
  forall k, member k l = match member k ms with
                         | Some v => Some v
                         | None => member k acc
                         end.
Proof.
  revert acc. induction ms as [|m ms IH]; intros acc Hd; cbn [fold_left];
    cbv zeta.
  - split; [exact Hd|reflexivity].
  - destruct (IH (define_member (fst m) (snd m) acc)
                (define_member_distinct _ _ _ Hd)) as [Hd' Hm].
    split; [exact Hd'|]. intros k. rewrite Hm. cbn [member].
    destruct (member k ms); [reflexivity|].
    rewrite (member_define_member _ _ _ _ Hd).
    destruct (String.eqb (fst m) k); reflexivity.
Qed.

Lemma created_distinct (ms : list (string * json)) :
  distinct (map fst (created ms)) = true.
Proof. apply (created_from [] ms). reflexivity. Qed.

Lemma member_created (k : string) (ms : list (string * json)) :
  member k (created ms) = member k ms.
Proof.
  destruct (created_from [] ms eq_refl) as [_ H]. unfold created.
  rewrite H. destruct (member k ms); reflexivity.
Qed.

(** *** The order of the properties *)

Lemma insert_index_keys (k : string) (n : N) (m : string * json)
    (l : list (N * (string * json))) :
  existsb (String.eqb k) (map fst (map snd (insert_index n m l)))
  = String.eqb k (fst m) || existsb (String.eqb k) (map fst (map snd l)).
Proof.
  induction l as [|x l IH]; [reflexivity|]. cbn [insert_index].
  destruct (n <? fst x)%N; [reflexivity|]. cbn [map existsb]. rewrite IH.
  destruct (String.eqb k (fst m)), (String.eqb k (fst (snd x))); reflexivity.
Qed.

Lemma indexed_keys (k : string) (ms : list (string * json)) :
  existsb (String.eqb k) (map fst (map snd (indexed ms))) = true ->
  existsb (String.eqb k) (map fst ms) = true.
Proof.
  induction ms as [|m ms IH]; [discriminate|]. cbn [indexed map existsb].
  destruct (array_index (fst m)).
  - rewrite insert_index_keys. intros H.
    apply orb_true_iff in H as [H|H]; [rewrite H; reflexivity|].
    rewrite (IH H). apply orb_true_r.
  - intros H. rewrite (IH H). apply orb_true_r.
Qed.

Lemma member_insert_index (k : string) (n : N) (m : string * json)
    (l : list (N * (string * json))) :
  (String.eqb (fst m) k = true ->
   existsb (String.eqb k) (map fst (map snd l)) = false) ->
  member k (map snd (insert_index n m l))
  = match member k (map snd l) with
    | Some v => Some v
    | None => if String.eqb (fst m) k then Some (snd m) else None
    end.
Proof.
  induction l as [|x l IH]; [reflexivity|]. intros Hk. cbn [insert_index].
  destruct (n <? fst x)%N; [reflexivity|]. cbn [map member].
  destruct (String.eqb (fst m) k) eqn:Hm.
  - specialize (Hk eq_refl). cbn [map existsb] in Hk.
    apply orb_false_iff in Hk as [Hx Hl].
    rewrite IH by (intros _; exact Hl).
    rewrite (member_absent _ _ Hl), (String.eqb_sym (fst (snd x))), Hx.
    reflexivity.
  - rewrite IH by discriminate.
    destruct (member k (map snd l)); [reflexivity|].
    destruct (String.eqb (fst (snd x)) k); reflexivity.
Qed.

Lemma member_indexed (k : string) (ms : list (string * json)) :
  distinct (map fst ms) = true ->
  member k (map snd (indexed ms))
  = if is_named k then None else member k ms.
Proof.
  induction ms as [|m ms IH]; cbn [indexed map distinct member].
  - intros _. destruct (is_named k); reflexivity.
  - intros Hd. apply andb_true_iff in Hd as [Hm Hd].
    apply negb_true_iff in Hm. specialize (IH Hd).
    destruct (array_index (fst m)) as [n|] eqn:Hn.
    + rewrite member_insert_index.
      * rewrite IH. unfold is_named.
        destruct (String.eqb_spec (fst m) k) as [<-|Hne].
        -- rewrite Hn. rewrite (member_absent _ _ Hm). reflexivity.
        -- destruct (array_index k); [|reflexivity].
           destruct (member k ms); reflexivity.
      * intros Hk. apply String.eqb_eq in Hk. subst k.
        destruct (existsb _ (map fst (map snd (indexed ms)))) eqn:He;
          [|reflexivity].
        apply indexed_keys in He. congruence.
    + rewrite IH. unfold is_named.
      destruct (String.eqb_spec (fst m) k) as [<-|Hne].
      * rewrite Hn. reflexivity.
      * destruct (array_index k); [|reflexivity].
        destruct (member k ms); reflexivity.
Qed.

Lemma member_named (k : string) (ms : list (string * json)) :
  member k (List.filter (fun m => is_named (fst m)) ms)
  = if is_named k then member k ms else None.
Proof.
  induction ms as [|m ms IH]; cbn [List.filter member].
  - destruct (is_named k); reflexivity.
  - destruct (is_named (fst m)) eqn:Hm; cbn [member]; rewrite IH.
    + destruct (String.eqb_spec (fst m) k) as [<-|Hne].
      * rewrite Hm. reflexivity.
      * destruct (is_named k); [|reflexivity].
        destruct (member k ms); reflexivity.
    + destruct (String.eqb_spec (fst m) k) as [<-|Hne].
      * rewrite Hm. reflexivity.
      * destruct (is_named k); [|reflexivity].
        destruct (member k ms); reflexivity.
Qed.

Lemma member_own_properties (k : string) (ms : list (string * json)) :
  distinct (map fst ms) = true ->
  member k (own_properties ms) = member k ms.
Proof.
  intros Hd. unfold own_properties.
  rewrite member_app, member_named, (member_indexed k ms Hd).
  destruct (is_named k); [|reflexivity].
  destruct (member k ms); reflexivity.
Qed.

(** An object has the members of its text: a later member of the same
    name overrides an earlier one. *)
Lemma member_object_of (k : string) (ms : list (string * json)) :
  member k (object_of ms) = member k ms.
Proof.
  unfold object_of.
  rewrite member_own_properties by apply created_distinct.
  apply member_created.
Qed.

(** *** Members in property order make the object they list *)

Lemma define_member_new (k : string) (v : json) (ms : list (string * json)) :
  existsb (String.eqb k) (map fst ms) = false ->
  define_member k v ms = ms ++ [(k, v)].
Proof.
  induction ms as [|m ms IH]; [reflexivity|]. cbn [map existsb].
  intros H. apply orb_false_iff in H as [Hm Hms].
  cbn [define_member app]. rewrite String.eqb_sym, Hm, (IH Hms). reflexivity.
Qed.

Lemma existsb_app_false (k : string) (l1 l2 : list string) :
  existsb (String.eqb k) (l1 ++ l2) = false <->
  existsb (String.eqb k) l1 = false /\ existsb (String.eqb k) l2 = false.
Proof. rewrite existsb_app. apply orb_false_iff. Qed.

Lemma created_distinct_from (acc ms : list (string * json)) :
  distinct (map fst ms) = true ->
  (forall k, existsb (String.eqb k) (map fst ms) = true ->
             existsb (String.eqb k) (map fst acc) = false) ->
  fold_left (fun acc m => define_member (fst m) (snd m) acc) ms acc
  = acc ++ ms.
Proof.
  revert acc. induction ms as [|m ms IH]; intros acc Hd Hacc;
    cbn [fold_left].
  - rewrite app_nil_r. reflexivity.
  - cbn [map distinct] in Hd. apply andb_true_iff in Hd as [Hm Hd].
    apply negb_true_iff in Hm.
    rewrite define_member_new.
    + rewrite (IH _ Hd).
      * rewrite <- app_assoc. destruct m. reflexivity.
      * intros k Hk. rewrite map_app. apply existsb_app_false.
        split.
        -- apply Hacc. cbn [map existsb]. rewrite Hk. apply orb_true_r.
        -- cbn [map existsb fst]. rewrite orb_false_r.
           destruct (String.eqb_spec k (fst m)) as [->|]; [|reflexivity].
           congruence.
    + apply Hacc. cbn [map existsb]. rewrite String.eqb_refl. reflexivity.
Qed.

Lemma created_of_distinct (ms : list (string * json)) :
  distinct (map fst ms) = true -> created ms = ms.
Proof.
  intros Hd. unfold created. rewrite created_distinct_from; auto.
Qed.

Lemma indexed_named (ms : list (string * json)) :
  forallb is_named (map fst ms) = true ->
  indexed ms = [] /\ List.filter (fun m => is_named (fst m)) ms = ms.
Proof.
  induction ms as [|m ms IH]; [split; reflexivity|].
  cbn [map forallb indexed List.filter]. intros H.
  apply andb_true_iff in H as [Hm Hms]. destruct (IH Hms) as [-> ->].
  rewrite Hm. unfold is_named in Hm.
  destruct (array_index (fst m)); [discriminate|]. split; reflexivity.
Qed.

Lemma own_properties_ascending (lo : option N) (ms : list (string * json)) :
  ascending lo (map fst ms) = true ->
  own_properties ms = ms /\
  match lo, indexed ms with
  | Some l, x :: _ => (l <? fst x)%N = true
  | _, _ => True
  end.
Proof.
  revert lo. induction ms as [|m ms IH]; intros lo;
    [intros _; destruct lo; split; try reflexivity; exact I|].
  cbn [map ascending]. unfold own_properties. cbn [indexed List.filter].
  assert (Hnamed : is_named (fst m)
                   = match array_index (fst m) with
                     | Some _ => false
                     | None => true
                     end) by reflexivity.
  rewrite Hnamed. clear Hnamed.
  destruct (array_index (fst m)) as [n|] eqn:Hn.
  - intros H. apply andb_true_iff in H as [Hlo Hms].
    destruct (IH (Some n) Hms) as [Hown Hhead].
    assert (Hins : insert_index n m (indexed ms) = (n, m) :: indexed ms).
    { destruct (indexed ms) as [|x l]; [reflexivity|].
      cbn [insert_index]. rewrite Hhead. reflexivity. }
    rewrite Hins. cbn [map app snd fst].
    split; [f_equal; exact Hown|]. destruct lo; [exact Hlo|exact I].
  - intros H. destruct (indexed_named ms H) as [-> ->].
    split; [reflexivity|]. destruct lo; exact I.
Qed.

Lemma object_of_property_order (ms : list (string * json)) :
  property_order ms = true -> object_of ms = ms.
Proof.
  intros H. apply andb_true_iff in H as [Hd Ha]. unfold object_of.
  rewrite (created_of_distinct ms Hd).
  apply (own_properties_ascending None ms Ha).
Qed.

(** *** The members of an object are members of its text *)

Lemma define_member_In (k : string) (v : json) (ms : list (string * json))
    (m : string * json) :
  In m (define_member k v ms) -> m = (k, v) \/ In m ms.
Proof.
  induction ms as [|m' ms IH]; cbn [define_member].
  - intros [<-|[]]. left. reflexivity.
  - destruct (String.eqb (fst m') k).
    + intros [<-|H]; [left; reflexivity|right; right; exact H].
    + intros [<-|H]; [right; left; reflexivity|].
      destruct (IH H) as [->|H']; [left; reflexivity|right; right; exact H'].
Qed.

Lemma created_In (acc ms : list (string * json)) (m : string * json) :
  In m (fold_left (fun acc m => define_member (fst m) (snd m) acc) ms acc) ->
  In m ms \/ In m acc.
Proof.
  revert acc. induction ms as [|m' ms IH]; intros acc; cbn [fold_left].
  - intros H. right. exact H.
  - intros H. destruct (IH _ H) as [H'|H']; [left; right; exact H'|].
    destruct (define_member_In _ _ _ _ H') as [->|H''].
    + left. left. destruct m'. reflexivity.
    + right. exact H''.
Qed.

Lemma insert_index_In (n : N) (m : string * json)
    (l : list (N * (string * json))) (x : N * (string * json)) :
  In x (insert_index n m l) -> x = (n, m) \/ In x l.
Proof.
  induction l as [|y l IH]; cbn [insert_index].
  - intros [<-|[]]. left. reflexivity.
  - destruct (n <? fst y)%N.
    + intros [<-|H]; [left; reflexivity|right; exact H].
    + intros [<-|H]; [right; left; reflexivity|].
      destruct (IH H) as [->|H']; [left; reflexivity|right; right; exact H'].
Qed.

Lemma indexed_In (ms : list (string * json)) (x : N * (string * json)) :
  In x (indexed ms) -> In (snd x) ms.
Proof.
  induction ms as [|m ms IH]; [intros []|]. cbn [indexed].
  destruct (array_index (fst m)).
  - intros H. destruct (insert_index_In _ _ _ _ H) as [->|H'].
    + left. reflexivity.
    + right. exact (IH H').
  - intros H. right. exact (IH H).
Qed.

Lemma object_of_In (ms : list (string * json)) (m : string * json) :
  In m (object_of ms) -> In m ms.
Proof.
  unfold object_of, own_properties. intros H.
  assert (Hc : In m (created ms)).
  { apply in_app_or in H as [H|H].
    - apply in_map_iff in H as (x & <- & Hx). exact (indexed_In _ _ Hx).
    - apply filter_In in H as [H _]. exact H. }
  destruct (created_In [] ms m Hc) as [H'|[]]. exact H'.
Qed.

Lemma forallb_object_of (p : string * json -> bool)
    (ms : list (string * json)) :
  forallb p ms = true -> forallb p (object_of ms) = true.
Proof.
  intros H. apply forallb_forall. intros m Hm.
  exact (proj1 (forallb_forall p ms) H m (object_of_In ms m Hm)).
Qed.

(** A value that JSON keeps is the value its text is read as. *)
Lemma reparsed_kept (v : json) : json_kept v = true -> reparsed v = v.
Proof.
  induction v as [|b|x|s|vs IH|ms IH] using json_ind; try reflexivity.
  - cbn [json_kept reparsed]. intros Hkept.
    destruct x as [[]|negative m e| |]; try discriminate; [reflexivity|].
    cbn [reparsed_number].
    rewrite number_of_decimal_signed, shortest_round by exact Hkept.
    reflexivity.
  - cbn [json_kept reparsed]. intros H. f_equal.
    induction IH as [|v vs Hv _ IHvs]; [reflexivity|].
    cbn [forallb] in H. apply andb_true_iff in H as [H1 H2].
    cbn [map]. rewrite (Hv H1), (IHvs H2). reflexivity.
  - cbn [json_kept reparsed]. intros H.
    apply andb_true_iff in H as [Horder H]. f_equal.
    rewrite <- (object_of_property_order ms Horder) at 2. f_equal.
    clear Horder. induction IH as [|[k v] ms Hv _ IHms]; [reflexivity|].
    cbn [forallb fst snd] in H. apply andb_true_iff in H as [H1 H2].
    cbn [map fst snd] in *. rewrite (Hv H1), (IHms H2). reflexivity.
Qed.

(** *** Values *)

(** The first character of a printed value is not white space and closes
    neither an array nor an object. *)
Lemma print_value_head (depth : nat) (v : json) :
  exists c r, print_value depth v = c :: r /\
    json_space c = false /\ Ascii.eqb c "]"%char = false
    /\ Ascii.eqb c "}"%char = false.
Proof.
  destruct v as [|[]|n|s|[|v1 vs]|[|m1 ms]];
    try (eexists _, _; split; [reflexivity|repeat split; reflexivity]).
  destruct (print_number_head n) as (c & r & Hc & Hd).
  exists c, r. split; [exact Hc|]. apply number_head_plain, Hd.
Qed.

Lemma skip_ws_print_value (depth : nat) (v : json) (rest : list ascii) :
  skip_ws (print_value depth v ++ rest) = print_value depth v ++ rest.
Proof.
  destruct (print_value_head depth v) as (c & r & -> & Hc & _).
  apply skip_ws_stop, Hc.
Qed.

(** One step of each reader. *)
Lemma parse_value_string (fuel : nat) (r : list ascii) :
  parse_value (S fuel) (dquote :: r)
  = match parse_chars r with
    | Some (cs, r') => Some (JStr (string_of_list_ascii cs), r')
    | None => None
    end.
Proof. reflexivity. Qed.

Lemma parse_value_array (fuel : nat) (r : list ascii) (c : ascii)
    (r' : list ascii) :
  skip_ws r = c :: r' -> Ascii.eqb c "]"%char = false ->
  parse_value (S fuel) ("["%char :: r)
  = match parse_elements fuel r with
    | Some (vs, r'') => Some (JArr vs, r'')
    | None => None
    end.
Proof. intros Hs Hc. simpl. rewrite Hs, Hc. reflexivity. Qed.

Lemma parse_value_object (fuel : nat) (r : list ascii) (c : ascii)
    (r' : list ascii) :
  skip_ws r = c :: r' -> Ascii.eqb c "}"%char = false ->
  parse_value (S fuel) ("{"%char :: r)
  = match parse_members fuel r with
    | Some (ms, r'') => Some (JObj (object_of ms), r'')
    | None => None
    end.
Proof. intros Hs Hc. simpl. rewrite Hs, Hc. reflexivity. Qed.

Lemma parse_elements_last (fuel : nat) (s : list ascii) (v : json)
    (r rest : list ascii) :
  parse_value fuel s = Some (v, r) -> skip_ws r = "]"%char :: rest ->
  parse_elements (S fuel) s = Some ([v], rest).
Proof. intros Hv Hs. simpl. rewrite Hv, Hs. reflexivity. Qed.

Lemma parse_elements_more (fuel : nat) (s : list ascii) (v : json)
    (r r' : list ascii) :
  parse_value fuel s = Some (v, r) -> skip_ws r = ","%char :: r' ->
  parse_elements (S fuel) s
  = match parse_elements fuel r' with
    | Some (vs, r'') => Some (v :: vs, r'')
    | None => None
    end.
Proof. intros Hv Hs. simpl. rewrite Hv, Hs. reflexivity. Qed.

Lemma parse_members_last (fuel : nat) (s r r2 : list ascii) (k : string)
    (v : json) (r3 rest : list ascii) :
  skip_ws s = dquote :: r ->
  parse_chars r = Some (list_ascii_of_string k, ":"%char :: r2) ->
  parse_value fuel r2 = Some (v, r3) -> skip_ws r3 = "}"%char :: rest ->
  parse_members (S fuel) s = Some ([(k, v)], rest).
Proof.
  intros Hs Hk Hv Hr. simpl. rewrite Hs. cbn [Ascii.eqb Bool.eqb dquote].
  rewrite Hk. cbn [skip_ws json_space N_of_ascii].
  simpl. rewrite Hv, Hr, string_of_list_ascii_of_string. reflexivity.
Qed.

Lemma parse_members_more (fuel : nat) (s r r2 : list ascii) (k : string)
    (v : json) (r3 r4 : list ascii) :
  skip_ws s = dquote :: r ->
  parse_chars r = Some (list_ascii_of_string k, ":"%char :: r2) ->
  parse_value fuel r2 = Some (v, r3) -> skip_ws r3 = ","%char :: r4 ->
  parse_members (S fuel) s
  = match parse_members fuel r4 with
    | Some (ms, r5) => Some ((k, v) :: ms, r5)
    | None => None
    end.
Proof.
  intros Hs Hk Hv Hr. simpl. rewrite Hs. cbn [Ascii.eqb Bool.eqb dquote].
  rewrite Hk. cbn [skip_ws json_space N_of_ascii].
  simpl. rewrite Hv, Hr, string_of_list_ascii_of_string. reflexivity.
Qed.

Lemma delimited_indent (depth : nat) (rest : list ascii) :
  delimited (newline_indent depth ++ rest).
Proof. reflexivity. Qed.

Lemma parse_print_elements (depth : nat) (rest : list ascii) (vs : list json) :
  Forall reads_back vs ->
  forall (v1 : json) (fuel : nat),
    reads_back v1 ->
    list_sum (map (fun v => S (json_size v)) (v1 :: vs)) <= fuel ->
    parse_elements fuel
      (newline_indent (S depth) ++ print_value (S depth) v1
         ++ flat_map (fun v => ","%char :: newline_indent (S depth)
                                 ++ print_value (S depth) v) vs
         ++ newline_indent depth ++ "]"%char :: rest)
    = Some (map reparsed (v1 :: vs), rest).
Proof.
  induction 1 as [|v2 vs Hv2 _ IH]; intros v1 fuel Hv1 Hfuel;
    (destruct fuel as [|fuel]; [simpl in Hfuel; lia|]);
    cbn [map list_sum fold_right] in Hfuel.
  - cbn [flat_map app]. eapply parse_elements_last.
    + rewrite (parse_value_skip _ _ _ (skip_ws_indent _ _)).
      apply Hv1; [lia|apply delimited_indent].
    + rewrite skip_ws_indent. reflexivity.
  - cbn [flat_map]. rewrite <- !app_assoc. cbn [app]. rewrite <- !app_assoc.
    erewrite parse_elements_more.
    + rewrite IH; [reflexivity|exact Hv2|cbn [map list_sum fold_right]; lia].
    + rewrite (parse_value_skip _ _ _ (skip_ws_indent _ _)).
      apply Hv1; [lia|reflexivity].
    + reflexivity.
Qed.

Lemma parse_value_after_space (fuel : nat) (s : list ascii) :
  parse_value fuel (" "%char :: s) = parse_value fuel s.
Proof. apply parse_value_skip. reflexivity. Qed.

Lemma parse_print_members (depth : nat) (rest : list ascii)
    (ms : list (string * json)) :
  Forall (fun m => reads_back (snd m)) ms ->
  forall (m1 : string * json) (fuel : nat),
    reads_back (snd m1) ->
    list_sum (map (fun m => S (json_size (snd m))) (m1 :: ms)) <= fuel ->
    parse_members fuel
      (newline_indent (S depth) ++ quote_string (fst m1)
         ++ ":"%char :: " "%char :: print_value (S depth) (snd m1)
         ++ flat_map (fun m => ","%char :: newline_indent (S depth)
                                 ++ quote_string (fst m)
                                 ++ ":"%char :: " "%char
                                 :: print_value (S depth) (snd m)) ms
         ++ newline_indent depth ++ "}"%char :: rest)
    = Some (map (fun m => (fst m, reparsed (snd m))) (m1 :: ms), rest).
Proof.
  induction 1 as [|m2 ms Hm2 _ IH]; intros [k v] fuel Hv Hfuel;
    (destruct fuel as [|fuel]; [simpl in Hfuel; lia|]);
    cbn [map list_sum fold_right fst snd] in *.
  - cbn [flat_map app]. eapply parse_members_last.
    + rewrite skip_ws_indent, quote_string_app. reflexivity.
    + apply parse_chars_quoted.
    + rewrite parse_value_after_space.
      apply Hv; [lia|apply delimited_indent].
    + rewrite skip_ws_indent. reflexivity.
  - cbn [flat_map]. rewrite <- !app_assoc. cbn [app]. rewrite <- !app_assoc.
    cbn [app]. erewrite parse_members_more.
    + rewrite IH; [reflexivity|exact Hm2|cbn [map list_sum fold_right]; lia].
    + rewrite skip_ws_indent, quote_string_app. reflexivity.
    + apply parse_chars_quoted.
    + rewrite parse_value_after_space. apply Hv; [lia|reflexivity].
    + reflexivity.
Qed.

Lemma print_array_app (depth : nat) (v1 : json) (vs : list json)
    (rest : list ascii) :
  print_value depth (JArr (v1 :: vs)) ++ rest
  = "["%char :: newline_indent (S depth) ++ print_value (S depth) v1
      ++ flat_map (fun v => ","%char :: newline_indent (S depth)
                              ++ print_value (S depth) v) vs
      ++ newline_indent depth ++ "]"%char :: rest.
Proof.
  cbn [print_value]. cbn [app]. rewrite <- !app_assoc. reflexivity.
Qed.

Lemma print_object_app (depth : nat) (m1 : string * json)
    (ms : list (string * json)) (rest : list ascii) :
  print_value depth (JObj (m1 :: ms)) ++ rest
  = "{"%char :: newline_indent (S depth) ++ quote_string (fst m1)
      ++ ":"%char :: " "%char :: print_value (S depth) (snd m1)
      ++ flat_map (fun m => ","%char :: newline_indent (S depth)
                              ++ quote_string (fst m)
                              ++ ":"%char :: " "%char
                              :: print_value (S depth) (snd m)) ms
      ++ newline_indent depth ++ "}"%char :: rest.
Proof.
  cbn [print_value]. cbn [app]. rewrite <- !app_assoc. cbn [app].
  rewrite <- !app_assoc. reflexivity.
Qed.

(** Every value is read back from its text, up to the numbers that JSON
    does not keep. *)
Lemma parse_print_value (v : json) : reads_back v.
Proof.
  induction v as [|b|n|s|vs IH|ms IH] using json_ind;
    intros depth fuel rest Hfuel Hrest;
    (destruct fuel as [|fuel]; [simpl in Hfuel; lia|]).
  - reflexivity.
  - destruct b; reflexivity.
  - apply parse_value_JNum, Hrest.
  - cbn [print_value]. rewrite quote_string_app, parse_value_string.
    rewrite parse_chars_quoted, string_of_list_ascii_of_string. reflexivity.
  - destruct vs as [|v1 vs]; [reflexivity|].
    rewrite print_array_app.
    destruct (print_value_head (S depth) v1) as (c & r & Hc & _ & Hclose & _).
    erewrite parse_value_array.
    + inversion IH as [|? ? Hv1 Hvs]; subst.
      rewrite parse_print_elements; [reflexivity|exact Hvs|exact Hv1|].
      cbn [json_size] in Hfuel. lia.
    + rewrite skip_ws_indent, skip_ws_print_value, Hc. reflexivity.
    + exact Hclose.
  - destruct ms as [|m1 ms]; [reflexivity|].
    rewrite print_object_app.
    erewrite parse_value_object.
    + inversion IH as [|? ? Hm1 Hms]; subst.
      rewrite parse_print_members; [reflexivity|exact Hms|exact Hm1|].
      cbn [json_size] in Hfuel. lia.
    + rewrite skip_ws_indent, quote_string_app. reflexivity.
    + reflexivity.
Qed.

(** The text of a value is at least as long as the reader's fuel for it. *)
Lemma json_size_length (v : json) :
  forall depth, json_size v <= length (print_value depth v).
Proof.
  induction v as [|b|n|s|vs IH|ms IH] using json_ind; intros depth.
  - simpl. lia.
  - destruct b; simpl; lia.
  - destruct (print_number_head n) as (c & r & Hc & _).
    cbn [print_value json_size]. rewrite Hc. simpl. lia.
  - cbn [print_value json_size]. unfold quote_string. simpl. lia.
  - destruct vs as [|v1 vs]; [simpl; lia|].
    pose proof (print_array_app depth v1 vs []) as Happ.
    rewrite app_nil_r in Happ. rewrite Happ. clear Happ.
    inversion IH as [|? ? Hv1 Hvs]; subst. clear IH.
    cbn [json_size map list_sum fold_right length].
    rewrite !length_app. cbn [newline_indent length].
    specialize (Hv1 (S depth)).
    assert (Hrest :
      list_sum (map (fun v => S (json_size v)) vs)
      <= length (flat_map (fun v => ","%char :: newline_indent (S depth)
                                      ++ print_value (S depth) v) vs)).
    { clear Hv1. induction Hvs as [|v2 vs Hv2 _ IHvs]; [simpl; lia|].
      cbn [map list_sum fold_right flat_map]. rewrite length_app.
      cbn [length]. rewrite length_app. specialize (Hv2 (S depth)).
      unfold list_sum in IHvs. lia. }
    unfold list_sum in Hrest. lia.
  - destruct ms as [|m1 ms]; [simpl; lia|].
    pose proof (print_object_app depth m1 ms []) as Happ.
    rewrite app_nil_r in Happ. rewrite Happ. clear Happ.
    inversion IH as [|? ? Hm1 Hms]; subst. clear IH.
    cbn [json_size map list_sum fold_right length].
    rewrite !length_app. cbn [newline_indent length]. rewrite !length_app.
    specialize (Hm1 (S depth)).
    assert (Hrest :
      list_sum (map (fun m => S (json_size (snd m))) ms)
      <= length (flat_map (fun m => ","%char :: newline_indent (S depth)
                                      ++ quote_string (fst m)
                                      ++ ":"%char :: " "%char
                                      :: print_value (S depth) (snd m)) ms)).
    { clear Hm1. induction Hms as [|m2 ms Hm2 _ IHms]; [simpl; lia|].
      cbn [map list_sum fold_right flat_map]. rewrite length_app.
      cbn [length]. rewrite !length_app. cbn [length].
      specialize (Hm2 (S depth)). unfold list_sum in IHms. lia. }
    unfold list_sum in Hrest. lia.
Qed.

(** What [JSON.parse(JSON.stringify(v))] is. *)
Lemma JSON_parse_stringify (v : json) :
  JSON_parse (JSON_stringify v) = Some (reparsed v).
Proof.
  unfold JSON_parse, JSON_stringify. cbv zeta.
  rewrite list_ascii_of_string_of_list_ascii.
  rewrite <- (app_nil_r (print_value 0 v)) at 2.
  rewrite parse_print_value; [reflexivity| |exact I].
  pose proof (json_size_length v 0). lia.
Qed.

(** [JSON.parse(JSON.stringify(v))] is [v] when [v] is a value that
    JSON keeps. *)
Lemma JSON_parse_stringify_kept (v : json) :
  json_kept v = true -> JSON_parse (JSON_stringify v) = Some v.
Proof.
  intros Hkept. rewrite JSON_parse_stringify, reparsed_kept by assumption.
  reflexivity.
Qed.

(** *** The numbers of a document are doubles *)

Lemma parse_double (fuel : nat) :
  (forall s v r, parse_value fuel s = Some (v, r) -> json_double v = true) /\
  (forall s vs r, parse_elements fuel s = Some (vs, r) ->
                  forallb json_double vs = true) /\
  (forall s ms r, parse_members fuel s = Some (ms, r) ->
                  forallb (fun m => json_double (snd m)) ms = true).
Proof.
  induction fuel as [|fuel (IHv & IHe & IHm)];
    [repeat split; intros; discriminate|].
  split; [|split].
  - intros s v r. cbn [parse_value].
    destruct (skip_ws s) as [|c r0]; [discriminate|].
    destruct (Ascii.eqb c "["%char).
    { destruct (skip_ws r0) as [|c' r']; [discriminate|].
      destruct (Ascii.eqb c' "]"%char); [intros [= <- _]; reflexivity|].
      destruct (parse_elements fuel r0) as [[vs r'']|] eqn:He; [|discriminate].
      intros [= <- _]. exact (IHe _ _ _ He). }
    destruct (Ascii.eqb c "{"%char).
    { destruct (skip_ws r0) as [|c' r']; [discriminate|].
      destruct (Ascii.eqb c' "}"%char); [intros [= <- _]; reflexivity|].
      destruct (parse_members fuel r0) as [[ms r'']|] eqn:Hm; [|discriminate].
      intros [= <- _]. cbn [json_double].
      exact (forallb_object_of _ _ (IHm _ _ _ Hm)). }
    destruct (Ascii.eqb c dquote).
    { destruct (parse_chars r0) as [[cs r']|]; [|discriminate].
      intros [= <- _]. reflexivity. }
    destruct (Ascii.eqb c "t"%char).
    { destruct (expect _ r0); [|discriminate]. intros [= <- _]. reflexivity. }
    destruct (Ascii.eqb c "f"%char).
    { destruct (expect _ r0); [|discriminate]. intros [= <- _]. reflexivity. }
    destruct (Ascii.eqb c "n"%char).
    { destruct (expect _ r0); [|discriminate]. intros [= <- _]. reflexivity. }
    unfold parse_number.
    destruct (read_number (c :: r0)) as [[x r']|] eqn:Hx; [|discriminate].
    intros [= <- _]. exact (read_number_double _ _ _ Hx).
  - intros s vs r. cbn [parse_elements].
    destruct (parse_value fuel s) as [[v r0]|] eqn:Hv; [|discriminate].
    destruct (skip_ws r0) as [|c r']; [discriminate|].
    destruct (Ascii.eqb c ","%char).
    { destruct (parse_elements fuel r') as [[vs' r'']|] eqn:He; [|discriminate].
      intros [= <- _]. cbn [forallb].
      rewrite (IHv _ _ _ Hv), (IHe _ _ _ He). reflexivity. }
    destruct (Ascii.eqb c "]"%char); [|discriminate].
    intros [= <- _]. cbn [forallb]. rewrite (IHv _ _ _ Hv). reflexivity.
  - intros s ms r. cbn [parse_members].
    destruct (skip_ws s) as [|q r0]; [discriminate|].
    destruct (Ascii.eqb q dquote); [|discriminate].
    destruct (parse_chars r0) as [[k r1]|]; [|discriminate].
    destruct (skip_ws r1) as [|colon r2]; [discriminate|].
    destruct (Ascii.eqb colon ":"%char); [|discriminate].
    destruct (parse_value fuel r2) as [[v r3]|] eqn:Hv; [|discriminate].
    destruct (skip_ws r3) as [|c r4]; [discriminate|].
    destruct (Ascii.eqb c ","%char).
    { destruct (parse_members fuel r4) as [[ms' r5]|] eqn:Hm; [|discriminate].
      intros [= <- _]. cbn [forallb snd].
      rewrite (IHv _ _ _ Hv), (IHm _ _ _ Hm). reflexivity. }
    destruct (Ascii.eqb c "}"%char); [|discriminate].
    intros [= <- _]. cbn [forallb snd]. rewrite (IHv _ _ _ Hv). reflexivity.
Qed.

(** Every number of a document that [JSON.parse] reads is a double. *)
Lemma JSON_parse_double (text : string) (v : json) :
  JSON_parse text = Some v -> json_double v = true.
Proof.
  unfold JSON_parse. cbv zeta.
  destruct (parse_value _ _) as [[v0 r]|] eqn:Hp; [|discriminate].
  destruct (skip_ws r); [|discriminate]. intros [= <-].
  exact (proj1 (parse_double _) _ _ _ Hp).
Qed.

(** ** Import *)

Lemma every_true {A : Type} (p : A -> completion bool) (l : list A) (x : A) :
  every p l = Normal true -> In x l -> p x = Normal true.
Proof.
  induction l as [|a l IH]; simpl; [intros _ []|].
  destruct (p a) as [[]|] eqn:Ha; try discriminate.
  intros Hl [<-|Hx]; auto.
Qed.

Lemma valid_task_complete (t : json) :
  valid_task t = Normal true <-> complete_task t.
Proof.
  unfold valid_task, complete_task, has_field. split.
  - destruct t as [| | | | |ms]; simpl; try discriminate.
    destruct (member "id" ms) as [i|] eqn:Hi; [|discriminate].
    destruct (truthy (Some i)) eqn:Hti; [|discriminate].
    destruct (member "name" ms) as [n|] eqn:Hn; [|discriminate].
    destruct (truthy (Some n)) eqn:Htn; [|discriminate].
    destruct (member "checkInTime" ms) as [c|] eqn:Hc; [|discriminate].
    intros [= Htc]. repeat split; eexists ms, _; eauto.
  - intros ((ms & i & -> & Hi & Hti) & (ms1 & n & [= <-] & Hn & Htn)
            & (ms2 & c & [= <-] & Hc & Htc)).
    simpl. rewrite Hi, Hti, Hn, Htn, Hc, Htc. reflexivity.
Qed.

Lemma every_complete (ts : list json) :
  Forall complete_task ts -> every valid_task ts = Normal true.
Proof.
  induction 1 as [|t ts' Ht _ IH]; [reflexivity|]. cbn [every].
  apply valid_task_complete in Ht. rewrite Ht. exact IH.
Qed.

(** Only an accepted confirmation changes the store. *)
Lemma import_alert_unchanged (importText message : string)
    (answer : Button) (st : Store) :
  handleImportConfirm importText = None \/
  handleImportConfirm importText = Some (import_alert message) ->
  import importText answer st = st.
Proof.
  unfold import. intros [-> | ->]; [reflexivity|]. destruct answer; reflexivity.
Qed.

(** The dialog of an import whose [try] block ends in an alert or throws. *)
Lemma handleImportConfirm_alert (importText : string) :
  (import_try importText = Throw \/
   exists message, import_try importText = Normal (import_alert message)) ->
  handleImportConfirm importText = None \/
  exists message, handleImportConfirm importText = Some (import_alert message).
Proof.
  intros H. unfold handleImportConfirm.
  destruct (negb _); [left; reflexivity|]. right.
  destruct H as [-> | (message & ->)]; eauto.
Qed.

Lemma import_validate_incomplete (data : json) (ts : list json)
    (ds : option (list json)) (t : json) :
  In t ts -> ~ complete_task t ->
  import_validate data ts ds = Throw \/
  exists message, import_validate data ts ds = Normal (import_alert message).
Proof.
  intros Hin Hbad. unfold import_validate.
  destruct ts as [|t0 ts']; [destruct Hin|]. cbn [length Nat.ltb Nat.leb].
  cbn [mbind completion_bind].
  destruct (every valid_task (t0 :: ts')) as [[]|] eqn:He; eauto.
  exfalso. apply Hbad, valid_task_complete. exact (every_true _ _ _ He Hin).
Qed.

(** C4: an import that fails (the text is not JSON, the document has no
    recognized shape, some task element lacks a non-empty [id], [name] or
    [checkInTime], or the document is the bare empty array) opens no
    confirmation, and the task list and the device list after it are
    those before it, whatever the user answers. *)
Theorem import_failure_changes_nothing (importText : string) :
  import_fails importText ->
  (handleImportConfirm importText = None \/
   exists message,
     handleImportConfirm importText = Some (import_alert message)) /\
  forall (answer : Button) (st : Store), import importText answer st = st.
Proof.
  intros Hfail.
  assert (Halert :
    handleImportConfirm importText = None \/
    exists message,
      handleImportConfirm importText = Some (import_alert message)).
  { apply handleImportConfirm_alert. unfold import_try.
    destruct Hfail as [Hp | data Hp Hshape | data ts t Hp Hshape Hin Hbad | Hp];
      rewrite Hp; [left; reflexivity| | |right; eexists; reflexivity].
    - destruct data as [| | | | l |ms]; simpl in *; eauto; [discriminate|].
      destruct (member "tasks" ms) as [[|b|x|s|l|ms']|]; simpl; eauto.
      + destruct b; simpl; eauto.
      + destruct x; simpl; eauto.
      + destruct (truthy_string s); simpl; eauto.
      + discriminate.
    - destruct data as [| | | | l |ms]; simpl in Hshape; try discriminate.
      + injection Hshape as ->. simpl.
        apply import_validate_incomplete with t; assumption.
      + destruct (member "tasks" ms) as [[| | | | l |ms']|] eqn:Hm;
          try discriminate.
        injection Hshape as ->. cbn [isArray prop mbind completion_bind].
        rewrite Hm. cbn [truthy isArray andb elements_of].
        apply import_validate_incomplete with t; assumption. }
  split; [exact Halert|]. intros answer st.
  destruct Halert as [H | (message & H)];
    [apply (import_alert_unchanged _ EmptyString)
    |apply (import_alert_unchanged _ message)]; auto.
Qed.

Lemma import_failure_changes_nothing_witness :
  (handleImportConfirm "{not json" = None \/
   exists message,
     handleImportConfirm "{not json" = Some (import_alert message)) /\
  forall (answer : Button) (st : Store), import "{not json" answer st = st.
Proof.
  apply (import_failure_changes_nothing "{not json").
  apply malformed_json. reflexivity.
Defined.

Lemma every_not_true (ts : list json) :
  every valid_task ts <> Normal true ->
  exists t, In t ts /\ ~ complete_task t.
Proof.
  induction ts as [|t ts IH]; [intros H; contradiction H; reflexivity|].
  cbn [every]. destruct (valid_task t) as [[]|] eqn:Ht.
  - intros H. destruct (IH H) as (t' & Hin & Hbad).
    exists t'. split; [right; exact Hin|exact Hbad].
  - intros _. exists t. split; [left; reflexivity|].
    rewrite <- valid_task_complete, Ht. discriminate.
  - intros _. exists t. split; [left; reflexivity|].
    rewrite <- valid_task_complete, Ht. discriminate.
Qed.

(** The failures listed are all there are: an import either opens the
    confirmation or fails in one of these ways. *)
Lemma import_confirms_or_fails (importText : string) :
  (exists ts ds, handleImportConfirm importText = Some (import_confirm ts ds))
  \/ import_fails importText.
Proof.
  destruct (JSON_parse importText) as [data|] eqn:Hp;
    [|right; apply malformed_json, Hp].
  destruct (resolved_tasks data) as [ts|] eqn:Hshape;
    [|right; eapply unrecognized_shape; eauto].
  destruct (every valid_task ts) as [[]|] eqn:Hevery;
    [|right; destruct (every_not_true ts) as (t & Hin & Hbad);
        [rewrite Hevery; discriminate|eapply incomplete_task; eauto]..].
  unfold handleImportConfirm. rewrite (JSON_parse_not_blank _ _ Hp).
  cbn [negb]. unfold import_try. rewrite Hp.
  destruct data as [| | | | l |ms]; simpl in Hshape; try discriminate.
  - injection Hshape as ->. destruct ts as [|t ts].
    + right. apply no_task_data, Hp.
    + left. cbn [isArray elements_of]. unfold import_validate.
      cbn [length Nat.ltb Nat.leb mbind completion_bind]. rewrite Hevery.
      eauto.
  - destruct (member "tasks" ms) as [[| | | | l |ms']|] eqn:Hm;
      try discriminate.
    injection Hshape as ->. left.
    cbn [isArray prop mbind completion_bind]. rewrite Hm.
    cbn [truthy isArray andb elements_of]. unfold import_validate.
    destruct ts as [|t ts].
    + cbn [length Nat.ltb Nat.leb prop mbind completion_bind]. rewrite Hm.
      cbn [truthy length_is_zero length Nat.eqb andb every]. eauto.
    + cbn [length Nat.ltb Nat.leb mbind completion_bind]. rewrite Hevery.
      eauto.
Qed.

(** C2 (as stated, refuted): importing the text [[]] into a store that
    holds tasks is refused, and the task list is not empty afterwards. *)
Lemma import_empty_array_counterexample :
  handleImportConfirm text_empty_array
    = Some (import_alert "未找到有效的任务数据") /\
  tasks (import text_empty_array OkButton sample_store) = tasks sample_store /\
  tasks (import text_empty_array OkButton sample_store) <> [].
Proof. repeat split. discriminate. Qed.

(** C2 (amended): the bare text [[]] is refused with the alert that no
    valid task data was found, and the store stays as it was; the text
    [{"tasks": []}] is accepted and, once the confirmation is accepted,
    the task list is empty and the device list is the one before. *)
Theorem import_empty_documents (st : Store) :
  handleImportConfirm text_empty_array
    = Some (import_alert "未找到有效的任务数据") /\
  (forall answer, import text_empty_array answer st = st) /\
  handleImportConfirm text_empty_tasks = Some (import_confirm [] None) /\
  import text_empty_tasks OkButton st = {| tasks := []; devices := devices st |}
  /\ import text_empty_tasks CancelButton st = st.
Proof.
  split; [reflexivity|]. split; [intros []; reflexivity|].
  split; [reflexivity|]. split; reflexivity.
Qed.

(** An object whose [tasks] array passes the validation is accepted; the
    array under [devices] goes into the confirmation as it is. *)
Lemma handleImportConfirm_versioned (importText : string)
    (ms : list (string * json)) (ts ds : list json) :
  JSON_parse importText = Some (JObj ms) ->
  member "tasks" ms = Some (JArr ts) ->
  Forall complete_task ts ->
  member "devices" ms = Some (JArr ds) ->
  handleImportConfirm importText = Some (import_confirm ts (Some ds)).
Proof.
  intros Hp Hts Hok Hds.
  pose proof (every_complete _ Hok) as Hevery.
  unfold handleImportConfirm. rewrite (JSON_parse_not_blank _ _ Hp).
  cbn [negb]. unfold import_try. rewrite Hp.
  cbn [isArray prop mbind completion_bind]. rewrite Hts, Hds.
  cbn [truthy isArray andb elements_of]. unfold import_validate.
  destruct ts as [|t ts'].
  - cbn [length Nat.ltb Nat.leb prop mbind completion_bind]. rewrite Hts.
    reflexivity.
  - cbn [length Nat.ltb Nat.leb mbind completion_bind].
    rewrite Hevery. reflexivity.
Qed.

(** C9: the [devices] array of an imported object is not validated: when
    the [tasks] array passes the validation, any array under [devices]
    replaces the device list on confirmation, and [tasks] the task list. *)
Theorem import_devices_unvalidated (importText : string)
    (ms : list (string * json)) (ts ds : list json) :
  JSON_parse importText = Some (JObj ms) ->
  member "tasks" ms = Some (JArr ts) ->
  Forall complete_task ts ->
  member "devices" ms = Some (JArr ds) ->
  handleImportConfirm importText = Some (import_confirm ts (Some ds)) /\
  forall st, import importText OkButton st = {| tasks := ts; devices := ds |}.
Proof.
  intros Hp Hts Hok Hds.
  pose proof (handleImportConfirm_versioned _ _ _ _ Hp Hts Hok Hds) as Hdialog.
  split; [exact Hdialog|]. intros st. unfold import. rewrite Hdialog.
  reflexivity.
Qed.

Lemma import_devices_unvalidated_witness :
  handleImportConfirm text_odd_devices
    = Some (import_confirm [Task_json task_A]
              (Some [JNum (number_of_Z 7); JStr EmptyString; JStr "PC";
                     JStr "PC"; JNull; JArr []])) /\
  forall st,
    import text_odd_devices OkButton st
    = {| tasks := [Task_json task_A];
         devices := [JNum (number_of_Z 7); JStr EmptyString; JStr "PC";
                     JStr "PC"; JNull; JArr []] |}.
Proof.
  apply (import_devices_unvalidated text_odd_devices
           [("tasks", JArr [Task_json task_A]);
            ("devices", JArr [JNum (number_of_Z 7); JStr EmptyString;
                              JStr "PC"; JStr "PC"; JNull; JArr []])]).
  - vm_compute. reflexivity.
  - reflexivity.
  - repeat constructor; eexists _, _; repeat split; reflexivity.
  - reflexivity.
Defined.

(** ** Export followed by import *)

Lemma Task_json_complete (t : Task) :
  id t <> EmptyString -> name t <> EmptyString ->
  checkInTime t <> EmptyString -> complete_task (Task_json t).
Proof.
  intros Hid Hname Htime. unfold complete_task, has_field, Task_json.
  repeat split; eexists _, _;
    (split; [reflexivity|split; [reflexivity|]]);
    apply truthy_string_true; assumption.
Qed.

(** The members of an object that was printed and read. *)
Lemma member_reparsed (k : string) (ms : list (string * json)) :
  member k (map (fun m => (fst m, reparsed (snd m))) ms)
  = option_map reparsed (member k ms).
Proof.
  induction ms as [|[k' v] ms IH]; [reflexivity|].
  cbn [map member fst snd]. rewrite IH.
  destruct (member k ms); [reflexivity|].
  cbn [option_map]. destruct (String.eqb k' k); reflexivity.
Qed.

(** A value that is truthy once printed and read was truthy before. *)
Lemma truthy_reparsed (v : json) :
  truthy (Some (reparsed v)) = true -> truthy (Some v) = true.
Proof.
  destruct v as [|b|x|s|vs|ms]; try (intros H; exact H); try reflexivity.
  destruct x; try reflexivity; discriminate.
Qed.

Lemma complete_task_reparsed (t : json) :
  complete_task (reparsed t) -> complete_task t.
Proof.
  assert (Hfield : forall k, has_field k (reparsed t) -> has_field k t).
  { intros k (ms' & v' & Heq & Hm & Hv).
    destruct t as [|b|x|s|vs|ms]; try discriminate Heq;
      [destruct x; discriminate Heq|].
    cbn [reparsed] in Heq. injection Heq as <-.
    rewrite member_object_of, member_reparsed in Hm.
    destruct (member k ms) as [v|] eqn:Hk; [|discriminate Hm].
    injection Hm as <-. exists ms, v.
    split; [reflexivity|]. split; [exact Hk|]. apply truthy_reparsed, Hv. }
  intros (Hid & Hname & Htime). repeat split; apply Hfield; assumption.
Qed.

(** What the import of an exported store gives, whatever the store is at
    the time of the import: the store as JSON keeps it, when the tasks
    are still valid in it. *)
Lemma import_handleExport_reparsed (st st0 : Store) :
  Forall complete_task (map reparsed (tasks st)) ->
  handleImportConfirm (handleExport st)
    = Some (import_confirm (map reparsed (tasks st))
              (Some (map reparsed (devices st)))) /\
  import (handleExport st) OkButton st0
  = {| tasks := map reparsed (tasks st);
       devices := map reparsed (devices st) |}.
Proof.
  intros Hok.
  assert (Hdialog : handleImportConfirm (handleExport st)
                    = Some (import_confirm (map reparsed (tasks st))
                              (Some (map reparsed (devices st))))).
  { eapply handleImportConfirm_versioned.
    - unfold handleExport. cbv zeta. rewrite JSON_parse_stringify.
      cbn [reparsed map fst snd]. reflexivity.
    - reflexivity.
    - exact Hok.
    - reflexivity. }
  split; [exact Hdialog|]. unfold import. rewrite Hdialog. reflexivity.
Qed.

Lemma map_reparsed_kept (l : list json) :
  forallb json_kept l = true -> map reparsed l = l.
Proof.
  induction l as [|v l IH]; [reflexivity|]. cbn [forallb map]. intros H.
  apply andb_true_iff in H as [Hv Hl].
  rewrite (reparsed_kept v Hv), (IH Hl). reflexivity.
Qed.

(** Importing an exported store whose values JSON keeps gives the store
    back, whatever the store is at the time of the import. *)
Lemma import_handleExport (st st0 : Store) :
  Forall complete_task (tasks st) -> store_kept st = true ->
  handleImportConfirm (handleExport st)
    = Some (import_confirm (tasks st) (Some (devices st))) /\
  import (handleExport st) OkButton st0 = st.
Proof.
  intros Hok Hkept. apply andb_true_iff in Hkept as [Hts Hds].
  pose proof (import_handleExport_reparsed st st0) as H.
  rewrite (map_reparsed_kept _ Hts), (map_reparsed_kept _ Hds) in H.
  destruct (H Hok) as [Hdialog Himport].
  split; [exact Hdialog|]. rewrite Himport. destruct st. reflexivity.
Qed.

(** C3 (as stated, refuted): a number that is not finite does not come
    back, and neither does the negative zero.  The import of a backup
    whose [createdAt] is [1e999] installs a task that has a non-empty
    [id], [name] and [checkInTime] and the creation time [Infinity]; the
    export of that store writes [null] for it, and the import of the
    exported document gives a task list that differs from the one
    exported.  In the same way a creation time [-0] is exported as [0]
    and comes back as the positive zero. *)
Lemma export_import_infinite_counterexample :
  (import text_huge_createdAt OkButton (mkStore [] [JStr "PC"])
     = store_infinite /\
   Forall complete_task (tasks store_infinite) /\
   tasks (import (handleExport store_infinite) OkButton store_infinite)
     = [JObj [("id", JStr "1"); ("name", JStr "x");
              ("checkInTime", JStr "09:00"); ("createdAt", JNull)]] /\
   tasks (import (handleExport store_infinite) OkButton store_infinite)
     <> tasks store_infinite) /\
  (import text_negative_zero_createdAt OkButton (mkStore [] [JStr "PC"])
     = store_negative_zero /\
   Forall complete_task (tasks store_negative_zero) /\
   tasks (import (handleExport store_negative_zero) OkButton
            store_negative_zero)
     = [JObj [("id", JStr "1"); ("name", JStr "x");
              ("checkInTime", JStr "09:00");
              ("createdAt", JNum (Zero false))]] /\
   tasks (import (handleExport store_negative_zero) OkButton
            store_negative_zero)
     <> tasks store_negative_zero).
Proof.
  split.
  - split; [vm_compute; reflexivity|]. split.
    { repeat constructor; eexists _, _; repeat split; reflexivity. }
    split; [vm_compute; reflexivity|].
    vm_compute. discriminate.
  - split; [vm_compute; reflexivity|]. split.
    { repeat constructor; eexists _, _; repeat split; reflexivity. }
    split; [vm_compute; reflexivity|].
    vm_compute. discriminate.
Qed.

(** C3 (amended): for every store whose tasks each have a non-empty [id],
    [name] and [checkInTime] and whose numbers are all finite and not the
    negative zero, importing the exported document and accepting the
    confirmation yields the task list and the device list of that store,
    element by element and in the same order, whatever the store is at
    the time of the import.  Of a list of members that stands for an
    object, [store_kept] asks what holds of every object: each name
    once, in property order. *)
Theorem export_import_roundtrip (st st0 : Store) :
  Forall complete_task (tasks st) -> store_kept st = true ->
  handleImportConfirm (handleExport st)
    = Some (import_confirm (tasks st) (Some (devices st))) /\
  tasks (import (handleExport st) OkButton st0) = tasks st /\
  devices (import (handleExport st) OkButton st0) = devices st.
Proof.
  intros Hok Hkept.
  destruct (import_handleExport st st0 Hok Hkept) as [Hdialog ->].
  auto.
Qed.

Lemma export_import_roundtrip_witness :
  handleImportConfirm (handleExport (store_of [task_A; task_B] ["PC"; "Phone"]))
    = Some (import_confirm (map Task_json [task_A; task_B])
              (Some (map JStr ["PC"; "Phone"]))) /\
  tasks (import (handleExport (store_of [task_A; task_B] ["PC"; "Phone"]))
           OkButton (store_of [task_C] ["Tablet"]))
    = map Task_json [task_A; task_B] /\
  devices (import (handleExport (store_of [task_A; task_B] ["PC"; "Phone"]))
             OkButton (store_of [task_C] ["Tablet"]))
    = map JStr ["PC"; "Phone"].
Proof.
  apply (export_import_roundtrip (store_of [task_A; task_B] ["PC"; "Phone"])
           (store_of [task_C] ["Tablet"])).
  - repeat constructor; eexists _, _; repeat split; reflexivity.
  - vm_compute. reflexivity.
Defined.

(** The same for a store of typed tasks and device labels; a creation
    time is an integer that 53 bits hold. *)
Lemma export_import_typed (ts : list Task) (ds : list string) (st0 : Store) :
  Forall (fun t => id t <> EmptyString /\ name t <> EmptyString
                   /\ checkInTime t <> EmptyString
                   /\ (Z.abs (createdAt t) < 2 ^ 53)%Z) ts ->
  import (handleExport (store_of ts ds)) OkButton st0 = store_of ts ds.
Proof.
  intros Hok. apply (import_handleExport (store_of ts ds) st0).
  - unfold store_of. cbn [tasks]. apply Forall_map.
    eapply Forall_impl; [exact Hok|].
    intros t (Hid & Hname & Htime & _). apply Task_json_complete; assumption.
  - unfold store_kept, store_of. cbn [tasks devices].
    apply andb_true_iff. split.
    + induction Hok as [|t ts (_ & _ & _ & Hat) _ IH]; [reflexivity|].
      cbn [map forallb]. rewrite IH, andb_true_r.
      pose proof (number_of_Z_kept _ Hat) as Hkept.
      unfold Task_json. cbn [json_kept forallb snd].
      rewrite Hkept. destruct (status t); reflexivity.
    + induction ds as [|d ds IH]; [reflexivity|exact IH].
Qed.

(** * Further properties *)

(** ** Status changes *)

Lemma has_id_set_status (i : string) (t : Task) (s : TaskStatus) :
  has_id i {| id := id t; name := name t; description := description t;
              checkInTime := checkInTime t; device := device t;
              appOrUrl := appOrUrl t; status := s; createdAt := createdAt t |}
  = has_id i t.
Proof. reflexivity. Qed.

(** X1: of two status changes of the same id the later one wins; in
    particular a status change done twice is the same as done once. *)
Theorem updateTaskStatus_overwrites (i : string) (s1 s2 : TaskStatus)
    (tasks : list Task) :
  updateTaskStatus i s2 (updateTaskStatus i s1 tasks)
  = updateTaskStatus i s2 tasks.
Proof.
  unfold updateTaskStatus. rewrite map_map. apply map_ext. intros t.
  destruct (has_id i t) eqn:Ht.
  - rewrite has_id_set_status, Ht. reflexivity.
  - rewrite Ht. reflexivity.
Qed.

Lemma updateTaskStatus_same (i : string) (s : TaskStatus) (tasks : list Task) :
  (forall t, In t tasks -> id t = i -> status t = s) ->
  updateTaskStatus i s tasks = tasks.
Proof.
  intros Hs. unfold updateTaskStatus. rewrite <- (map_id tasks) at 2.
  apply map_ext_in. intros t Hin. destruct (has_id i t) eqn:Ht; [|reflexivity].
  apply String.eqb_eq in Ht. rewrite <- (Hs t Hin Ht). destruct t; reflexivity.
Qed.

(** X2: undo restores the list: when the tasks of an id have the status
    [s0], changing their status and then setting it back to [s0] gives
    the task list of before. *)
Theorem updateTaskStatus_undo (i : string) (s0 s : TaskStatus)
    (tasks : list Task) :
  (forall t, In t tasks -> id t = i -> status t = s0) ->
  updateTaskStatus i s0 (updateTaskStatus i s tasks) = tasks.
Proof.
  intros Hs. rewrite updateTaskStatus_overwrites.
  apply updateTaskStatus_same, Hs.
Qed.

Lemma updateTaskStatus_undo_witness :
  updateTaskStatus "B" PENDING
    (updateTaskStatus "B" COMPLETED [task_A; task_B; task_C])
  = [task_A; task_B; task_C].
Proof.
  apply (updateTaskStatus_undo "B" PENDING COMPLETED [task_A; task_B; task_C]).
  intros t [<-|[<-|[<-|[]]]] _; reflexivity.
Defined.

(** ** Deleting a task *)

Lemma filter_all_true {A : Type} (p : A -> bool) (l : list A) :
  (forall x, In x l -> p x = true) -> List.filter p l = l.
Proof.
  induction l as [|a l IH]; intros H; [reflexivity|]. simpl.
  rewrite (H a) by (left; reflexivity). f_equal. apply IH.
  intros x Hx. apply H. right. exact Hx.
Qed.

(** X3: a confirmed deletion removes the tasks of the id and no other,
    keeping the rest in order; an id that is not in the list, a second
    deletion and a cancelled one change nothing. *)
Theorem deleteTask_removes (i : string) (tasks : list Task) :
  let rest := press OkButton (deleteTask i) tasks in
  (forall t, In t rest <-> In t tasks /\ id t <> i) /\
  sublist rest tasks /\
  (~ In i (map id tasks) -> rest = tasks) /\
  press OkButton (deleteTask i) rest = rest /\
  press CancelButton (deleteTask i) tasks = tasks.
Proof.
  cbv zeta. cbn [press deleteTask].
  assert (Hkeep : forall t, negb (has_id i t) = true <-> id t <> i).
  { intros t. unfold has_id. rewrite negb_true_iff. apply String.eqb_neq. }
  split; [|split; [|split; [|split]]].
  - intros t. rewrite filter_In, Hkeep. reflexivity.
  - induction tasks as [|t tasks IH]; [constructor|]. simpl.
    destruct (negb (has_id i t)); [apply sublist_skip|apply sublist_cons];
      exact IH.
  - intros Hnot. apply filter_all_true. intros t Hin.
    apply Hkeep. intros Heq. apply Hnot.
    rewrite <- Heq. apply in_map, Hin.
  - apply filter_all_true. intros t Hin. apply filter_In in Hin. tauto.
  - reflexivity.
Qed.

Lemma deleteTask_removes_witness :
  press OkButton (deleteTask "E") [task_A; task_B] = [task_A; task_B].
Proof.
  apply (proj1 (proj2 (proj2 (deleteTask_removes "E" [task_A; task_B])))).
  simpl. intuition discriminate.
Defined.

(** ** The ids stay unique *)

Lemma map_id_updateTaskStatus (i : string) (s : TaskStatus) (tasks : list Task) :
  map id (updateTaskStatus i s tasks) = map id tasks.
Proof.
  unfold updateTaskStatus. rewrite map_map. apply map_ext. intros t.
  destruct (has_id i t); reflexivity.
Qed.

Lemma map_id_handleSaveTask_edit (editing : Task) (uuid : string) (now : Z)
    (taskData : TaskData.t) (prev : list Task) :
  map id (handleSaveTask (Some editing) uuid now taskData prev) = map id prev.
Proof.
  unfold handleSaveTask. rewrite map_map. apply map_ext. intros t.
  destruct (has_id (id editing) t); reflexivity.
Qed.

Lemma NoDup_map_filter {A B : Type} (f : A -> B) (p : A -> bool) (l : list A) :
  NoDup (map f l) -> NoDup (map f (List.filter p l)).
Proof.
  induction l as [|a l IH]; [auto|]. simpl. intros Hnd.
  apply NoDup_cons in Hnd as [Hnot Hnd].
  destruct (p a); [|auto]. simpl. apply NoDup_cons. split; [|auto].
  intros Hin. apply Hnot. apply list_elem_of_In.
  apply list_elem_of_In, in_map_iff in Hin as (x & Hx & Hin).
  apply in_map_iff. exists x. split; [exact Hx|].
  apply filter_In in Hin. tauto.
Qed.

(** X4: every operation on the task list keeps the ids pairwise distinct:
    saving an edit, changing a status, deleting, dropping, and adding a
    task whose fresh id is not in the list. *)
Theorem task_ids_stay_unique (tasks : list Task) :
  NoDup (map id tasks) ->
  (forall editing uuid now taskData,
      NoDup (map id (handleSaveTask (Some editing) uuid now taskData tasks))) /\
  (forall uuid now taskData,
      ~ In uuid (map id tasks) ->
      NoDup (map id (handleSaveTask None uuid now taskData tasks))) /\
  (forall i s, NoDup (map id (updateTaskStatus i s tasks))) /\
  (forall i answer, NoDup (map id (press answer (deleteTask i) tasks))) /\
  (forall draggedTaskId targetId,
      NoDup (map id (handleDrop draggedTaskId targetId tasks))).
Proof.
  intros Hnd. split; [|split; [|split; [|split]]].
  - intros. rewrite map_id_handleSaveTask_edit. exact Hnd.
  - intros uuid now taskData Hfresh. unfold handleSaveTask.
    rewrite map_app. cbn [map id]. apply NoDup_app.
    split; [exact Hnd|split; [|apply NoDup_singleton]].
    intros x Hx Hin. apply list_elem_of_In in Hx.
    apply list_elem_of_In in Hin as [<-|[]]. contradiction.
  - intros. rewrite map_id_updateTaskStatus. exact Hnd.
  - intros i [|]; cbn [press deleteTask]; [|exact Hnd].
    apply NoDup_map_filter, Hnd.
  - intros draggedTaskId targetId.
    destruct (handleDrop_cases draggedTaskId targetId tasks)
      as [->|(k & j & s & Hs & ->)]; [exact Hnd|].
    rewrite (Permutation_map id (delete_insert_Permutation tasks k j s Hs)).
    exact Hnd.
Qed.

Lemma task_ids_stay_unique_witness :
  NoDup (map id (handleSaveTask None "E" 5
                   (TaskData.mk "n" "d" "10:00" "PC" "app" PENDING)
                   [task_A; task_B])) /\
  NoDup (map id (handleDrop (Some "A") "B" [task_A; task_B])).
Proof.
  assert (Hnd : NoDup (map id [task_A; task_B])).
  { apply NoDup_cons. split; [|apply NoDup_singleton].
    intros Hin. apply list_elem_of_In in Hin as [Heq|[]]. discriminate Heq. }
  destruct (task_ids_stay_unique [task_A; task_B] Hnd)
    as (_ & Hadd & _ & _ & Hdrop).
  split.
  - apply Hadd. simpl. intuition discriminate.
  - apply Hdrop.
Defined.

(** ** More on the reorder *)

(** A drop that moves: the task moved carries the dragged id. *)
Lemma handleDrop_moved (src targetId : string) (tasks : list Task) :
  handleDrop (Some src) targetId tasks = tasks \/
  exists i j s, tasks !! i = Some s /\ has_id src s = true /\
    handleDrop (Some src) targetId tasks
    = take j (delete i tasks) ++ s :: drop j (delete i tasks).
Proof.
  unfold handleDrop. cbv zeta.
  destruct (truthy_string src && negb (src =? targetId)); auto.
  destruct (findIndex (has_id src) tasks) as [i|] eqn:Hi; auto.
  destruct (findIndex (has_id targetId) tasks) as [j|] eqn:Hj; auto.
  destruct (findIndex_Some _ _ _ Hi) as (s & Hs & Hps & _).
  right. exists i, j, s. split; [exact Hs|]. split; [exact Hps|].
  rewrite (splice_remove_one _ _ _ Hs). apply splice_insert_one.
Qed.

(** X5: a drop moves the dragged task only: the tasks of every other id
    are the same and in the same order as before. *)
Theorem handleDrop_keeps_others (src targetId : string) (tasks : list Task) :
  List.filter (fun t => negb (has_id src t))
    (handleDrop (Some src) targetId tasks)
  = List.filter (fun t => negb (has_id src t)) tasks.
Proof.
  destruct (handleDrop_moved src targetId tasks)
    as [->|(i & j & s & Hs & Hps & ->)]; [reflexivity|].
  rewrite List.filter_app. cbn [List.filter]. rewrite Hps. cbn [negb].
  rewrite <- List.filter_app, take_drop, delete_take_drop.
  rewrite <- (take_drop_middle _ _ _ Hs) at 3.
  rewrite !List.filter_app. cbn [List.filter]. rewrite Hps. reflexivity.
Qed.

(** With distinct ids, a task is the first that carries its id. *)
Lemma findIndex_unique (tasks : list Task) (k : nat) (x : Task) :
  NoDup (map id tasks) -> tasks !! k = Some x ->
  findIndex (has_id (id x)) tasks = Some k.
Proof.
  intros Hnd Hx. apply findIndex_first with x; [exact Hx|apply String.eqb_refl|].
  intros j y Hj Hy. apply String.eqb_neq. intros Heq.
  assert (j = k); [|lia].
  apply (NoDup_lookup (map id tasks) j k (id x) Hnd).
  - change (map id tasks) with (id <$> tasks).
    rewrite list_lookup_fmap, Hy. simpl. f_equal. exact Heq.
  - change (map id tasks) with (id <$> tasks).
    rewrite list_lookup_fmap, Hx. reflexivity.
Qed.

(** X6: a drop can be taken back: when the ids are pairwise distinct,
    dropping the moved task on the task that now stands at its old place
    gives the task list of before. *)
Theorem handleDrop_back (tasks : list Task) (src tgt : string) :
  NoDup (map id tasks) ->
  src <> EmptyString -> src <> tgt ->
  In src (map id tasks) -> In tgt (map id tasks) ->
  exists i u,
    findIndex (has_id src) tasks = Some i /\
    handleDrop (Some src) tgt tasks !! i = Some u /\
    handleDrop (Some src) (id u) (handleDrop (Some src) tgt tasks) = tasks.
Proof.
  intros Hnd Hne Hdiff Hsrc Htgt.
  destruct (has_id_In _ _ Hsrc) as (s0 & Hs0 & Hps0).
  destruct (has_id_In _ _ Htgt) as (t0 & Ht0 & Hpt0).
  destruct (findIndex_In _ _ _ Hs0 Hps0) as [i Hi].
  destruct (findIndex_In _ _ _ Ht0 Hpt0) as [j Hj].
  destruct (findIndex_Some _ _ _ Hi) as (s & Hs & Hps & _).
  destruct (findIndex_Some _ _ _ Hj) as (t & Ht & Hpt & _).
  apply String.eqb_eq in Hps, Hpt.
  assert (Hij : i <> j).
  { intros ->. rewrite Hs in Ht. injection Ht as ->. congruence. }
  pose proof (lookup_lt_Some _ _ _ Hs) as Hi'.
  pose proof (lookup_lt_Some _ _ _ Ht) as Hj'.
  assert (Hlen : length (delete i tasks) = length tasks - 1)
    by (apply length_delete; eauto).
  assert (Htake : length (take j (delete i tasks)) = j)
    by (rewrite length_take; lia).
  pose proof (handleDrop_found src tgt tasks i j s Hne Hdiff Hi Hj Hs) as Hr.
  set (r := handleDrop (Some src) tgt tasks) in *.
  assert (Hperm : Permutation r tasks).
  { rewrite Hr. apply delete_insert_Permutation, Hs. }
  assert (Hndr : NoDup (map id r)).
  { rewrite (Permutation_map id Hperm). exact Hnd. }
  assert (Hrj : r !! j = Some s).
  { rewrite Hr. apply list_lookup_middle. auto. }
  assert (Hri : is_Some (r !! i)).
  { apply lookup_lt_is_Some. rewrite (Permutation_length Hperm). exact Hi'. }
  destruct Hri as [u Hu]. exists i, u. split; [exact Hi|]. split; [exact Hu|].
  assert (Hsu : src <> id u).
  { intros Heq. apply Hij.
    apply (NoDup_lookup (map id r) i j src Hndr);
      change (map id r) with (id <$> r); rewrite list_lookup_fmap.
    - rewrite Hu. simpl. congruence.
    - rewrite Hrj. simpl. congruence. }
  rewrite (handleDrop_found src (id u) r j i s Hne Hsu); [| |
    apply findIndex_unique; assumption|exact Hrj].
  - assert (Hdel : delete j r = delete i tasks).
    { rewrite Hr. rewrite <- Htake at 1. rewrite delete_middle.
      apply take_drop. }
    rewrite Hdel, delete_take_drop.
    rewrite take_app_length' by (rewrite length_take; lia).
    rewrite drop_app_length' by (rewrite length_take; lia).
    apply take_drop_middle, Hs.
  - rewrite <- Hps. apply findIndex_unique; assumption.
Qed.

Lemma handleDrop_back_witness :
  exists i u,
    findIndex (has_id "A") [task_A; task_B; task_C; task_D] = Some i /\
    handleDrop (Some "A") "C" [task_A; task_B; task_C; task_D] !! i = Some u /\
    handleDrop (Some "A") (id u)
      (handleDrop (Some "A") "C" [task_A; task_B; task_C; task_D])
    = [task_A; task_B; task_C; task_D].
Proof.
  apply (handleDrop_back [task_A; task_B; task_C; task_D] "A" "C").
  - repeat (apply NoDup_cons; split;
            [intros Hin; apply list_elem_of_In in Hin; simpl in Hin;
             intuition discriminate|]).
    apply NoDup_nil_2.
  - discriminate.
  - discriminate.
  - simpl; tauto.
  - simpl; tauto.
Defined.

(** ** More on the device registry *)

Lemma truthy_string_nonempty (s : string) :
  truthy_string s = true -> s <> EmptyString.
Proof. destruct s; [discriminate|intros _; discriminate]. Qed.

Lemma includes_false (x : string) (l : list string) :
  includes x l = false -> ~ In x l.
Proof. intros H Hin. apply includes_In in Hin. congruence. Qed.

Lemma handleAddDevice_ok (label : string) (devices : list string) :
  registry_ok devices -> registry_ok (handleAddDevice label devices).
Proof.
  intros [Hnd Hne]. unfold handleAddDevice.
  destruct (truthy_string (trim label)) eqn:Ht; [|split; assumption].
  destruct (includes (trim label) devices) eqn:Hin; [split; assumption|].
  cbn [andb negb]. apply includes_false in Hin. split.
  - apply NoDup_app. split; [exact Hnd|split; [|apply NoDup_singleton]].
    intros x Hx Hx'. apply list_elem_of_In in Hx.
    apply list_elem_of_In in Hx' as [<-|[]]. contradiction.
  - apply Forall_app_2; [exact Hne|]. constructor; [|constructor].
    apply truthy_string_nonempty, Ht.
Qed.

Lemma saveEditingDevice_ok (index : nat) (value : string)
    (devices : list string) (e : DeviceEdit) :
  registry_ok devices -> saveEditingDevice index value devices = Some e ->
  registry_ok (edit_devices e).
Proof.
  intros [Hnd Hne]. unfold saveEditingDevice. cbv zeta.
  destruct (truthy_string (trim value)) eqn:Ht.
  - destruct (some_i _ devices) eqn:Hsome; cbn [andb negb].
    + destruct (devices !! index) as [current|];
        [destruct (String.eqb _ current)|]; intros [= <-]; split; assumption.
    + destruct (Nat.ltb index (length devices)); [|discriminate].
      intros [= <-]. cbn [edit_devices]. split.
      * apply NoDup_alt. intros a b x Ha Hb.
        apply list_lookup_insert_Some in Ha, Hb.
        destruct Ha as [(-> & <- & _)|[Hia Ha]], Hb as [(Hb & Hx & _)|[Hib Hb]].
        -- exact Hb.
        -- exfalso. assert (Hdup : some_i
              (fun d i => negb (Nat.eqb i a) && String.eqb d (trim value))
              devices = true) by (apply other_row_holds; eauto).
           congruence.
        -- subst b x. exfalso. assert (Hdup : some_i
              (fun d i => negb (Nat.eqb i index) && String.eqb d (trim value))
              devices = true) by (apply other_row_holds; eauto).
           congruence.
        -- exact (NoDup_lookup _ _ _ _ Hnd Ha Hb).
      * apply Forall_insert; [exact Hne|]. apply truthy_string_nonempty, Ht.
  - cbn [andb].
    destruct (devices !! index) as [current|];
      [destruct (String.eqb _ current)|]; intros [= <-]; split; assumption.
Qed.

Lemma apply_op_ok (op : RegistryOp) (devices devices' : list string) :
  registry_ok devices -> apply_op op devices = Some devices' ->
  registry_ok devices'.
Proof.
  intros Hok. destruct op as [label|index label|index]; cbn [apply_op].
  - intros [= <-]. apply handleAddDevice_ok, Hok.
  - destruct (saveEditingDevice index label devices) as [e|] eqn:He;
      [|discriminate].
    intros [= <-]. exact (saveEditingDevice_ok _ _ _ _ Hok He).
  - intros [= <-].
    change (registry_ok (press OkButton (handleDeleteDevice index devices)
                           devices)).
    rewrite handleDeleteDevice_delete. destruct Hok as [Hnd Hne].
    split.
    + exact (sublist_NoDup _ _ Hnd (sublist_delete _ _)).
    + apply Forall_delete, Hne.
Qed.

(** X7: the built-in list has pairwise distinct, non-empty labels, and
    adding, renaming and removing keep the labels of such a registry
    pairwise distinct and non-empty, over any sequence of operations. *)
Theorem registry_stays_ok :
  registry_ok DEFAULT_DEVICES /\
  forall (ops : list RegistryOp) (devices devices' : list string),
    registry_ok devices -> run_ops ops devices = Some devices' ->
    registry_ok devices'.
Proof.
  split.
  - split.
    + repeat (apply NoDup_cons; split;
              [intros Hin; apply list_elem_of_In in Hin; simpl in Hin;
               intuition discriminate|]).
      apply NoDup_nil_2.
    + repeat constructor; discriminate.
  - induction ops as [|op ops IH]; intros devices devices' Hok; cbn [run_ops].
    + intros [= <-]. exact Hok.
    + destruct (apply_op op devices) as [devices1|] eqn:Hop; [|discriminate].
      apply IH. exact (apply_op_ok _ _ _ Hok Hop).
Qed.

Lemma registry_stays_ok_witness :
  registry_ok ["手机"; "电脑"; "其他"; "Pad"].
Proof.
  destruct registry_stays_ok as [Hdefault Hrun].
  apply (Hrun [Add " Pad "; Add "Pad"; Rename 0 "电脑"; Remove 2]
           DEFAULT_DEVICES).
  - exact Hdefault.
  - reflexivity.
Defined.

Lemma handleAddDevice_cases (label : string) (devices : list string) :
  (handleAddDevice label devices = devices /\
   (trim label = EmptyString \/ In (trim label) devices)) \/
  (handleAddDevice label devices = devices ++ [trim label] /\
   trim label <> EmptyString /\ ~ In (trim label) devices).
Proof.
  unfold handleAddDevice.
  destruct (truthy_string (trim label)) eqn:Ht.
  - destruct (includes (trim label) devices) eqn:Hin; cbn [andb negb].
    + left. split; [reflexivity|right; apply includes_In, Hin].
    + right. split; [reflexivity|].
      split; [apply truthy_string_nonempty, Ht|apply includes_false, Hin].
  - left. split; [reflexivity|left].
    destruct (trim label); [reflexivity|discriminate].
Qed.

Lemma handleAddDevice_present (label : string) (devices : list string) :
  In (trim label) devices -> handleAddDevice label devices = devices.
Proof.
  intros Hin. destruct (handleAddDevice_cases label devices)
    as [[H _]|(_ & _ & Hnot)]; [exact H|contradiction].
Qed.

(** X8: after adding a label that is not blank, the trimmed label is in
    the registry; the rows of before are untouched at their places; and
    adding the same label again changes nothing. *)
Theorem handleAddDevice_then_present (label : string) (devices : list string) :
  (trim label <> EmptyString ->
   In (trim label) (handleAddDevice label devices)) /\
  take (length devices) (handleAddDevice label devices) = devices /\
  handleAddDevice label (handleAddDevice label devices)
  = handleAddDevice label devices.
Proof.
  destruct (handleAddDevice_cases label devices)
    as [[Hsame Hwhy]|(Hnew & Hne & Hnot)].
  - rewrite Hsame. split; [|split].
    + intros Hne. destruct Hwhy as [Hempty|Hin]; [contradiction|exact Hin].
    + apply firstn_all.
    + exact Hsame.
  - rewrite Hnew. split; [|split].
    + intros _. apply in_or_app. right. left. reflexivity.
    + apply take_app_length.
    + apply handleAddDevice_present, in_or_app. right. left. reflexivity.
Qed.

Lemma handleAddDevice_then_present_witness :
  In (trim "  Watch ") (handleAddDevice "  Watch " ["PC"; "Phone"]).
Proof.
  apply (proj1 (handleAddDevice_then_present "  Watch " ["PC"; "Phone"])).
  discriminate.
Defined.

(** X9: a rename is carried out when the row exists, the trimmed value is
    not empty and no other row holds it: that row then holds the trimmed
    value, every other row is as before, the editor is closed and no
    alert is raised. *)
Theorem saveEditingDevice_renames (index : nat) (value : string)
    (devices : list string) :
  index < length devices ->
  trim value <> EmptyString ->
  (forall k, k <> index -> devices !! k <> Some (trim value)) ->
  exists e,
    saveEditingDevice index value devices = Some e /\
    edit_editingDeviceIndex e = None /\ edit_alert e = None /\
    length (edit_devices e) = length devices /\
    edit_devices e !! index = Some (trim value) /\
    forall k, k <> index -> edit_devices e !! k = devices !! k.
Proof.
  intros Hlt Hne Hfree. unfold saveEditingDevice. cbv zeta.
  rewrite (truthy_string_true _ Hne).
  assert (Hsome : some_i
            (fun d i => negb (Nat.eqb i index) && String.eqb d (trim value))
            devices = false).
  { apply not_true_is_false. intros H. apply other_row_holds in H as (k & Hk & Hv).
    exact (Hfree k Hk Hv). }
  rewrite Hsome. cbn [andb negb].
  apply Nat.ltb_lt in Hlt as Hlt'. rewrite Hlt'.
  eexists. split; [reflexivity|]. cbn [edit_devices edit_alert
    edit_editingDeviceIndex].
  split; [reflexivity|]. split; [reflexivity|].
  split; [apply length_insert|].
  split; [apply list_lookup_insert_eq, Hlt|].
  intros k Hk. apply list_lookup_insert_ne. auto.
Qed.

Lemma saveEditingDevice_renames_witness :
  exists e,
    saveEditingDevice 1 " Laptop " ["PC"; "Phone"; "Pad"] = Some e /\
    edit_editingDeviceIndex e = None /\ edit_alert e = None /\
    length (edit_devices e) = length ["PC"; "Phone"; "Pad"] /\
    edit_devices e !! 1 = Some (trim " Laptop ") /\
    forall k, k <> 1 -> edit_devices e !! k = ["PC"; "Phone"; "Pad"] !! k.
Proof.
  apply (saveEditingDevice_renames 1 " Laptop " ["PC"; "Phone"; "Pad"]).
  - simpl. lia.
  - discriminate.
  - intros [|[|[|k]]] Hk; discriminate.
Defined.

(** X10: a confirmed removal deletes the row of the index from the device
    list the confirmation was opened on, whatever the list is when it is
    accepted: the rows before keep their places, the rows after move up
    by one, and an index beyond the last row removes nothing. *)
Theorem handleDeleteDevice_row (index : nat) (devices current : list string) :
  let rest := press OkButton (handleDeleteDevice index devices) current in
  (forall k, k < index -> rest !! k = devices !! k) /\
  (forall k, index <= k -> rest !! k = devices !! S k) /\
  (length devices <= index -> rest = devices) /\
  press CancelButton (handleDeleteDevice index devices) current = current.
Proof.
  cbv zeta. rewrite handleDeleteDevice_delete.
  split; [|split; [|split]].
  - intros k Hk. apply list_lookup_delete_lt, Hk.
  - intros k Hk. apply list_lookup_delete_ge, Hk.
  - intros Hge. rewrite delete_take_drop, (drop_ge devices (S index)) by lia.
    rewrite app_nil_r. apply take_ge, Hge.
  - reflexivity.
Qed.

Lemma handleDeleteDevice_row_witness :
  press OkButton (handleDeleteDevice 1 ["PC"; "Phone"; "Pad"]) ["PC"] !! 1
    = ["PC"; "Phone"; "Pad"] !! 2 /\
  press OkButton (handleDeleteDevice 5 ["PC"; "Phone"; "Pad"]) []
    = ["PC"; "Phone"; "Pad"].
Proof.
  pose proof (handleDeleteDevice_row 1 ["PC"; "Phone"; "Pad"] ["PC"])
    as (_ & Hafter & _).
  pose proof (handleDeleteDevice_row 5 ["PC"; "Phone"; "Pad"] [])
    as (_ & _ & Hbeyond & _).
  split.
  - apply (Hafter 1). lia.
  - apply Hbeyond. simpl. lia.
Defined.

(** ** The task form *)

Lemma first_device_or_nonempty (availableDevices : list string)
    (fallback : string) :
  fallback <> EmptyString ->
  first_device_or availableDevices fallback <> EmptyString.
Proof.
  intros Hf. unfold first_device_or.
  destruct (availableDevices !! 0) as [d|]; [|exact Hf].
  destruct (truthy_string d) eqn:Hd; [|exact Hf].
  apply truthy_string_nonempty, Hd.
Qed.

Lemma handleSubmit_device (form : TaskForm.state) (initialTask : option Task)
    (availableDevices : list string) :
  TaskData.device (handleSubmit form initialTask availableDevices)
  <> EmptyString.
Proof.
  cbn [handleSubmit TaskData.device].
  destruct (truthy_string (TaskForm.device form)) eqn:Hd.
  - apply truthy_string_nonempty, Hd.
  - apply first_device_or_nonempty. discriminate.
Qed.

(** X11: a task created through the form is appended after the tasks of
    before with the fresh id and time, is pending and carries the texts of
    the form.  Its device is the one of the form when that is not empty;
    for an empty choice it is the first available device when there is
    one and it is not empty, and [Unknown] otherwise; so it is never
    empty. *)
Theorem TaskForm_creates (form : TaskForm.state)
    (availableDevices : list string) (uuid : string) (now : Z)
    (prev : list Task) :
  exists t,
    handleSaveTask None uuid now (handleSubmit form None availableDevices) prev
    = prev ++ [t] /\
    id t = uuid /\ createdAt t = now /\ status t = PENDING /\
    name t = TaskForm.name form /\
    description t = TaskForm.description form /\
    checkInTime t = TaskForm.checkInTime form /\
    appOrUrl t = TaskForm.appOrUrl form /\
    device t <> EmptyString /\
    (TaskForm.device form <> EmptyString -> device t = TaskForm.device form) /\
    (TaskForm.device form = EmptyString ->
     forall d, availableDevices !! 0 = Some d -> d <> EmptyString ->
     device t = d) /\
    (TaskForm.device form = EmptyString ->
     availableDevices !! 0 = None \/ availableDevices !! 0 = Some EmptyString ->
     device t = "Unknown").
Proof.
  eexists. split; [reflexivity|]. cbn [id createdAt status name description
    checkInTime appOrUrl device].
  repeat (split; [reflexivity|]). split; [|split; [|split]].
  - apply (handleSubmit_device form None availableDevices).
  - intros Hd. cbn [handleSubmit TaskData.device].
    rewrite (truthy_string_true _ Hd). reflexivity.
  - intros Hd d Hfirst Hne. cbn [handleSubmit TaskData.device].
    rewrite Hd. cbn [truthy_string]. unfold first_device_or.
    rewrite Hfirst, (truthy_string_true _ Hne). reflexivity.
  - intros Hd Hfirst. cbn [handleSubmit TaskData.device].
    rewrite Hd. cbn [truthy_string]. unfold first_device_or.
    destruct Hfirst as [->| ->]; reflexivity.
Qed.

Lemma TaskForm_creates_witness :
  (exists t,
      handleSaveTask None "E" 7
        (handleSubmit (TaskForm.mk "walk" "park" "18:00" "Phone" "maps") None
           ["PC"]) [task_A]
      = [task_A] ++ [t] /\ device t = "Phone") /\
  (exists t,
      handleSaveTask None "E" 7
        (handleSubmit (TaskForm.mk "walk" "park" "18:00" EmptyString "maps")
           None ["PC"; "Phone"]) [task_A]
      = [task_A] ++ [t] /\ device t = "PC") /\
  (exists t,
      handleSaveTask None "E" 7
        (handleSubmit (TaskForm.mk "walk" "park" "18:00" EmptyString "maps")
           None []) [task_A]
      = [task_A] ++ [t] /\ device t = "Unknown").
Proof.
  split; [|split].
  - destruct (TaskForm_creates
                (TaskForm.mk "walk" "park" "18:00" "Phone" "maps")
                ["PC"] "E" 7 [task_A])
      as (t & Hsave & _ & _ & _ & _ & _ & _ & _ & _ & Hform & _ & _).
    exists t. split; [exact Hsave|]. apply Hform. discriminate.
  - destruct (TaskForm_creates
                (TaskForm.mk "walk" "park" "18:00" EmptyString "maps")
                ["PC"; "Phone"] "E" 7 [task_A])
      as (t & Hsave & _ & _ & _ & _ & _ & _ & _ & _ & _ & Hfirst & _).
    exists t. split; [exact Hsave|].
    apply Hfirst; [reflexivity|reflexivity|discriminate].
  - destruct (TaskForm_creates
                (TaskForm.mk "walk" "park" "18:00" EmptyString "maps")
                [] "E" 7 [task_A])
      as (t & Hsave & _ & _ & _ & _ & _ & _ & _ & _ & _ & _ & Hunknown).
    exists t. split; [exact Hsave|].
    apply Hunknown; [reflexivity|left; reflexivity].
Defined.

(** With distinct ids, two tasks of the list with the same id are the
    same task. *)
Lemma unique_by_id (tasks : list Task) (a b : Task) :
  NoDup (map id tasks) -> In a tasks -> In b tasks -> id a = id b -> a = b.
Proof.
  intros Hnd Ha Hb Heq.
  apply list_elem_of_In, list_elem_of_lookup in Ha as [i Hi].
  apply list_elem_of_In, list_elem_of_lookup in Hb as [j Hj].
  assert (i = j).
  { apply (NoDup_lookup (map id tasks) i j (id a) Hnd);
      change (map id tasks) with (id <$> tasks); rewrite list_lookup_fmap.
    - rewrite Hi. reflexivity.
    - rewrite Hj. simpl. congruence. }
  subst j. congruence.
Qed.

(** X12: when the ids are pairwise distinct, saving the form opened on a
    task of the list changes no task's id, creation time or status,
    whatever the form holds. *)
Theorem TaskForm_edit_keeps (tasks : list Task) (t : Task)
    (form : TaskForm.state) (availableDevices : list string)
    (uuid : string) (now : Z) :
  NoDup (map id tasks) -> In t tasks ->
  let next :=
    handleSaveTask (Some t) uuid now
      (handleSubmit form (Some t) availableDevices) tasks in
  map id next = map id tasks /\
  map createdAt next = map createdAt tasks /\
  map status next = map status tasks.
Proof.
  intros Hnd Ht. cbv zeta. unfold handleSaveTask. rewrite !map_map.
  split; [|split]; apply map_ext_in; intros t' Ht';
    destruct (has_id (id t) t') eqn:Hid; try reflexivity.
  apply String.eqb_eq in Hid.
  rewrite (unique_by_id tasks t' t Hnd Ht' Ht Hid). reflexivity.
Qed.

Lemma TaskForm_edit_keeps_witness :
  let next :=
    handleSaveTask (Some task_B) "unused" 0
      (handleSubmit (TaskForm.mk "walk" "park" "18:00" "Phone" "maps")
         (Some task_B) ["PC"]) [task_A; task_B] in
  map id next = map id [task_A; task_B] /\
  map createdAt next = map createdAt [task_A; task_B] /\
  map status next = map status [task_A; task_B].
Proof.
  apply (TaskForm_edit_keeps [task_A; task_B] task_B
           (TaskForm.mk "walk" "park" "18:00" "Phone" "maps") ["PC"]
           "unused" 0).
  - apply NoDup_cons. split; [|apply NoDup_singleton].
    intros Hin. apply list_elem_of_In in Hin as [Heq|[]]. discriminate Heq.
  - right. left. reflexivity.
Defined.

(** X13: when the ids are pairwise distinct, opening the form on a task
    whose device is not empty and saving it untouched gives the task list
    of before. *)
Theorem TaskForm_edit_untouched (tasks : list Task) (t : Task)
    (availableDevices : list string) (uuid : string) (now : Z) :
  NoDup (map id tasks) -> In t tasks -> device t <> EmptyString ->
  handleSaveTask (Some t) uuid now
    (handleSubmit (TaskForm_init (Some t) availableDevices) (Some t)
       availableDevices) tasks
  = tasks.
Proof.
  intros Hnd Ht Hd. unfold handleSaveTask.
  rewrite <- (map_id tasks) at 2. apply map_ext_in. intros t' Ht'.
  destruct (has_id (id t) t') eqn:Hid; [|reflexivity].
  apply String.eqb_eq in Hid.
  rewrite (unique_by_id tasks t' t Hnd Ht' Ht Hid).
  unfold spread. cbn [handleSubmit TaskForm_init TaskData.name
    TaskData.description TaskData.checkInTime TaskData.device
    TaskData.appOrUrl TaskData.status TaskForm.name TaskForm.description
    TaskForm.checkInTime TaskForm.device TaskForm.appOrUrl].
  rewrite (truthy_string_true _ Hd). destruct t; reflexivity.
Qed.

Lemma TaskForm_edit_untouched_witness :
  handleSaveTask (Some task_B) "unused" 0
    (handleSubmit (TaskForm_init (Some task_B) ["Phone"]) (Some task_B)
       ["Phone"]) [task_A; task_B]
  = [task_A; task_B].
Proof.
  apply (TaskForm_edit_untouched [task_A; task_B] task_B ["Phone"] "unused" 0).
  - apply NoDup_cons. split; [|apply NoDup_singleton].
    intros Hin. apply list_elem_of_In in Hin as [Heq|[]]. discriminate Heq.
  - right. left. reflexivity.
  - discriminate.
Defined.

(** X14: a suggestion that arrives for a form whose name is not blank
    replaces the name, the description, the time and the application by
    its own; the device becomes the suggested one when that is among the
    available devices, the first available device when it is not, and
    stays as it was when no device is available; so with a device
    available the device afterwards is an available one.  A failed
    generation and a blank name leave the form as it is. *)
Theorem handleSmartFill_device (availableDevices : list string)
    (form : TaskForm.state) :
  (forall suggestion,
      trim (TaskForm.name form) <> EmptyString ->
      let filled := handleSmartFill (Some suggestion) availableDevices form in
      TaskForm.name filled = TaskSuggestion.name suggestion /\
      TaskForm.description filled = TaskSuggestion.description suggestion /\
      TaskForm.checkInTime filled = TaskSuggestion.checkInTime suggestion /\
      TaskForm.appOrUrl filled = TaskSuggestion.appOrUrl suggestion /\
      (In (TaskSuggestion.device suggestion) availableDevices ->
       TaskForm.device filled = TaskSuggestion.device suggestion) /\
      (~ In (TaskSuggestion.device suggestion) availableDevices ->
       forall d, availableDevices !! 0 = Some d ->
       TaskForm.device filled = d) /\
      (availableDevices = [] ->
       TaskForm.device filled = TaskForm.device form) /\
      (availableDevices <> [] ->
       In (TaskForm.device filled) availableDevices)) /\
  handleSmartFill None availableDevices form = form /\
  (forall generated,
      trim (TaskForm.name form) = EmptyString ->
      handleSmartFill generated availableDevices form = form).
Proof.
  split; [|split].
  - intros suggestion Hname. cbv zeta. unfold handleSmartFill.
    rewrite (truthy_string_true _ Hname).
    cbn [negb TaskForm.name TaskForm.description TaskForm.checkInTime
         TaskForm.appOrUrl TaskForm.device].
    repeat (split; [reflexivity|]).
    destruct (includes _ availableDevices) eqn:Hin.
    + apply includes_In in Hin.
      split; [reflexivity|]. split; [contradiction|].
      split; [intros ->; contradiction Hin|]. intros _. exact Hin.
    + assert (Hnot : ~ In (TaskSuggestion.device suggestion) availableDevices).
      { intros Hyes. apply includes_In in Hyes. congruence. }
      split; [contradiction|].
      destruct availableDevices as [|d ds].
      * split; [discriminate|]. split; [reflexivity|congruence].
      * split; [intros _ d' [= <-]; reflexivity|].
        split; [discriminate|]. intros _. left. reflexivity.
  - unfold handleSmartFill. destruct (negb _); reflexivity.
  - intros generated Hname. unfold handleSmartFill. rewrite Hname.
    reflexivity.
Qed.

Lemma handleSmartFill_device_witness :
  TaskForm.device
    (handleSmartFill
       (Some (TaskSuggestion.mk "read" "news" "08:00" "Phone" "app"))
       ["PC"; "Phone"]
       (TaskForm.mk "read" EmptyString "09:00" "PC" EmptyString))
  = "Phone" /\
  TaskForm.device
    (handleSmartFill
       (Some (TaskSuggestion.mk "read" "news" "08:00" "TV" "app"))
       ["PC"; "Phone"]
       (TaskForm.mk "read" EmptyString "09:00" "Phone" EmptyString))
  = "PC" /\
  TaskForm.device
    (handleSmartFill
       (Some (TaskSuggestion.mk "read" "news" "08:00" "TV" "app"))
       []
       (TaskForm.mk "read" EmptyString "09:00" "Phone" EmptyString))
  = "Phone" /\
  handleSmartFill
    (Some (TaskSuggestion.mk "read" "news" "08:00" "TV" "app"))
    ["PC"; "Phone"]
    (TaskForm.mk "  " EmptyString "09:00" "Phone" EmptyString)
  = TaskForm.mk "  " EmptyString "09:00" "Phone" EmptyString.
Proof.
  split; [|split; [|split]].
  - destruct (proj1 (handleSmartFill_device ["PC"; "Phone"]
                (TaskForm.mk "read" EmptyString "09:00" "PC" EmptyString))
                (TaskSuggestion.mk "read" "news" "08:00" "Phone" "app"))
      as (_ & _ & _ & _ & Hsuggested & _); [discriminate|].
    apply Hsuggested. right. left. reflexivity.
  - destruct (proj1 (handleSmartFill_device ["PC"; "Phone"]
                (TaskForm.mk "read" EmptyString "09:00" "Phone" EmptyString))
                (TaskSuggestion.mk "read" "news" "08:00" "TV" "app"))
      as (_ & _ & _ & _ & _ & Hfirst & _); [discriminate|].
    apply Hfirst; [|reflexivity].
    intros [H|[H|[]]]; discriminate H.
  - destruct (proj1 (handleSmartFill_device []
                (TaskForm.mk "read" EmptyString "09:00" "Phone" EmptyString))
                (TaskSuggestion.mk "read" "news" "08:00" "TV" "app"))
      as (_ & _ & _ & _ & _ & _ & Hnone & _); [discriminate|].
    apply Hnone. reflexivity.
  - apply (proj2 (proj2 (handleSmartFill_device ["PC"; "Phone"]
             (TaskForm.mk "  " EmptyString "09:00" "Phone" EmptyString)))).
    reflexivity.
Defined.

(** ** The views and the statistics *)

(** The three callbacks on one task that is not [null]: at most one
    accepts it, and one does exactly when the status of the task is one
    of the three strings of the enumeration. *)
Lemma has_status_cases (t : json) :
  t <> JNull ->
  exists bp bc bs : bool,
    has_status PENDING t = Normal bp /\
    has_status COMPLETED t = Normal bc /\
    has_status SKIPPED t = Normal bs /\
    Nat.b2n bp + Nat.b2n bc + Nat.b2n bs <= 1 /\
    (Nat.b2n bp + Nat.b2n bc + Nat.b2n bs = 1 <->
     exists s, prop "status" t = Normal (Some (TaskStatus_json s))).
Proof.
  intros Hnull. unfold has_status.
  assert (Hno : forall v : option json,
             (forall x, v <> Some (JStr x)) ->
             prop "status" t = Normal v ->
             exists bp bc bs : bool,
               Normal (is_string (status_text PENDING) v) = Normal bp /\
               Normal (is_string (status_text COMPLETED) v) = Normal bc /\
               Normal (is_string (status_text SKIPPED) v) = Normal bs /\
               Nat.b2n bp + Nat.b2n bc + Nat.b2n bs <= 1 /\
               (Nat.b2n bp + Nat.b2n bc + Nat.b2n bs = 1 <->
                exists s, prop "status" t = Normal (Some (TaskStatus_json s)))).
  { intros v Hv Hp. exists false, false, false.
    assert (Hf : forall s, is_string s v = false).
    { intros s. destruct v as [[| | |x| |]|]; try reflexivity.
      contradiction (Hv x). reflexivity. }
    rewrite !Hf. do 3 (split; [reflexivity|]). split; [simpl; lia|].
    split; [simpl; lia|]. intros (s & Hs). rewrite Hp in Hs.
    injection Hs as ->. destruct s; contradiction (Hv _ eq_refl). }
  destruct (prop "status" t) as [v|] eqn:Hp;
    [|destruct t; try discriminate Hp; contradiction Hnull; reflexivity].
  cbn [mbind completion_bind].
  destruct v as [[| | |x| |]|];
    try (apply Hno; [intros x; discriminate|reflexivity]).
  cbn [is_string status_text].
  destruct (String.eqb_spec x "PENDING") as [->|Hp1].
  { exists true, false, false. do 3 (split; [reflexivity|]).
    split; [simpl; lia|]. split; [|reflexivity].
    intros _. exists PENDING. reflexivity. }
  destruct (String.eqb_spec x "COMPLETED") as [->|Hp2].
  { exists false, true, false. do 3 (split; [reflexivity|]).
    split; [simpl; lia|]. split; [|reflexivity].
    intros _. exists COMPLETED. reflexivity. }
  destruct (String.eqb_spec x "SKIPPED") as [->|Hp3].
  { exists false, false, true. do 3 (split; [reflexivity|]).
    split; [simpl; lia|]. split; [|reflexivity].
    intros _. exists SKIPPED. reflexivity. }
  exists false, false, false. do 3 (split; [reflexivity|]).
  split; [simpl; lia|]. split; [simpl; lia|].
  intros ([] & [= Hs]); congruence.
Qed.

Lemma filter_by_cons {A : Type} (p : A -> completion bool) (x : A)
    (l r : list A) (b : bool) :
  p x = Normal b -> filter_by p l = Normal r ->
  filter_by p (x :: l) = Normal (if b then x :: r else r).
Proof. intros Hx Hl. cbn [filter_by]. rewrite Hx, Hl. reflexivity. Qed.

(** X15: on a task list without [null] the three counts of the chart
    never exceed the number of tasks together, and they add up to it
    exactly when the status of every task is one of the three strings of
    the enumeration; this is so for the typed tasks the application
    creates, not for every list an import installs. *)
Theorem StatsChart_counts :
  (forall tasks : list json,
      Forall (fun t => t <> JNull) tasks ->
      exists p c s,
        pendingCount tasks = Normal p /\
        completedCount tasks = Normal c /\
        skippedCount tasks = Normal s /\
        p + c + s <= length tasks /\
        (p + c + s = length tasks <->
         Forall (fun t => exists s,
                     prop "status" t = Normal (Some (TaskStatus_json s)))
           tasks)) /\
  (forall ts : list Task,
      exists p c s,
        pendingCount (map Task_json ts) = Normal p /\
        completedCount (map Task_json ts) = Normal c /\
        skippedCount (map Task_json ts) = Normal s /\
        p + c + s = length ts).
Proof.
  assert (Hgen : forall tasks : list json,
      Forall (fun t => t <> JNull) tasks ->
      exists lp lc ls,
        filter_by (has_status PENDING) tasks = Normal lp /\
        filter_by (has_status COMPLETED) tasks = Normal lc /\
        filter_by (has_status SKIPPED) tasks = Normal ls /\
        length lp + length lc + length ls <= length tasks /\
        (length lp + length lc + length ls = length tasks <->
         Forall (fun t => exists s,
                     prop "status" t = Normal (Some (TaskStatus_json s)))
           tasks)).
  { induction 1 as [|t tasks Ht _ IH].
    - exists [], [], []. do 3 (split; [reflexivity|]).
      split; [simpl; lia|]. split; [constructor|reflexivity].
    - destruct IH as (lp & lc & ls & Hlp & Hlc & Hls & Hle & Hiff).
      destruct (has_status_cases t Ht)
        as (bp & bc & bs & Hbp & Hbc & Hbs & Hone & Hexact).
      eexists _, _, _.
      split; [exact (filter_by_cons _ _ _ _ _ Hbp Hlp)|].
      split; [exact (filter_by_cons _ _ _ _ _ Hbc Hlc)|].
      split; [exact (filter_by_cons _ _ _ _ _ Hbs Hls)|].
      assert (Hlen : forall (b : bool) (r : list json),
                 length (if b then t :: r else r) = Nat.b2n b + length r)
        by (intros [] r; reflexivity).
      rewrite !Hlen. cbn [length]. split; [lia|]. split.
      + intros Hsum. constructor; [apply Hexact|apply Hiff]; lia.
      + intros Hall. apply Forall_cons in Hall as [Hs Hall].
        apply Hexact in Hs. apply Hiff in Hall. lia. }
  assert (Hcounts : forall tasks : list json,
      Forall (fun t => t <> JNull) tasks ->
      exists p c s,
        pendingCount tasks = Normal p /\
        completedCount tasks = Normal c /\
        skippedCount tasks = Normal s /\
        p + c + s <= length tasks /\
        (p + c + s = length tasks <->
         Forall (fun t => exists s,
                     prop "status" t = Normal (Some (TaskStatus_json s)))
           tasks)).
  { intros tasks Hnull.
    destruct (Hgen tasks Hnull) as (lp & lc & ls & Hlp & Hlc & Hls & H).
    exists (length lp), (length lc), (length ls).
    unfold pendingCount, completedCount, skippedCount.
    rewrite Hlp, Hlc, Hls. do 3 (split; [reflexivity|]). exact H. }
  split; [exact Hcounts|]. intros ts.
  destruct (Hcounts (map Task_json ts))
    as (p & c & s & Hp & Hc & Hs & _ & Hiff).
  { apply Forall_forall. intros t Hin. apply list_elem_of_In, in_map_iff in Hin.
    destruct Hin as (t' & <- & _). discriminate. }
  exists p, c, s. do 3 (split; [assumption|]).
  rewrite <- (length_map Task_json ts). apply Hiff.
  apply Forall_forall. intros t Hin. apply list_elem_of_In, in_map_iff in Hin.
  destruct Hin as (t' & <- & _). exists (status t'). reflexivity.
Qed.

Lemma StatsChart_counts_witness :
  exists p c s,
    pendingCount [Task_json task_A; JObj [("id", JStr "9")];
                  JObj [("status", JStr "DONE")]] = Normal p /\
    completedCount [Task_json task_A; JObj [("id", JStr "9")];
                    JObj [("status", JStr "DONE")]] = Normal c /\
    skippedCount [Task_json task_A; JObj [("id", JStr "9")];
                  JObj [("status", JStr "DONE")]] = Normal s /\
    p + c + s <= 3.
Proof.
  destruct (proj1 StatsChart_counts
              [Task_json task_A; JObj [("id", JStr "9")];
               JObj [("status", JStr "DONE")]])
    as (p & c & s & Hp & Hc & Hs & Hle & _).
  { repeat constructor; discriminate. }
  exists p, c, s. do 3 (split; [assumption|]). exact Hle.
Defined.

(** The counts of two tasks whose status is none of the three strings are
    all zero. *)
Example StatsChart_counts_other_status :
  pendingCount [JObj [("id", JStr "9")]; JObj [("status", JStr "DONE")]]
    = Normal 0 /\
  completedCount [JObj [("id", JStr "9")]; JObj [("status", JStr "DONE")]]
    = Normal 0 /\
  skippedCount [JObj [("id", JStr "9")]; JObj [("status", JStr "DONE")]]
    = Normal 0.
Proof. repeat split. Qed.

(** X16: once the tasks of an id are marked completed or skipped, the
    pending view is the pending view of before without the tasks of that
    id, the others staying in their order. *)
Theorem pending_view_after_status (i : string) (s : TaskStatus)
    (tasks : list Task) :
  s <> PENDING ->
  filteredTasks FilterPending (updateTaskStatus i s tasks)
  = List.filter (fun t => negb (has_id i t))
      (filteredTasks FilterPending tasks).
Proof.
  intros Hs. cbn [filteredTasks]. unfold updateTaskStatus.
  induction tasks as [|t tasks IH]; [reflexivity|].
  cbn [map List.filter]. destruct (has_id i t) eqn:Hid.
  - cbn [status]. assert (Hno : status_eqb s PENDING = false)
      by (destruct s; [contradiction Hs|..]; reflexivity).
    rewrite Hno, IH.
    destruct (status_eqb (status t) PENDING); [|reflexivity].
    cbn [List.filter]. rewrite Hid. reflexivity.
  - rewrite IH. destruct (status_eqb (status t) PENDING); [|reflexivity].
    cbn [List.filter]. rewrite Hid. reflexivity.
Qed.

Lemma pending_view_after_status_witness :
  filteredTasks FilterPending
    (updateTaskStatus "B" SKIPPED [task_A; task_B; task_C])
  = List.filter (fun t => negb (has_id "B" t))
      (filteredTasks FilterPending [task_A; task_B; task_C]).
Proof.
  apply (pending_view_after_status "B" SKIPPED [task_A; task_B; task_C]).
  discriminate.
Defined.

(** ** Local persistence *)

Lemma print_compact_head (v : json) :
  exists c r, print_compact v = c :: r /\
    json_space c = false /\ Ascii.eqb c "]"%char = false
    /\ Ascii.eqb c "}"%char = false.
Proof.
  destruct v as [|[]|n|s|[|v1 vs]|[|m1 ms]];
    try (eexists _, _; split; [reflexivity|repeat split; reflexivity]).
  destruct (print_number_head n) as (c & r & Hc & Hd).
  exists c, r. split; [exact Hc|]. apply number_head_plain, Hd.
Qed.

Lemma parse_compact_elements (rest : list ascii) (vs : list json) :
  Forall reads_back_compact vs ->
  forall (v1 : json) (fuel : nat),
    reads_back_compact v1 ->
    list_sum (map (fun v => S (json_size v)) (v1 :: vs)) <= fuel ->
    parse_elements fuel
      (print_compact v1
         ++ flat_map (fun v => ","%char :: print_compact v) vs
         ++ "]"%char :: rest)
    = Some (map reparsed (v1 :: vs), rest).
Proof.
  induction 1 as [|v2 vs Hv2 _ IH]; intros v1 fuel Hv1 Hfuel;
    (destruct fuel as [|fuel]; [simpl in Hfuel; lia|]);
    cbn [map list_sum fold_right] in Hfuel.
  - cbn [flat_map app]. eapply parse_elements_last.
    + apply Hv1; [lia|reflexivity].
    + reflexivity.
  - cbn [flat_map]. rewrite <- !app_assoc. cbn [app].
    erewrite parse_elements_more.
    + rewrite IH; [reflexivity|exact Hv2|cbn [map list_sum fold_right]; lia].
    + apply Hv1; [lia|reflexivity].
    + reflexivity.
Qed.

Lemma parse_compact_members (rest : list ascii) (ms : list (string * json)) :
  Forall (fun m => reads_back_compact (snd m)) ms ->
  forall (m1 : string * json) (fuel : nat),
    reads_back_compact (snd m1) ->
    list_sum (map (fun m => S (json_size (snd m))) (m1 :: ms)) <= fuel ->
    parse_members fuel
      (quote_string (fst m1) ++ ":"%char :: print_compact (snd m1)
         ++ flat_map (fun m => ","%char :: quote_string (fst m)
                                 ++ ":"%char :: print_compact (snd m)) ms
         ++ "}"%char :: rest)
    = Some (map (fun m => (fst m, reparsed (snd m))) (m1 :: ms), rest).
Proof.
  induction 1 as [|m2 ms Hm2 _ IH]; intros [k v] fuel Hv Hfuel;
    (destruct fuel as [|fuel]; [simpl in Hfuel; lia|]);
    cbn [map list_sum fold_right fst snd] in *.
  - cbn [flat_map app]. eapply parse_members_last.
    + rewrite quote_string_app. reflexivity.
    + apply parse_chars_quoted.
    + apply Hv; [lia|reflexivity].
    + reflexivity.
  - cbn [flat_map]. rewrite <- !app_assoc. cbn [app].
    rewrite <- !app_assoc. cbn [app]. erewrite parse_members_more.
    + rewrite IH; [reflexivity|exact Hm2|cbn [map list_sum fold_right]; lia].
    + rewrite quote_string_app. reflexivity.
    + apply parse_chars_quoted.
    + apply Hv; [lia|reflexivity].
    + reflexivity.
Qed.

Lemma compact_array_app (v1 : json) (vs : list json) (rest : list ascii) :
  print_compact (JArr (v1 :: vs)) ++ rest
  = "["%char :: print_compact v1
      ++ flat_map (fun v => ","%char :: print_compact v) vs
      ++ "]"%char :: rest.
Proof. cbn [print_compact]. cbn [app]. rewrite <- !app_assoc. reflexivity. Qed.

Lemma compact_object_app (m1 : string * json) (ms : list (string * json))
    (rest : list ascii) :
  print_compact (JObj (m1 :: ms)) ++ rest
  = "{"%char :: quote_string (fst m1) ++ ":"%char :: print_compact (snd m1)
      ++ flat_map (fun m => ","%char :: quote_string (fst m)
                              ++ ":"%char :: print_compact (snd m)) ms
      ++ "}"%char :: rest.
Proof.
  cbn [print_compact]. cbn [app]. rewrite <- !app_assoc. cbn [app].
  rewrite <- !app_assoc. reflexivity.
Qed.

Lemma parse_print_compact (v : json) : reads_back_compact v.
Proof.
  induction v as [|b|n|s|vs IH|ms IH] using json_ind;
    intros fuel rest Hfuel Hrest;
    (destruct fuel as [|fuel]; [simpl in Hfuel; lia|]).
  - reflexivity.
  - destruct b; reflexivity.
  - apply parse_value_JNum, Hrest.
  - cbn [print_compact]. rewrite quote_string_app, parse_value_string.
    rewrite parse_chars_quoted, string_of_list_ascii_of_string. reflexivity.
  - destruct vs as [|v1 vs]; [reflexivity|].
    rewrite compact_array_app.
    destruct (print_compact_head v1) as (c & r & Hc & Hsp & Hclose & _).
    erewrite parse_value_array.
    + inversion IH as [|? ? Hv1 Hvs]; subst.
      rewrite parse_compact_elements; [reflexivity|exact Hvs|exact Hv1|].
      cbn [json_size] in Hfuel. lia.
    + rewrite Hc. cbn [app]. apply skip_ws_stop, Hsp.
    + exact Hclose.
  - destruct ms as [|m1 ms]; [reflexivity|].
    rewrite compact_object_app.
    erewrite parse_value_object.
    + inversion IH as [|? ? Hm1 Hms]; subst.
      rewrite parse_compact_members; [reflexivity|exact Hms|exact Hm1|].
      cbn [json_size] in Hfuel. lia.
    + rewrite quote_string_app. reflexivity.
    + reflexivity.
Qed.

Lemma json_size_compact (v : json) : json_size v <= length (print_compact v).
Proof.
  induction v as [|b|n|s|vs IH|ms IH] using json_ind.
  - simpl. lia.
  - destruct b; simpl; lia.
  - destruct (print_number_head n) as (c & r & Hc & _).
    cbn [print_compact json_size]. rewrite Hc. simpl. lia.
  - cbn [print_compact json_size]. unfold quote_string. simpl. lia.
  - destruct vs as [|v1 vs]; [simpl; lia|].
    pose proof (compact_array_app v1 vs []) as Happ.
    rewrite app_nil_r in Happ. rewrite Happ. clear Happ.
    inversion IH as [|? ? Hv1 Hvs]; subst. clear IH.
    cbn [json_size map list_sum fold_right length].
    rewrite !length_app.
    assert (Hrest :
      list_sum (map (fun v => S (json_size v)) vs)
      <= length (flat_map (fun v => ","%char :: print_compact v) vs)).
    { clear Hv1. induction Hvs as [|v2 vs Hv2 _ IHvs]; [simpl; lia|].
      cbn [map list_sum fold_right flat_map]. rewrite length_app.
      cbn [length]. unfold list_sum in IHvs. lia. }
    unfold list_sum in Hrest. cbn [length]. lia.
  - destruct ms as [|m1 ms]; [simpl; lia|].
    pose proof (compact_object_app m1 ms []) as Happ.
    rewrite app_nil_r in Happ. rewrite Happ. clear Happ.
    inversion IH as [|? ? Hm1 Hms]; subst. clear IH.
    cbn [json_size map list_sum fold_right length].
    rewrite !length_app. cbn [length]. rewrite !length_app.
    assert (Hrest :
      list_sum (map (fun m => S (json_size (snd m))) ms)
      <= length (flat_map (fun m => ","%char :: quote_string (fst m)
                                      ++ ":"%char :: print_compact (snd m))
                   ms)).
    { clear Hm1. induction Hms as [|m2 ms Hm2 _ IHms]; [simpl; lia|].
      cbn [map list_sum fold_right flat_map]. rewrite length_app.
      cbn [length]. rewrite !length_app. cbn [length].
      unfold list_sum in IHms. lia. }
    unfold list_sum in Hrest. cbn [length]. lia.
Qed.

(** What [JSON.parse(JSON.stringify(v))] is, without indentation. *)
Lemma JSON_parse_stringify_compact (v : json) :
  JSON_parse (JSON_stringify_compact v) = Some (reparsed v).
Proof.
  unfold JSON_parse, JSON_stringify_compact. cbv zeta.
  rewrite list_ascii_of_string_of_list_ascii.
  rewrite <- (app_nil_r (print_compact v)) at 2.
  rewrite parse_print_compact; [reflexivity| |exact I].
  pose proof (json_size_compact v). lia.
Qed.

Lemma stored_truthy (l : list json) : truthy_string (stored l) = true.
Proof.
  unfold stored, JSON_stringify_compact.
  destruct (print_compact_head (JArr l)) as (c & r & -> & _). reflexivity.
Qed.

(** X17: what the synchronising effects store is what the next start
    loads, for every task list and every device list whose numbers are
    finite and not the negative zero ([json_kept], which also asks of a
    list of members what holds of every object: each name once, in
    property order); a number that is not finite is stored as [null] and
    loaded as [null], and the negative zero is stored as [0] and loaded
    as zero.  A device list that was emptied is loaded empty: the built-in
    list is used only when the storage has no entry, an empty one, or one
    that does not parse (the task list is then empty). *)
Theorem storage_roundtrip :
  (forall l : list json,
      load_tasks (Some (stored l)) = JArr (map reparsed l) /\
      load_devices (Some (stored l)) = JArr (map reparsed l)) /\
  (forall l : list json,
      forallb json_kept l = true ->
      load_tasks (Some (stored l)) = JArr l /\
      load_devices (Some (stored l)) = JArr l) /\
  load_devices (Some (stored [])) = JArr [] /\
  load_tasks (Some (stored [JNum (Infinity false)])) = JArr [JNull] /\
  load_tasks (Some (stored [JNum (Zero true)])) = JArr [JNum (Zero false)] /\
  (forall saved : option string,
      saved = None \/ saved = Some EmptyString \/
      (exists s, saved = Some s /\ JSON_parse s = None) ->
      load_tasks saved = JArr [] /\
      load_devices saved = JArr (map JStr DEFAULT_DEVICES)) /\
  (forall (s : string) (v : json),
      JSON_parse s = Some v ->
      load_tasks (Some s) = v /\ load_devices (Some s) = v).
Proof.
  assert (Hround : forall l : list json,
             load_tasks (Some (stored l)) = JArr (map reparsed l) /\
             load_devices (Some (stored l)) = JArr (map reparsed l)).
  { intros l. unfold load_tasks, load_devices. rewrite stored_truthy.
    unfold stored. rewrite JSON_parse_stringify_compact. split; reflexivity. }
  split; [exact Hround|]. split.
  { intros l Hkept. rewrite <- (map_reparsed_kept l Hkept) at 2 4.
    apply Hround. }
  split; [apply Hround|]. split; [apply Hround|]. split; [apply Hround|].
  split.
  - intros saved [->|[->|(s & -> & Hp)]]; try (split; reflexivity).
    unfold load_tasks, load_devices. rewrite Hp.
    destruct (truthy_string s); split; reflexivity.
  - intros s v Hp. unfold load_tasks, load_devices. rewrite Hp.
    destruct s as [|c s]; [discriminate Hp|]. split; reflexivity.
Qed.

Lemma storage_roundtrip_witness :
  (load_tasks (Some (stored [Task_json task_A; Task_json task_B]))
     = JArr [Task_json task_A; Task_json task_B] /\
   load_devices (Some (stored [Task_json task_A; Task_json task_B]))
     = JArr [Task_json task_A; Task_json task_B]) /\
  (load_tasks (Some "{oops") = JArr [] /\
   load_devices (Some "{oops") = JArr (map JStr DEFAULT_DEVICES)).
Proof.
  destruct storage_roundtrip as (_ & Hkept & _ & _ & _ & Hfallback & _).
  split.
  - apply (Hkept [Task_json task_A; Task_json task_B]).
    vm_compute. reflexivity.
  - apply (Hfallback (Some "{oops")).
    right. right. exists "{oops". split; reflexivity.
Defined.

(** ** More on the import *)

(** X18: an import that carries no device array leaves the device list as
    it is: a legacy array of valid tasks that is not empty, and an object
    whose [devices] is missing or not an array, replace the task list
    only. *)
Theorem import_keeps_devices (importText : string) (ts : list json) :
  Forall complete_task ts ->
  (JSON_parse importText = Some (JArr ts) /\ ts <> []) \/
  (exists ms, JSON_parse importText = Some (JObj ms) /\
     member "tasks" ms = Some (JArr ts) /\
     forall ds, member "devices" ms <> Some (JArr ds)) ->
  handleImportConfirm importText = Some (import_confirm ts None) /\
  forall st,
    import importText OkButton st = {| tasks := ts; devices := devices st |}.
Proof.
  intros Hok Hshape. pose proof (every_complete _ Hok) as Hevery.
  assert (Hdialog : handleImportConfirm importText
                    = Some (import_confirm ts None)).
  { unfold handleImportConfirm.
    destruct Hshape as [[Hp Hne]|(ms & Hp & Hts & Hds)];
      rewrite (JSON_parse_not_blank _ _ Hp); cbn [negb];
      unfold import_try; rewrite Hp.
    - cbn [isArray elements_of]. unfold import_validate.
      destruct ts as [|t ts']; [congruence|].
      cbn [length Nat.ltb Nat.leb mbind completion_bind].
      rewrite Hevery. reflexivity.
    - cbn [isArray prop mbind completion_bind]. rewrite Hts.
      cbn [truthy isArray andb elements_of].
      assert (Hno : truthy (member "devices" ms)
                    && isArray (member "devices" ms) = false).
      { destruct (member "devices" ms) as [[| | | |ds|]|];
          cbn [isArray]; try apply andb_false_r.
        contradiction (Hds ds). reflexivity. }
      rewrite Hno. unfold import_validate. destruct ts as [|t ts'].
      + cbn [length Nat.ltb Nat.leb prop mbind completion_bind]. rewrite Hts.
        reflexivity.
      + cbn [length Nat.ltb Nat.leb mbind completion_bind].
        rewrite Hevery. reflexivity. }
  split; [exact Hdialog|]. intros st. unfold import. rewrite Hdialog.
  reflexivity.
Qed.

Lemma import_keeps_devices_witness :
  handleImportConfirm (JSON_stringify (JArr [Task_json task_A]))
    = Some (import_confirm [Task_json task_A] None) /\
  forall st,
    import (JSON_stringify (JArr [Task_json task_A])) OkButton st
    = {| tasks := [Task_json task_A]; devices := devices st |}.
Proof.
  apply (import_keeps_devices (JSON_stringify (JArr [Task_json task_A]))
           [Task_json task_A]).
  - repeat constructor; eexists _, _; repeat split; reflexivity.
  - left. split; [vm_compute; reflexivity|discriminate].
Defined.

(** X19: the validity of the tasks is needed for the round trip: the
    export of a store that holds a task without a non-empty [id], [name]
    or [checkInTime] is refused with an alert when it is imported, and
    the store of the time is left as it is. *)
Theorem export_incomplete_refused (st : Store) :
  ~ Forall complete_task (tasks st) ->
  (exists message,
      handleImportConfirm (handleExport st) = Some (import_alert message)) /\
  forall (answer : Button) (st0 : Store),
    import (handleExport st) answer st0 = st0.
Proof.
  intros Hbad.
  set (doc := JObj [("tasks", JArr (map reparsed (tasks st)));
                    ("devices", JArr (map reparsed (devices st)));
                    ("version", reparsed (JNum (number_of_Z 1)))]).
  assert (Hp : JSON_parse (handleExport st) = Some doc)
    by apply JSON_parse_stringify.
  assert (Hevery : every valid_task (map reparsed (tasks st)) <> Normal true).
  { intros He. apply Hbad, Forall_forall. intros t Hin.
    apply complete_task_reparsed, valid_task_complete.
    apply (every_true _ _ _ He). apply in_map, list_elem_of_In, Hin. }
  destruct (every_not_true _ Hevery) as (t & Hin & Ht).
  assert (Halert : exists message,
    handleImportConfirm (handleExport st) = Some (import_alert message)).
  { assert (Htry : import_try (handleExport st)
                   = import_validate doc (map reparsed (tasks st))
                       (Some (map reparsed (devices st))))
      by (unfold import_try; rewrite Hp; reflexivity).
    unfold handleImportConfirm. rewrite (JSON_parse_not_blank _ _ Hp).
    cbn [negb]. rewrite Htry.
    destruct (import_validate_incomplete doc
                (map reparsed (tasks st)) (Some (map reparsed (devices st)))
                t Hin Ht)
      as [Hthrow|(message & Hm)].
    - eexists. rewrite Hthrow. reflexivity.
    - exists message. rewrite Hm. reflexivity. }
  split; [exact Halert|]. intros answer st0. destruct Halert as (message & H).
  unfold import. rewrite H. destruct answer; reflexivity.
Qed.

Lemma export_incomplete_refused_witness :
  (exists message,
      handleImportConfirm
        (handleExport (mkStore [JObj [("id", JStr "1")]] []))
      = Some (import_alert message)) /\
  forall (answer : Button) (st0 : Store),
    import (handleExport (mkStore [JObj [("id", JStr "1")]] [])) answer st0
    = st0.
Proof.
  apply (export_incomplete_refused (mkStore [JObj [("id", JStr "1")]] [])).
  intros Hall. apply Forall_inv in Hall.
  destruct Hall as (_ & (ms & v & Heq & Hm & _) & _).
  injection Heq as <-. discriminate Hm.
Defined.

(** The validation opens the confirmation for the sequence it was given,
    and only when every element passed. *)
Lemma import_validate_confirm (data : json) (ts : list json)
    (ds : option (list json)) :
  import_validate data ts ds = Throw \/
  (exists message, import_validate data ts ds = Normal (import_alert message))
  \/ (import_validate data ts ds = Normal (import_confirm ts ds) /\
      every valid_task ts = Normal true).
Proof.
  unfold import_validate.
  destruct (Nat.ltb 0 (length ts)); cbn [mbind completion_bind].
  - destruct (every valid_task ts) as [[]|]; eauto.
  - destruct (prop "tasks" data) as [t|]; cbn [mbind completion_bind]; auto.
    destruct (truthy t && length_is_zero t); eauto.
    destruct (every valid_task ts) as [[]|]; eauto.
Qed.

(** X20: an import is all or nothing, for every text and every answer:
    either the store is left as it is, or the text is a JSON document,
    the confirmation was accepted, the task list is the whole task array
    of the document (the document itself when it is an array, its [tasks]
    otherwise), every element of which has a non-empty [id], [name] and
    [checkInTime], and the device list is the whole [devices] array of
    the document when it has one and the one of before when it has
    none. *)
Theorem import_all_or_nothing (importText : string) (answer : Button)
    (st : Store) :
  import importText answer st = st \/
  exists data ts,
    JSON_parse importText = Some data /\
    resolved_tasks data = Some ts /\
    Forall complete_task ts /\
    answer = OkButton /\
    import importText answer st
    = {| tasks := ts;
         devices := match resolved_devices data with
                    | Some ds => ds
                    | None => devices st
                    end |}.
Proof.
  assert (Hall : forall ts, every valid_task ts = Normal true ->
                            Forall complete_task ts).
  { intros ts He. apply Forall_forall. intros t Hin.
    apply valid_task_complete. apply list_elem_of_In in Hin.
    exact (every_true _ _ _ He Hin). }
  unfold import, handleImportConfirm.
  destruct (negb (truthy_string (trim importText))); [left; reflexivity|].
  unfold import_try.
  destruct (JSON_parse importText) as [data|];
    [|left; destruct answer; reflexivity].
  destruct data as [|b|n|s|l|ms];
    cbn [isArray prop mbind completion_bind truthy andb elements_of];
    try (left; destruct answer; reflexivity).
  - destruct (import_validate_confirm (JArr l) l None)
      as [H|[(message & H)|[H Hvalid]]]; rewrite H;
      try (left; destruct answer; reflexivity).
    destruct answer; [|left; reflexivity].
    right. exists (JArr l), l. split; [reflexivity|]. split; [reflexivity|].
    split; [exact (Hall _ Hvalid)|]. split; reflexivity.
  - destruct (member "tasks" ms) as [[| | | |l|]|] eqn:Hts;
      cbn [truthy isArray andb elements_of]; rewrite ?andb_false_r;
      try (left; destruct answer; reflexivity).
    assert (Hds :
      (if truthy (member "devices" ms) && isArray (member "devices" ms)
       then Some (elements_of (member "devices" ms)) else None)
      = resolved_devices (JObj ms)).
    { cbn [resolved_devices].
      destruct (member "devices" ms) as [[| | | |ds|]|];
        cbn [truthy isArray andb elements_of]; try reflexivity;
        rewrite andb_false_r; reflexivity. }
    rewrite Hds.
    destruct (import_validate_confirm (JObj ms) l
                (resolved_devices (JObj ms)))
      as [H|[(message & H)|[H Hvalid]]]; rewrite H;
      try (left; destruct answer; reflexivity).
    destruct answer; [|left; reflexivity].
    right. exists (JObj ms), l. split; [reflexivity|].
    split; [cbn [resolved_tasks]; rewrite Hts; reflexivity|].
    split; [exact (Hall _ Hvalid)|]. split; reflexivity.
Qed.

(** An import that does change the store: the document with the odd
    device array, accepted. *)
Lemma import_all_or_nothing_witness :
  exists data ts,
    JSON_parse text_odd_devices = Some data /\
    resolved_tasks data = Some ts /\
    Forall complete_task ts /\
    OkButton = OkButton /\
    import text_odd_devices OkButton (mkStore [] [])
    = {| tasks := ts;
         devices := match resolved_devices data with
                    | Some ds => ds
                    | None => []
                    end |}.
Proof.
  destruct (import_all_or_nothing text_odd_devices OkButton (mkStore [] []))
    as [Hsame|Hdone].
  - exfalso. vm_compute in Hsame. discriminate Hsame.
  - exact Hdone.
Defined.

